(** * delivery: one data stream, many dynamically attaching clients

    A shallow embedding of [delivery.c] and the properties of its server
    engine: the client registry kept in [fd]/[cnt], the source manager
    ([open_src], [close_src], [reopen_src]), the read/broadcast cycle
    ([read_buf], [write_buf]), the acceptor ([check_for_new_clients]), the
    fatal exit [die] and the start-up sequence of [main]; then of the
    rest of the file: the modes of descriptors, the PID file, the socket
    address and the socket file, the client, and the ways out of [main].

    The program is a C program over static data and system calls.  It is
    modelled as functions over one record [State] holding the static data
    of the file, the C runtime's [errno], [atexit] list and environment, and
    the part of the operating system the program talks to.  What the calls
    return is not decided by the program: every kind of call has a queue of
    pending results ([oracle]), which the call consumes in order; a call
    whose queue is empty never returns ([Hang]).

    Conventions.
    - C [int]s are [Z]; pointers are [Z] with [0] for [NULL]; [char *] names
      are [option string] with [None] for [NULL].  The values the calls
      yield are taken to fit their C types; where the program stores a
      [long] in an [int] -- the page size and the block size, in
      [read_buf] -- the conversion is written out ([to_int]).
    - [pclose] is taken to return: the producer is taken to end once its
      output is closed.  The C function waits for the producer, and a
      producer that does not end keeps [close_src], and [die] after it,
      from going on; what is said of the source manager and of a restart
      holds on that condition.  The properties of [die] itself, of a
      failing [accept] and of the end of the server do not rest on it:
      they are stated for a process with no source open, or of the calls
      that [die] makes before [close_src].
    - A successful call leaves [errno] alone; a failing call sets it to a
      positive error number.
    - [flock] fails exactly when another process holds the lock.
    - Signals are delivered between the calls of the functions below, never
      inside one.
    - The option loop of [main] is represented by what it leaves behind
      ([Invocation]); [tmpbasename] and [LOCKFILE] are local to [main].
    - Diagnostics on [stderr] and [stdout], signal dispositions and [umask]
      are left out, and with them the statics [src_kill] (written, never
      read), [world] (read for [umask] only) and the scratch variables [i]
      and [cp].
    - Error numbers and [O_NONBLOCK] carry their Linux values. *)

From Stdlib Require Import ZArith String List Lia DecimalString.
From stdpp Require Import base decidable option list functions strings.

Open Scope string_scope.
Open Scope Z_scope.

#[local] Arguments Z.eqb : simpl never.
#[local] Arguments Z.ltb : simpl never.
#[local] Arguments Z.leb : simpl never.
#[local] Arguments Z.gtb : simpl never.

(** ** Constants *)

Definition DELIVERYPID : string := "_DELIVERY_PID".
Definition TMPDIR : string := "/tmp".
Definition MAXCLIENT : Z := 1024.

Definition EINTR : Z := 4.
Definition EIO : Z := 5.
Definition EBADF : Z := 9.
Definition EAGAIN : Z := 11.
Definition EWOULDBLOCK : Z := 11.
Definition EINVAL : Z := 22.
Definition O_NONBLOCK : Z := 2048.
Definition SIGHUP : Z := 1.
Definition STDIN_FILENO : Z := 0.

(** [sizeof(addr.sun_path)] *)
Definition SUN_PATH_SIZE : nat := 108.

(** ** The interface to the operating system *)

(** The calls whose result the program looks at. *)
Inductive sys : Type :=
| SSocket | SBind | SListen | SFcntl | SAccept | SConnect | SDup2 | SExecvp
| SPopen | SSysconf | SFstat | SMalloc | SFread | SWrite
| SFopen | SFscanf | SKill | SOpen.

#[global] Instance sys_eq_dec : EqDecision sys.
Proof. solve_decision. Defined.

(** The result of one call: success with the value the call yields (a
    descriptor, a handle, a count, a size; calls that only report a status
    ignore it), or failure with the error number left in [errno]. *)
Inductive resp : Type :=
| ROk (v : Z)
| RErr (e : positive).

(** The calls that act on something outside the process. *)
Inductive event : Type :=
| EClose (d : Z)
| EUnlink (path : option string)
| EPopen (cmd : string) (env : list (string * string))
| EPclose (h : Z)
| EWrite (d off nr : Z)
| ESocket (d : Z)
| EBind (d : Z) (path : string)
| EListen (d : Z)
| EConnect (d : Z) (path : string)
| EKill (p sig : Z)
| ECreate (path : string).

(** The two functions the program registers with [atexit]. *)
Inductive handler : Type := H_rm_pidfile | H_rm_sockfile.

Record State : Type := mkState {
  src : Z;  (* data source (popen); 0 is NULL *)
  src_fd : Z;  (* Unix domain socket *)
  fd : list Z;  (* client file descriptors, MAXCLIENT slots *)
  cnt : Z;  (* client count *)
  reopen : Z;  (* should the server re-popen <server_command>? *)
  buffer : Z;  (* transfer buffer; 0 is NULL *)
  bufsz : Z;  (* buffer size *)
  err : Z;  (* generic integer error variable *)
  PIDFILE : option string;  (* None is NULL *)
  SOCKFILE : option string;  (* None is NULL *)
  errno : Z;  (* the C library's errno *)
  atexit_fns : list handler;  (* functions registered with atexit, newest first *)
  environ : list (string * string);  (* the process environment *)
  pid : Z;  (* what getpid() returns *)
  oracle : sys -> list resp;  (* pending results of the calls, per kind of call *)
  fl : Z -> Z;  (* file status flags of each descriptor *)
  fs : list string;  (* names present in the file system *)
  locked : list string;  (* lock files held by other processes *)
  trace : list event  (* calls made so far, oldest first *)
}.

Definition set_src (v : Z) (s : State) : State :=
  {| src := v; src_fd := src_fd s; fd := fd s; cnt := cnt s; reopen :=
     reopen s; buffer := buffer s; bufsz := bufsz s; err := err s; PIDFILE
     := PIDFILE s; SOCKFILE := SOCKFILE s; errno := errno s; atexit_fns :=
     atexit_fns s; environ := environ s; pid := pid s; oracle := oracle s;
     fl := fl s; fs := fs s; locked := locked s; trace := trace s |}.

Definition set_src_fd (v : Z) (s : State) : State :=
  {| src := src s; src_fd := v; fd := fd s; cnt := cnt s; reopen := reopen
     s; buffer := buffer s; bufsz := bufsz s; err := err s; PIDFILE :=
     PIDFILE s; SOCKFILE := SOCKFILE s; errno := errno s; atexit_fns :=
     atexit_fns s; environ := environ s; pid := pid s; oracle := oracle s;
     fl := fl s; fs := fs s; locked := locked s; trace := trace s |}.

Definition set_fd (v : list Z) (s : State) : State :=
  {| src := src s; src_fd := src_fd s; fd := v; cnt := cnt s; reopen :=
     reopen s; buffer := buffer s; bufsz := bufsz s; err := err s; PIDFILE
     := PIDFILE s; SOCKFILE := SOCKFILE s; errno := errno s; atexit_fns :=
     atexit_fns s; environ := environ s; pid := pid s; oracle := oracle s;
     fl := fl s; fs := fs s; locked := locked s; trace := trace s |}.

Definition set_cnt (v : Z) (s : State) : State :=
  {| src := src s; src_fd := src_fd s; fd := fd s; cnt := v; reopen :=
     reopen s; buffer := buffer s; bufsz := bufsz s; err := err s; PIDFILE
     := PIDFILE s; SOCKFILE := SOCKFILE s; errno := errno s; atexit_fns :=
     atexit_fns s; environ := environ s; pid := pid s; oracle := oracle s;
     fl := fl s; fs := fs s; locked := locked s; trace := trace s |}.

Definition set_reopen (v : Z) (s : State) : State :=
  {| src := src s; src_fd := src_fd s; fd := fd s; cnt := cnt s; reopen :=
     v; buffer := buffer s; bufsz := bufsz s; err := err s; PIDFILE :=
     PIDFILE s; SOCKFILE := SOCKFILE s; errno := errno s; atexit_fns :=
     atexit_fns s; environ := environ s; pid := pid s; oracle := oracle s;
     fl := fl s; fs := fs s; locked := locked s; trace := trace s |}.

Definition set_buffer (v : Z) (s : State) : State :=
  {| src := src s; src_fd := src_fd s; fd := fd s; cnt := cnt s; reopen :=
     reopen s; buffer := v; bufsz := bufsz s; err := err s; PIDFILE :=
     PIDFILE s; SOCKFILE := SOCKFILE s; errno := errno s; atexit_fns :=
     atexit_fns s; environ := environ s; pid := pid s; oracle := oracle s;
     fl := fl s; fs := fs s; locked := locked s; trace := trace s |}.

Definition set_bufsz (v : Z) (s : State) : State :=
  {| src := src s; src_fd := src_fd s; fd := fd s; cnt := cnt s; reopen :=
     reopen s; buffer := buffer s; bufsz := v; err := err s; PIDFILE :=
     PIDFILE s; SOCKFILE := SOCKFILE s; errno := errno s; atexit_fns :=
     atexit_fns s; environ := environ s; pid := pid s; oracle := oracle s;
     fl := fl s; fs := fs s; locked := locked s; trace := trace s |}.

Definition set_err (v : Z) (s : State) : State :=
  {| src := src s; src_fd := src_fd s; fd := fd s; cnt := cnt s; reopen :=
     reopen s; buffer := buffer s; bufsz := bufsz s; err := v; PIDFILE :=
     PIDFILE s; SOCKFILE := SOCKFILE s; errno := errno s; atexit_fns :=
     atexit_fns s; environ := environ s; pid := pid s; oracle := oracle s;
     fl := fl s; fs := fs s; locked := locked s; trace := trace s |}.

Definition set_PIDFILE (v : option string) (s : State) : State :=
  {| src := src s; src_fd := src_fd s; fd := fd s; cnt := cnt s; reopen :=
     reopen s; buffer := buffer s; bufsz := bufsz s; err := err s; PIDFILE
     := v; SOCKFILE := SOCKFILE s; errno := errno s; atexit_fns :=
     atexit_fns s; environ := environ s; pid := pid s; oracle := oracle s;
     fl := fl s; fs := fs s; locked := locked s; trace := trace s |}.

Definition set_SOCKFILE (v : option string) (s : State) : State :=
  {| src := src s; src_fd := src_fd s; fd := fd s; cnt := cnt s; reopen :=
     reopen s; buffer := buffer s; bufsz := bufsz s; err := err s; PIDFILE
     := PIDFILE s; SOCKFILE := v; errno := errno s; atexit_fns := atexit_fns
     s; environ := environ s; pid := pid s; oracle := oracle s; fl := fl s;
     fs := fs s; locked := locked s; trace := trace s |}.

Definition set_errno (v : Z) (s : State) : State :=
  {| src := src s; src_fd := src_fd s; fd := fd s; cnt := cnt s; reopen :=
     reopen s; buffer := buffer s; bufsz := bufsz s; err := err s; PIDFILE
     := PIDFILE s; SOCKFILE := SOCKFILE s; errno := v; atexit_fns :=
     atexit_fns s; environ := environ s; pid := pid s; oracle := oracle s;
     fl := fl s; fs := fs s; locked := locked s; trace := trace s |}.

Definition set_atexit_fns (v : list handler) (s : State) : State :=
  {| src := src s; src_fd := src_fd s; fd := fd s; cnt := cnt s; reopen :=
     reopen s; buffer := buffer s; bufsz := bufsz s; err := err s; PIDFILE
     := PIDFILE s; SOCKFILE := SOCKFILE s; errno := errno s; atexit_fns :=
     v; environ := environ s; pid := pid s; oracle := oracle s; fl := fl s;
     fs := fs s; locked := locked s; trace := trace s |}.

Definition set_environ (v : list (string * string)) (s : State) : State :=
  {| src := src s; src_fd := src_fd s; fd := fd s; cnt := cnt s; reopen :=
     reopen s; buffer := buffer s; bufsz := bufsz s; err := err s; PIDFILE
     := PIDFILE s; SOCKFILE := SOCKFILE s; errno := errno s; atexit_fns :=
     atexit_fns s; environ := v; pid := pid s; oracle := oracle s; fl := fl
     s; fs := fs s; locked := locked s; trace := trace s |}.

Definition set_oracle (v : sys -> list resp) (s : State) : State :=
  {| src := src s; src_fd := src_fd s; fd := fd s; cnt := cnt s; reopen :=
     reopen s; buffer := buffer s; bufsz := bufsz s; err := err s; PIDFILE
     := PIDFILE s; SOCKFILE := SOCKFILE s; errno := errno s; atexit_fns :=
     atexit_fns s; environ := environ s; pid := pid s; oracle := v; fl := fl
     s; fs := fs s; locked := locked s; trace := trace s |}.

Definition set_fl (v : Z -> Z) (s : State) : State :=
  {| src := src s; src_fd := src_fd s; fd := fd s; cnt := cnt s; reopen :=
     reopen s; buffer := buffer s; bufsz := bufsz s; err := err s; PIDFILE
     := PIDFILE s; SOCKFILE := SOCKFILE s; errno := errno s; atexit_fns :=
     atexit_fns s; environ := environ s; pid := pid s; oracle := oracle s;
     fl := v; fs := fs s; locked := locked s; trace := trace s |}.

Definition set_fs (v : list string) (s : State) : State :=
  {| src := src s; src_fd := src_fd s; fd := fd s; cnt := cnt s; reopen :=
     reopen s; buffer := buffer s; bufsz := bufsz s; err := err s; PIDFILE
     := PIDFILE s; SOCKFILE := SOCKFILE s; errno := errno s; atexit_fns :=
     atexit_fns s; environ := environ s; pid := pid s; oracle := oracle s;
     fl := fl s; fs := v; locked := locked s; trace := trace s |}.

Definition set_trace (v : list event) (s : State) : State :=
  {| src := src s; src_fd := src_fd s; fd := fd s; cnt := cnt s; reopen :=
     reopen s; buffer := buffer s; bufsz := bufsz s; err := err s; PIDFILE
     := PIDFILE s; SOCKFILE := SOCKFILE s; errno := errno s; atexit_fns :=
     atexit_fns s; environ := environ s; pid := pid s; oracle := oracle s;
     fl := fl s; fs := fs s; locked := locked s; trace := v |}.

(** ** Outcomes and the monad of the program *)

Inductive outcome (A : Type) : Type :=
| Ret (a : A) (s : State)        (* the function returned [a] *)
| Exit (status : Z) (s : State)  (* [exit(status)] was called *)
| Abort (s : State)              (* an [assert] failed *)
| Exec (argv : list string) (s : State)  (* [execvp] replaced the process *)
| Hang (s : State).              (* a call never returned *)

Arguments Ret {A} a s.
Arguments Exit {A} status s.
Arguments Abort {A} s.
Arguments Exec {A} argv s.
Arguments Hang {A} s.

Definition M (A : Type) : Type := State -> outcome A.

Definition ret {A : Type} (a : A) : M A := fun s => Ret a s.

Definition bind {A B : Type} (m : M A) (k : A -> M B) : M B :=
  fun s =>
    match m s with
    | Ret a s' => k a s'
    | Exit e s' => Exit e s'
    | Abort s' => Abort s'
    | Exec argv s' => Exec argv s'
    | Hang s' => Hang s'
    end.

Declare Scope prog_scope.
Delimit Scope prog_scope with prog.
Notation "x <- m ;; k" := (bind m (fun x => k))
  (at level 100, m at next level, right associativity) : prog_scope.
Notation "m ;; k" := (bind m (fun _ => k))
  (at level 100, right associativity) : prog_scope.
Open Scope prog_scope.

Definition get : M State := fun s => Ret s s.
Definition modify (f : State -> State) : M unit := fun s => Ret tt (f s).
Definition emit (e : event) : M unit :=
  modify (fun s => set_trace (trace s ++ [e]) s).

(** The state after a call of kind [k] got the result [r], with [rs] still
    pending: a failure stores its error number in [errno]. *)
Definition answered (k : sys) (r : resp) (rs : list resp) (s : State)
  : State :=
  let s1 := set_oracle (<[k := rs]> (oracle s)) s in
  match r with
  | ROk _ => s1
  | RErr e => set_errno (Z.pos e) s1
  end.

(** One call of kind [k]: it takes the next pending result. *)
Definition call (k : sys) : M resp :=
  fun s =>
    match oracle s k with
    | [] => Hang s
    | r :: rs => Ret r (answered k r rs s)
    end.

(** What a call returns to C: an [int] result is [-1] on failure, a pointer
    result is [NULL], a count is [0]. *)
Definition int_of (r : resp) : Z :=
  match r with ROk v => v | RErr _ => -1 end.
Definition status_of (r : resp) : Z :=
  match r with ROk _ => 0 | RErr _ => -1 end.
Definition ptr_of (r : resp) : Z :=
  match r with ROk v => v | RErr _ => 0 end.
Definition count_of (r : resp) : Z :=
  match r with ROk v => v | RErr _ => 0 end.

(** The conversion of a [long] to [int]: the value modulo [2^32], in the
    range of [int]. *)
Definition to_int (z : Z) : Z := (z + 2 ^ 31) mod 2 ^ 32 - 2 ^ 31.

(** Array access: [a[i]] and [a[i] = v].  Outside the array C is undefined;
    here a read yields [0] and a write is dropped. *)
Definition arr_get (a : list Z) (i : Z) : Z := default 0 (a !! Z.to_nat i).
Definition arr_set (a : list Z) (i : Z) (v : Z) : list Z :=
  <[Z.to_nat i := v]> a.

(** The registry proper: the first [cnt] slots of [fd]. *)
Definition registry (s : State) : list Z := take (Z.to_nat (cnt s)) (fd s).

Definition sys_close (d : Z) : M unit := emit (EClose d).

(** [unlink(path)] takes the name out of the file system; with [NULL] it
    fails and removes nothing. *)
Definition unlink_fs (path : option string) (files : list string)
  : list string :=
  match path with
  | Some n => filter (fun x => x <> n) files
  | None => files
  end.

Definition sys_unlink (path : option string) : M unit :=
  emit (EUnlink path);;
  modify (fun s => set_fs (unlink_fs path (fs s)) s).

Definition create_file (path : string) : M unit :=
  emit (ECreate path);;
  modify (fun s =>
    if decide (path ∈ fs s) then s else set_fs (fs s ++ [path]) s).

(** ** die cleanly *)

Definition rm_pidfile : M unit :=
  s <- get;; sys_unlink (PIDFILE s).

Definition rm_sockfile : M unit :=
  s <- get;;
  (if negb (src_fd s =? 0)
   then sys_close (src_fd s);; modify (set_src_fd 0)
   else ret tt);;
  s <- get;; sys_unlink (SOCKFILE s).

(** [pclose] is one call here, which returns. *)
Definition close_src : M unit :=
  s <- get;;
  (if negb (src s =? 0)
   then emit (EPclose (src s));; modify (set_src 0)
   else ret tt);;
  modify (set_reopen 0).

(** [while ( cnt ) close(fd[--cnt]);] -- [n] bounds the number of rounds;
    [die] passes the count itself. *)
Fixpoint close_clients (n : nat) : M unit :=
  s <- get;;
  if cnt s =? 0 then ret tt
  else
    match n with
    | O => fun s => Hang s
    | S n' =>
        modify (fun s => set_cnt (cnt s - 1) s);;
        s <- get;;
        sys_close (arr_get (fd s) (cnt s));;
        close_clients n'
    end.

Definition run_handler (h : handler) : M unit :=
  match h with
  | H_rm_pidfile => rm_pidfile
  | H_rm_sockfile => rm_sockfile
  end.

Fixpoint run_handlers (hs : list handler) : M unit :=
  match hs with
  | [] => ret tt
  | h :: hs' => run_handler h;; run_handlers hs'
  end.

(** [exit(e)]: the registered functions run, last registered first. *)
Definition exit {A : Type} (e : Z) : M A :=
  fun s =>
    match run_handlers (atexit_fns s) s with
    | Ret _ s' => Exit e s'
    | Exit e' s' => Exit e' s'
    | Abort s' => Abort s'
    | Exec argv s' => Exec argv s'
    | Hang s' => Hang s'
    end.

Definition atexit (h : handler) : M unit :=
  modify (fun s => set_atexit_fns (h :: atexit_fns s) s).

Definition die {A : Type} (message : option string) (e : Z) : M A :=
  rm_sockfile;;
  rm_pidfile;;
  close_src;;
  s <- get;;
  close_clients (Z.to_nat (cnt s));;
  exit e.

Definition sig_die (signal : Z) : M unit :=
  die (Some "signal, die") signal.

(** ** Blocking and non-blocking descriptors *)

Definition mk_blocking (d : Z) : M unit :=
  r <- call SFcntl;;
  s <- get;;
  let flags := match r with ROk _ => fl s d | RErr _ => -1 end in
  if flags =? -1 then die (Some "get flags") (errno s)
  else
    r <- call SFcntl;;
    s <- get;;
    if status_of r =? -1 then die (Some "set flags") (errno s)
    else modify (set_fl (<[d := Z.land flags (Z.lnot O_NONBLOCK)]> (fl s))).

Definition mk_nonblocking (d : Z) : M unit :=
  r <- call SFcntl;;
  s <- get;;
  let flags := match r with ROk _ => fl s d | RErr _ => -1 end in
  if flags =? -1 then die (Some "get flags") (errno s)
  else
    r <- call SFcntl;;
    s <- get;;
    if status_of r =? -1 then die (Some "set flags") (errno s)
    else modify (set_fl (<[d := Z.lor flags O_NONBLOCK]> (fl s))).

Definition is_blocking (s : State) (d : Z) : Prop :=
  Z.land (fl s d) O_NONBLOCK = 0.

(** ** The PID file *)

Definition wrt_pidfile : M unit :=
  r <- call SFopen;;
  s <- get;;
  if ptr_of r =? 0 then die (Some "fopen PIDFILE") (errno s)
  else
    match PIDFILE s with Some p => create_file p | None => ret tt end;;
    atexit H_rm_pidfile.

Definition rd_pidfile : M Z :=
  r <- call SFopen;;
  s <- get;;
  if ptr_of r =? 0 then die (Some "fopen PIDFILE") (errno s)
  else
    r <- call SFscanf;;
    match r with
    | RErr _ => die (Some "error reading pidfile") EINVAL
    | ROk p =>
        if p <=? 0 then die (Some "invalid pid (pid <= 0)") EINVAL
        else
          r <- call SKill;;
          emit (EKill p 0);;
          if negb (status_of r =? 0)
          then die (Some "invalid pid (kill(pid,0))") EINVAL
          else ret p
    end.

(** ** Socket utilities *)

(** [strncpy(addr.sun_path, SOCKFILE, sizeof(addr.sun_path) - 1)] *)
Definition mk_sockaddr (s : State) : string :=
  match SOCKFILE s with
  | Some n => String.substring 0 (SUN_PATH_SIZE - 1) n
  | None => ""
  end.

(** ** The server checks for new clients *)

(** The first time through: create, bind and listen. *)
Definition listen_setup : M unit :=
  s <- get;;
  if src_fd s =? 0 then
    let addr := mk_sockaddr s in
    rm_sockfile;;
    atexit H_rm_sockfile;;
    r <- call SSocket;;
    modify (set_src_fd (int_of r));;
    s <- get;;
    if src_fd s <? 0 then die (Some "socket") (errno s)
    else
      emit (ESocket (src_fd s));;
      r <- call SBind;;
      s <- get;;
      if negb (status_of r =? 0) then die (Some "bind") (errno s)
      else
        emit (EBind (src_fd s) addr);;
        create_file addr;;
        r <- call SListen;;
        s <- get;;
        if negb (status_of r =? 0) then die (Some "listen") (errno s)
        else emit (EListen (src_fd s))
  else ret tt.

(** [fd[cnt++] = client_fd] *)
Definition append_client (client_fd : Z) (s : State) : State :=
  set_cnt (cnt s + 1) (set_fd (arr_set (fd s) (cnt s) client_fd) s).

(** A connection that was accepted joins the registry, or is closed when
    the registry is full. *)
Definition register_client (client_fd : Z) : M unit :=
  s <- get;;
  if MAXCLIENT =? cnt s then sys_close client_fd
  else modify (append_client client_fd).

(** The part after the label [accept_client]; every [goto accept_client]
    follows one more [accept], so the pending results of [accept] bound the
    number of rounds. *)
Fixpoint accept_client (n : nat) : M unit :=
  match n with
  | O => fun s => Hang s
  | S n' =>
      r <- call SAccept;;
      let client_fd := int_of r in
      s <- get;;
      if (client_fd =? -1) && (errno s =? EWOULDBLOCK) then ret tt
      else if (client_fd =? -1) && (errno s =? EINTR) then accept_client n'
      else if client_fd =? -1 then die (Some "accept") (errno s)
      else
        mk_nonblocking (src_fd s);;
        mk_blocking client_fd;;
        register_client client_fd;;
        accept_client n'
  end.

(** Every time through: the socket blocks when there is no client. *)
Definition accept_clients : M unit :=
  s <- get;;
  (if cnt s =? 0 then mk_blocking (src_fd s) else ret tt);;
  s <- get;;
  accept_client (length (oracle s SAccept)).

Definition check_for_new_clients : M unit :=
  listen_setup;;
  accept_clients.

(** ** The source *)

(** The handler of [SIGHUP]. *)
Definition reopen_src (sig : Z) (s : State) : State :=
  if negb (src s =? 0) then set_reopen 1 s else s.

(** The command line handed to [popen]: the arguments joined by blanks. *)
Fixpoint join_argv (i : nat) (cp : string) (argv : list string) : string :=
  match argv with
  | [] => cp
  | a :: argv' =>
      join_argv (S i)
        ((if Nat.eqb i 0 then "" else cp) +:+
         (if Nat.eqb i 0 then "" else " ") +:+ a)
        argv'
  end.

Definition open_src (argv : list string) : M unit :=
  s <- get;;
  (if negb (reopen s =? 0) || (cnt s =? 0) then close_src else ret tt);;
  s <- get;;
  if negb (src s =? 0) || (cnt s =? 0) then ret tt
  else
    let cp := join_argv 0 "" argv in
    r <- call SPopen;;
    modify (set_src (ptr_of r));;
    s <- get;;
    if src s =? 0 then die (head argv) EBADF
    else emit (EPopen cp (environ s)).

(** ** Reading one buffer from the source *)

(** [do err = fread(buffer, bufsz, 1, src);
     while ( err < 1 && ( errno == EINTR || errno == EAGAIN ) );] *)
Fixpoint fread_retry (n : nat) : M unit :=
  match n with
  | O => fun s => Hang s
  | S n' =>
      r <- call SFread;;
      modify (set_err (count_of r));;
      s <- get;;
      if (err s <? 1) && ((errno s =? EINTR) || (errno s =? EAGAIN))
      then fread_retry n'
      else ret tt
  end.

(** The choice of the buffer size in [read_buf]: [bufsz] is an [int],
    [sysconf] and [st_blksize] give [long]s, and the comparison of the two
    is one of [long]s. *)
Definition alloc_buffer : M unit :=
  r <- call SSysconf;;
  modify (set_bufsz (to_int (int_of r)));;
  s <- get;;
  if bufsz s =? -1 then die (Some "sysconf") (errno s)
  else
    r <- call SFstat;;
    s <- get;;
    match r with
    | RErr _ => die (Some "stat") (errno s)
    | ROk st_blksize =>
        (if st_blksize >? bufsz s then modify (set_bufsz (to_int st_blksize))
         else ret tt);;
        s <- get;;
        if bufsz s <=? 0 then die (Some "bufsz") EINVAL
        else
          r <- call SMalloc;;
          modify (set_buffer (ptr_of r));;
          s <- get;;
          if buffer s =? 0 then die (Some "malloc") (errno s) else ret tt
    end.

Definition read_buf : M bool :=
  s <- get;;
  if src s =? 0 then (fun s => Abort s)
  else
    (if buffer s =? 0 then alloc_buffer else ret tt);;
    s <- get;;
    fread_retry (length (oracle s SFread));;
    s <- get;;
    if negb (err s =? 1) then die (Some "fread") (errno s)
    else ret (err s =? 1).

(** ** Writing the buffer to every client *)

(** [for (off = 0; nr != 0; nr -= nw, off += nw) ...]: the value of [nr]
    when the loop is left, [0] after a complete write. *)
Fixpoint write_all (n : nat) (d off nr : Z) : M Z :=
  if nr =? 0 then ret nr
  else
    match n with
    | O => fun s => Hang s
    | S n' =>
        r <- call SWrite;;
        emit (EWrite d off nr);;
        s <- get;;
        let nw := int_of r in
        if nw <? 0 then
          let nw := 0 in
          if negb (errno s =? EINTR) then ret nr
          else write_all n' d (off + nw) (nr - nw)
        else write_all n' d (off + nw) (nr - nw)
    end.

(** [for ( j=i+1; j<cnt; j+=1 ) fd[j-1] = fd[j];] with [n] rounds left. *)
Fixpoint shift_down (n : nat) (j : Z) (a : list Z) : list Z :=
  match n with
  | O => a
  | S n' => shift_down n' (j + 1) (arr_set a (j - 1) (arr_get a j))
  end.

(** The unsuccessful write: close this client. *)
Definition drop_client (i : Z) : M unit :=
  s <- get;;
  sys_close (arr_get (fd s) i);;
  modify (fun s =>
    set_fd (shift_down (Z.to_nat (cnt s - (i + 1))) (i + 1) (fd s)) s);;
  modify (fun s => set_cnt (cnt s - 1) s);;
  modify (fun s => set_fd (arr_set (fd s) (cnt s) 0) s).

(** [while ( i < cnt )]: every round moves [i] up or [cnt] down, so [n]
    rounds are enough when [n] is [cnt - i]. *)
Fixpoint write_clients (n : nat) (i : Z) : M unit :=
  s <- get;;
  if negb (i <? cnt s) then ret tt
  else
    match n with
    | O => fun s => Hang s
    | S n' =>
        nr <- write_all (length (oracle s SWrite)) (arr_get (fd s) i) 0
                (bufsz s);;
        if nr =? 0 then write_clients n' (i + 1)
        else drop_client i;; write_clients n' i
    end.

Definition write_buf : M unit :=
  s <- get;;
  write_clients (Z.to_nat (cnt s)) 0.

(** ** Restarting the source of a running server *)

Definition reopen_server : M unit :=
  p <- rd_pidfile;;
  r <- call SKill;;
  emit (EKill p SIGHUP);;
  if negb (status_of r =? 0)
  then die (Some "cannot signal server process") EIO
  else ret tt.

(** ** Client mode *)

Definition default_client_argv : list string := ["cat"].

Definition client (argv : list string) : M unit :=
  s <- get;;
  let addr := mk_sockaddr s in
  let argv := if (Z.of_nat (length argv) =? 0) then default_client_argv
              else argv in
  r <- call SSocket;;
  let d := int_of r in
  s <- get;;
  if d <? 0 then die (Some "socket") (errno s)
  else
    r <- call SConnect;;
    s <- get;;
    if negb (status_of r =? 0) then die (Some "connect") (errno s)
    else
      emit (EConnect d addr);;
      sys_close STDIN_FILENO;;
      r <- call SDup2;;
      if int_of r =? -1 then die (Some "dup2") EIO
      else
        sys_close d;;
        r <- call SExecvp;;
        s <- get;;
        match r with
        | ROk _ => fun s => Exec argv s
        | RErr _ => die (Some "execvp") (errno s)
        end.

(** ** main *)

(** What the option loop of [main] leaves behind: the flags, the name
    given with [-n], the remaining arguments, and whether an option was
    rejected ([usage]).  [cksum] is the first word the pipeline
    [realpath . | cksum /dev/stdin] prints, read when no name is given. *)
Record Invocation : Type := mkInvocation {
  opt_client : bool;
  opt_dryrun : bool;
  opt_restart : bool;
  opt_name : option string;
  bad_option : bool;
  args : list string;
  cksum : string
}.

Definition usage : M unit := die None EINVAL.

Definition fmt_d (z : Z) : string := NilZero.string_of_int (Z.to_int z).

Definition pidfile_name (base : string) : string :=
  TMPDIR +:+ "/delivery." +:+ base +:+ ".pid".
Definition sockfile_name (base : string) : string :=
  TMPDIR +:+ "/delivery." +:+ base +:+ ".sock".
Definition lockfile_name (base : string) : string :=
  TMPDIR +:+ "/delivery." +:+ base +:+ ".lock".

Definition env_has (name : string) (env : list (string * string)) : bool :=
  existsb (fun kv => String.eqb (fst kv) name) env.

Definition getenv (name : string) (env : list (string * string))
  : option string :=
  snd <$> List.find (fun kv => String.eqb (fst kv) name) env.

Definition setenv (name value : string) (overwrite : Z) : M unit :=
  modify (fun s =>
    if env_has name (environ s) then
      if overwrite =? 0 then s
      else set_environ
             (map (fun kv => if String.eqb (fst kv) name then (name, value)
                             else kv) (environ s)) s
    else set_environ (environ s ++ [(name, value)]) s).

Definition checksum_command : string := "realpath . | cksum /dev/stdin".

(** The name of the instance: [-n], or the checksum of the directory. *)
Definition instance_name (inv : Invocation) : M string :=
  match opt_name inv with
  | Some n => ret n
  | None =>
      r <- call SPopen;;
      s <- get;;
      if ptr_of r =? 0 then die (Some "popen/tmpbasename") (errno s)
      else
        emit (EPopen checksum_command (environ s));;
        r' <- call SFscanf;;
        match r' with
        | RErr _ => die (Some "popen/fscanf") 1
        | ROk _ => emit (EPclose (ptr_of r));; ret (cksum inv)
        end
  end.

(** The lock file: at most one server process. *)
Definition take_lock (LOCKFILE : string) : M unit :=
  r <- call SOpen;;
  if int_of r =? -1 then exit 1
  else
    create_file LOCKFILE;;
    s <- get;;
    if decide (LOCKFILE ∈ locked s)
    then modify (set_errno EWOULDBLOCK);; exit 1
    else ret tt.

(** One round of the main server loop. *)
Definition server_round (argv : list string) : M unit :=
  check_for_new_clients;;
  open_src argv;;
  b <- read_buf;;
  if b : bool then write_buf else ret tt.

(** [do ... while ( cnt );] -- a round that returns has read one buffer, so
    the pending results of [fread] bound the number of rounds. *)
Fixpoint server_loop (n : nat) (argv : list string) : M unit :=
  match n with
  | O => fun s => Hang s
  | S n' =>
      server_round argv;;
      s <- get;;
      if negb (cnt s =? 0) then server_loop n' argv else ret tt
  end.

(** The server process proper, once the lock is taken: the marker in the
    environment, the PID file, the loop. *)
Definition serve (argv : list string) : M Z :=
  s <- get;;
  setenv DELIVERYPID (fmt_d (pid s)) 0;;
  wrt_pidfile;;
  s <- get;;
  server_loop (S (length (oracle s SFread))) argv;;
  die (Some "") 0.

Definition main (inv : Invocation) : M Z :=
  (if bad_option inv then usage else ret tt);;
  tmpbasename <- instance_name inv;;
  modify (set_PIDFILE (Some (pidfile_name tmpbasename)));;
  modify (set_SOCKFILE (Some (sockfile_name tmpbasename)));;
  if opt_dryrun inv then exit 0
  else
    (if opt_restart inv then reopen_server else ret tt);;
    (if opt_client inv then client (args inv) else ret tt);;
    (if opt_restart inv then die None 0 else ret tt);;
    if Z.of_nat (length (args inv)) =? 0 then die (Some "no arguments") 1
    else
      take_lock (lockfile_name tmpbasename);;
      serve (args inv).

(** ** What goes on around the source manager *)

(** Between two calls of [open_src] the acceptor registers connections, the
    broadcaster drops clients, and restart requests arrive. *)
Inductive change : Type :=
| Connect (client_fd : Z)
| Disconnect (i : Z)
| Restart (sig : Z).

Definition apply_change (c : change) : M unit :=
  match c with
  | Connect client_fd => register_client client_fd
  | Disconnect i =>
      s <- get;;
      if (0 <=? i) && (i <? cnt s) then drop_client i else ret tt
  | Restart sig => modify (reopen_src sig)
  end.

Fixpoint apply_changes (cs : list change) : M unit :=
  match cs with
  | [] => ret tt
  | c :: cs' => apply_change c;; apply_changes cs'
  end.

(** Rounds of changes, each followed by one step of the source manager. *)
Fixpoint manage (argv : list string) (rounds : list (list change))
  : M unit :=
  match rounds with
  | [] => ret tt
  | cs :: rounds' =>
      apply_changes cs;; open_src argv;; manage argv rounds'
  end.

(** The spawns an observer of the registry and of the restart requests
    expects, in the words of the specification: one for every step that
    finds the registry non-empty after the previous step left it empty, and
    one for every step that consumes a restart request with a client
    connected.  A request counts when it arrives while the source is open,
    that is, when the previous step left the registry non-empty. *)
Definition size_after (n : Z) (c : change) : Z :=
  match c with
  | Connect _ => if MAXCLIENT =? n then n else n + 1
  | Disconnect i => if (0 <=? i) && (i <? n) then n - 1 else n
  | Restart _ => n
  end.

Definition pending_after (is_open pending : bool) (c : change) : bool :=
  match c with
  | Restart _ => pending || is_open
  | _ => pending
  end.

Fixpoint expected_spawns (size : Z) (pending : bool)
    (rounds : list (list change)) : nat :=
  match rounds with
  | [] => 0%nat
  | cs :: rounds' =>
      let size' := foldl size_after size cs in
      let pending' := foldl (pending_after (negb (size =? 0))) pending cs in
      let zero_to_some := (size =? 0) && negb (size' =? 0) in
      let restart := pending' && negb (size' =? 0) in
      (Nat.b2n zero_to_some + Nat.b2n restart
       + expected_spawns size' false rounds')%nat
  end.

(** The spawns that took place. *)
Fixpoint spawns (tr : list event) : nat :=
  match tr with
  | [] => 0%nat
  | EPopen _ _ :: tr' => S (spawns tr')
  | _ :: tr' => spawns tr'
  end.

(** No [popen] while a source is open: [is_open] tells whether one is open
    before the calls [tr]. *)
Fixpoint single_producer (is_open : bool) (tr : list event) : bool :=
  match tr with
  | [] => true
  | EPopen _ _ :: tr' => negb is_open && single_producer true tr'
  | EPclose _ :: tr' => single_producer false tr'
  | _ :: tr' => single_producer is_open tr'
  end.

(** ** The state a process starts in *)

(** Static data is initially zeroed; the rest is what the process is given:
    its identifier, its environment, the results its calls will get, and the
    file system with the locks other processes hold. *)
Definition no_results : sys -> list resp := fun _ => [].

Definition initial_state (p : Z) (env : list (string * string))
    (o : sys -> list resp) (files held : list string) : State :=
  {| src := 0; src_fd := 0; fd := replicate (Z.to_nat MAXCLIENT) 0; cnt := 0;
     reopen := 0; buffer := 0; bufsz := 0; err := 0;
     PIDFILE := None; SOCKFILE := None;
     errno := 0; atexit_fns := []; environ := env; pid := p;
     oracle := o; fl := fun _ => 0; fs := files; locked := held;
     trace := [] |}.

(** * The vocabulary of the properties *)

(** The state an outcome ends in. *)
Definition final {A : Type} (o : outcome A) : State :=
  match o with
  | Ret _ s | Exit _ s | Abort s | Exec _ s | Hang s => s
  end.

(** [keeps R m]: however [m] ends, the state it ends in is related by [R] to
    the state it started in.  With a reflexive and transitive [R] this is
    closed under sequencing, which gives frame properties and invariants of
    whole functions from those of the calls they make. *)
Definition keeps {A : Type} (R : State -> State -> Prop) (m : M A) : Prop :=
  forall s, R s (final (m s)).

(** [returns R m]: whenever [m] returns, the state it returns in is related
    by [R] to the state it was called in. *)
Definition returns {A : Type} (R : State -> State -> Prop) (m : M A)
  : Prop :=
  forall s a s', m s = Ret a s' -> R s s'.

(** The listening socket and the modes of the descriptors are what they
    were. *)
Definition mode_kept (s s' : State) : Prop :=
  fl s' = fl s /\ src_fd s' = src_fd s.

(** The registry and the buffer are what they were. *)
Definition same_registry (s s' : State) : Prop :=
  fd s' = fd s /\ cnt s' = cnt s /\ bufsz s' = bufsz s /\ buffer s' = buffer s.

(** The descriptors closed by the calls [tr], in order. *)
Fixpoint closed (tr : list event) : list Z :=
  match tr with
  | [] => []
  | EClose d :: tr' => d :: closed tr'
  | _ :: tr' => closed tr'
  end.

(** Only writes were made: the registry and the buffer are what they were
    and nothing was closed. *)
Definition only_sent (s s' : State) : Prop :=
  same_registry s s' /\
  exists evs, trace s' = (trace s ++ evs)%list /\ closed evs = [].

(** The call a registered function makes when [exit] runs it (the socket
    is closed by then). *)
Definition handler_event (s : State) (h : handler) : event :=
  match h with
  | H_rm_pidfile => EUnlink (PIDFILE s)
  | H_rm_sockfile => EUnlink (SOCKFILE s)
  end.

(** The calls [die] makes, in order: the listening socket is closed and its
    name unlinked, the PID file is unlinked, the source is closed, the
    clients are closed from the last to the first, and [exit] runs the
    registered functions. *)
Definition die_events (s : State) : list event :=
  ((if src_fd s =? 0 then [] else [EClose (src_fd s)]) ++
   [EUnlink (SOCKFILE s); EUnlink (PIDFILE s)] ++
   (if src s =? 0 then [] else [EPclose (src s)]) ++
   map EClose (reverse (registry s)) ++
   map (handler_event s) (atexit_fns s))%list.

(** Whether a source is open after the calls [tr]. *)
Fixpoint open_after (is_open : bool) (tr : list event) : bool :=
  match tr with
  | [] => is_open
  | EPopen _ _ :: tr' => open_after true tr'
  | EPclose _ :: tr' => open_after false tr'
  | _ :: tr' => open_after is_open tr'
  end.

(** The changes around the source manager close descriptors and do nothing
    else to the world. *)
Definition only_closes (evs : list event) : Prop :=
  Forall (fun e => exists d, e = EClose d) evs.

(** [popen] returned a stream. *)
Definition popen_succeeds (r : resp) : Prop :=
  exists h, r = ROk h /\ h <> 0.

(** The invariant of the accept loop.  [L] is the listening socket, [c0]
    the client count and [old] the registry when the acceptor was entered:
    the socket blocks exactly when there is no client, the old registry is
    still in place, and every client appended since blocks. *)
Definition acceptor_inv (L c0 : Z) (old : list Z) (t : State) : Prop :=
  (is_blocking t L <-> cnt t = 0) /\
  src_fd t = L /\
  0 <= c0 /\ c0 <= cnt t <= MAXCLIENT /\
  Z.of_nat (length (fd t)) = MAXCLIENT /\
  take (Z.to_nat c0) (fd t) = old /\
  (forall i, c0 <= i < cnt t ->
     is_blocking t (arr_get (fd t) i) /\ arr_get (fd t) i <> L).

(** [env_kept P s s']: from [s] to [s'] the environment and the process
    identifier stay what they are, and every call made in between
    satisfies [P] for the environment of [s]. *)
Definition env_kept (P : list (string * string) -> event -> Prop)
    (s s' : State) : Prop :=
  environ s' = environ s /\ pid s' = pid s /\
  exists evs, trace s' = (trace s ++ evs)%list /\
              Forall (P (environ s)) evs.

(** The two uses: no command is spawned at all; the commands spawned are
    given the environment of [s]. *)
Definition never_spawns (env0 : list (string * string)) (e : event) : Prop :=
  forall cmd env, e <> EPopen cmd env.

Definition spawned_with (env0 : list (string * string)) (e : event) : Prop :=
  forall cmd env, e = EPopen cmd env -> env = env0.

(** The environment after [setenv(DELIVERYPID, <pid>, 0)]. *)
Definition marked (s : State) : list (string * string) :=
  if env_has DELIVERYPID (environ s) then environ s
  else (environ s ++ [(DELIVERYPID, fmt_d (pid s))])%list.

(** [served s s']: [s'] is reached from [s] without a spawn, or by taking
    up service: no spawn, then the marker is set, then every spawn is given
    the marked environment. *)
Definition served (s s' : State) : Prop :=
  env_kept never_spawns s s' \/
  exists s2 s3,
    env_kept never_spawns s s2 /\
    environ s3 = marked s2 /\ pid s3 = pid s2 /\ trace s3 = trace s2 /\
    env_kept spawned_with s3 s'.

(** The registry is within the array: [cnt] counts slots of [fd], which
    has [MAXCLIENT] of them. *)
Definition in_bounds (s : State) : Prop :=
  0 <= cnt s <= MAXCLIENT /\ Z.of_nat (length (fd s)) = MAXCLIENT.

Definition bounded (s s' : State) : Prop := in_bounds s -> in_bounds s'.

(** The call returned without an error. *)
Definition call_succeeds (r : resp) : Prop := exists v, r = ROk v.

(** The descriptors among the results of [accept]. *)
Definition accepted (pending : list resp) : list Z :=
  omap (fun r => match r with ROk d => Some d | RErr _ => None end) pending.

(** A result of [accept] that keeps the acceptor going: a connection, or
    an interruption by a signal ([EINTR]). *)
Definition connection_or_signal (r : resp) : Prop :=
  r = RErr 4%positive \/ exists d, r = ROk d /\ d <> -1.

(** A [bind] or a [connect] is made at the address [A]. *)
Definition at_address (A : string) (e : event) : Prop :=
  forall d a, e = EBind d a \/ e = EConnect d a -> a = A.

(** From a state whose socket address is [A]: the address stays, and the
    calls made use it. *)
Definition addressed (A : string) (s s' : State) : Prop :=
  mk_sockaddr s = A ->
  mk_sockaddr s' = A /\
  exists evs, trace s' = (trace s ++ evs)%list /\ Forall (at_address A) evs.

(** A [write] goes to one of the clients [ds] and asks for the part of a
    buffer of [size] bytes that has not been written yet. *)
Definition unsent_tail (ds : list Z) (size : Z) (e : event) : Prop :=
  forall d off nr, e = EWrite d off nr ->
    d ∈ ds /\ 0 <= off /\ off + nr = size /\ nr <> 0.



(** ** States and invocations to try the properties on *)

(** A server with the clients 5, 6 and 7 and a four-byte buffer, with the
    given results pending for [write]. *)
Definition three_clients (ws : list resp) : State :=
  set_bufsz 4
    (append_client 7 (append_client 6 (append_client 5
       (initial_state 77 []
          (fun k => match k with SWrite => ws | _ => [] end) [] [])))).

(** A process that has just started, with four successful [popen] pending. *)
Definition fresh_server : State :=
  initial_state 77 []
    (fun k => match k with
              | SPopen => [ROk 200; ROk 201; ROk 202; ROk 203]
              | _ => []
              end) [] [].

(** A server in the middle of its work: the listening socket 4, the client
    5, the source open, the buffer allocated. *)
Definition busy_server (o : sys -> list resp) : State :=
  set_src 200 (set_buffer 300 (set_bufsz 4096 (set_src_fd 4
    (append_client 5 (initial_state 77 [] o [] []))))).

(** No connection is pending, and the source is at its end. *)
Definition at_end_of_stream : sys -> list resp :=
  fun k => match k with
           | SAccept => [RErr 11%positive]
           | SFread => [ROk 0; ROk 0; ROk 0]
           | _ => []
           end.

(** No connection is pending, one buffer is read, and the write to the
    client fails with [EPIPE]. *)
Definition last_client_leaves : sys -> list resp :=
  fun k => match k with
           | SAccept => [RErr 11%positive]
           | SFread => [ROk 1]
           | SWrite => [RErr 32%positive]
           | _ => []
           end.

(** The busy server, with one successful [popen] pending. *)
Definition restart_pending : State :=
  busy_server (fun k => match k with SPopen => [ROk 201] | _ => [] end).

(** An idle server -- listening socket 4, no client -- to which two
    clients connect. *)
Definition idle_server : State :=
  set_src_fd 4
    (initial_state 77 []
       (fun k => match k with
                 | SAccept => [ROk 5; ROk 6; RErr 11%positive]
                 | SFcntl => repeat (ROk 0) 10
                 | _ => []
                 end) [] []).

(** The same server after its acceptor has taken the two clients in, when
    a third one connects. *)
Definition serving_server : State :=
  set_oracle
    (fun k => match k with
              | SAccept => [ROk 7; RErr 11%positive]
              | SFcntl => repeat (ROk 0) 4
              | _ => []
              end)
    (final (accept_clients idle_server)).

(** The files of a running instance [x], whose server holds the lock. *)
Definition running_x : list string :=
  ["/tmp/delivery.x.lock"; "/tmp/delivery.x.pid"; "/tmp/delivery.x.sock"].



(** A server that goes all the way: the lock, the PID file, the socket,
    two clients, the producer, one buffer. *)
Definition full_run : sys -> list resp :=
  fun k => match k with
           | SOpen => [ROk 3]
           | SFopen => [ROk 100]
           | SSocket => [ROk 4]
           | SBind => [ROk 0]
           | SListen => [ROk 0]
           | SFcntl => repeat (ROk 0) 10
           | SAccept => [ROk 5; ROk 6; RErr 11%positive]
           | SPopen => [ROk 200]
           | SSysconf => [ROk 4]
           | SFstat => [ROk 2]
           | SMalloc => [ROk 300]
           | SFread => [ROk 1]
           | SWrite => [ROk 4; ROk 4]
           | _ => []
           end.

(** [delivery -n x prod -q] *)
Definition first_server : Invocation :=
  {| opt_client := false; opt_dryrun := false; opt_restart := false;
     opt_name := Some "x"; bad_option := false; args := ["prod"; "-q"];
     cksum := "" |}.

(** C9 as it is written: whenever the producer is spawned, the marker in
    its environment is the identifier of this server. *)
Definition marker_is_own_pid : Prop :=
  forall (inv : Invocation) (s s1 : State) (name cmd : string)
         (env : list (string * string)),
    bad_option inv = false ->
    instance_name inv s = Ret name s1 ->
    EPopen cmd env ∈ drop (length (trace s1)) (trace (final (main inv s))) ->
    getenv DELIVERYPID env = Some (fmt_d (pid s)).



(** The names of the instance [x] in place, as [main] sets them. *)
Definition named_x (s : State) : State :=
  set_SOCKFILE (Some "/tmp/delivery.x.sock")
    (set_PIDFILE (Some "/tmp/delivery.x.pid") s).

(** The busy server after its source has gone, when [popen] fails with
    [ENOMEM]. *)
Definition popen_refused : State :=
  set_src 0
    (busy_server
       (fun k => match k with SPopen => [RErr 12%positive] | _ => [] end)).

(** The listening socket 4 of the idle server, open for reading and
    writing: non-blocking, and blocking. *)
Definition nonblocking_socket : State :=
  set_fl (<[4 := 2050]> (fl idle_server)) idle_server.

Definition blocking_socket : State :=
  set_fl (<[4 := 2]> (fl idle_server)) idle_server.


Definition restart_process (kills : list resp) : State :=
  initial_state 80 []
    (fun k => match k with
              | SFopen => [ROk 100]
              | SFscanf => [ROk 4242]
              | SKill => kills
              | _ => []
              end) running_x ["/tmp/delivery.x.lock"].

(** A source with pages of 4096 bytes and blocks of 65536. *)
Definition pipe_source : State :=
  initial_state 77 []
    (fun k => match k with
              | SSysconf => [ROk 4096]
              | SFstat => [ROk 65536]
              | SMalloc => [ROk 300]
              | _ => []
              end) [] [].

(** An idle server on which two connections are pending, with a signal
    arriving between them. *)
Definition arrivals : State :=
  set_src_fd 4
    (initial_state 77 []
       (fun k => match k with
                 | SAccept => [ROk 5; RErr 4%positive; ROk 6;
                               RErr 11%positive]
                 | SFcntl => repeat (ROk 0) 14
                 | _ => []
                 end) [] []).

(** A client of [x] for which every call succeeds. *)
Definition connecting_client : State :=
  named_x
    (initial_state 79 []
       (fun k => match k with
                 | SSocket => [ROk 3]
                 | SConnect => [ROk 0]
                 | SDup2 => [ROk 0]
                 | SExecvp => [ROk 0]
                 | _ => []
                 end) running_x ["/tmp/delivery.x.lock"]).

(** [delivery -n x -d -r -c], and [delivery -n x -q prod] where [-q] is no
    option of the program. *)
Definition dry_run_x : Invocation :=
  {| opt_client := true; opt_dryrun := true; opt_restart := true;
     opt_name := Some "x"; bad_option := false; args := []; cksum := "" |}.

Definition unknown_option : Invocation :=
  {| opt_client := false; opt_dryrun := false; opt_restart := false;
     opt_name := Some "x"; bad_option := true; args := ["prod"];
     cksum := "" |}.

(** A server of [x] about to set up its socket, with the socket file of an
    earlier server still there. *)
Definition before_setup : State :=
  set_SOCKFILE (Some "/tmp/delivery.x.sock")
    (initial_state 77 [] full_run ["/tmp/delivery.x.sock"] []).


(** A source whose block size does not fit an [int]: [2^32 + 5]. *)
Definition wide_blocks : State :=
  initial_state 77 []
    (fun k => match k with
              | SSysconf => [ROk 4096]
              | SFstat => [ROk 4294967301]
              | SMalloc => [ROk 300]
              | _ => []
              end) [] [].


(** * Properties *)

(** ** What every outcome leaves behind *)

Section Keeps.
  Variable R : State -> State -> Prop.
  Hypothesis R_refl : forall s, R s s.
  Hypothesis R_trans : forall s1 s2 s3, R s1 s2 -> R s2 s3 -> R s1 s3.

Lemma keeps_ret {A : Type} (a : A) : keeps R (ret a).
Proof. intros s. apply R_refl. Qed.

Lemma keeps_get : keeps R get.
Proof. intros s. apply R_refl. Qed.

Lemma keeps_stop {A : Type} (f : State -> outcome A) :
  (forall s, final (f s) = s) -> keeps R f.
Proof. intros H s. rewrite H. apply R_refl. Qed.

Lemma keeps_bind {A B : Type} (m : M A) (k : A -> M B) :
  keeps R m -> (forall a, keeps R (k a)) -> keeps R (bind m k).
Proof.
  intros Hm Hk s. unfold bind. specialize (Hm s).
  destruct (m s) as [a s'| | | |]; simpl in *; auto.
  eapply R_trans; [exact Hm | apply Hk].
Qed.

Lemma keeps_modify (f : State -> State) :
  (forall s, R s (f s)) -> keeps R (modify f).
Proof. intros H s. apply H. Qed.

Lemma keeps_call (k : sys) :
  (forall s rs, R s (set_oracle (<[k := rs]> (oracle s)) s)) ->
  (forall s e, R s (set_errno e s)) ->
  keeps R (call k).
Proof.
  intros Ho He s. unfold call, answered.
  destruct (oracle s k) as [|[v|e] rs]; simpl; auto.
  eapply R_trans; [apply Ho | apply He].
Qed.

Lemma keeps_exit {A : Type} (e : Z) :
  (forall hs, keeps R (run_handlers hs)) -> keeps R (@exit A e).
Proof.
  intros H s. unfold exit. specialize (H (atexit_fns s) s).
  destruct (run_handlers (atexit_fns s) s); simpl in *; auto.
Qed.
End Keeps.

(** Unfolds one layer of a program and splits it along its sequencing and
    its tests; the calls and assignments are left as goals. *)
Ltac keeps_step Hrefl Htrans :=
  match goal with
  | |- keeps _ (bind _ _) => apply (keeps_bind _ Htrans)
  | |- keeps _ (ret _) => apply (keeps_ret _ Hrefl)
  | |- keeps _ get => apply (keeps_get _ Hrefl)
  | |- keeps _ (fun s => Hang s) => apply (keeps_stop _ Hrefl); reflexivity
  | |- keeps _ (fun s => Abort s) => apply (keeps_stop _ Hrefl); reflexivity
  | |- keeps _ (fun s => Exec _ s) => apply (keeps_stop _ Hrefl); reflexivity
  | |- keeps _ (if ?b then _ else _) => destruct b
  | |- keeps _ (match ?x with _ => _ end) => destruct x
  | |- forall _, _ => intro
  end.

(** Runs the plumbing of the monad, leaving calls and loops folded. *)
Ltac run :=
  cbv beta iota delta
    [bind get modify ret emit sys_close sys_unlink create_file atexit];
  simpl.

(** Uses the tests already decided in the context. *)
Ltac tests :=
  repeat match goal with
  | H : ?b = true |- context [?b] => rewrite H
  | H : ?b = false |- context [?b] => rewrite H
  end.

Ltac go := repeat (run; tests; simpl).

Lemma call_eq (k : sys) (r : resp) (rs : list resp) (s : State) :
  oracle s k = r :: rs -> call k s = Ret r (answered k r rs s).
Proof. intros H. unfold call. by rewrite H. Qed.

(** ** The registry as a list: dropping a client *)

Lemma shift_down_lookup (n j0 : nat) (a : list Z) (x : nat) :
  (j0 + n < length a)%nat ->
  shift_down n (Z.of_nat (S j0)) a !! x =
  if decide (j0 <= x < j0 + n)%nat then a !! S x else a !! x.
Proof.
  revert j0 a. induction n as [|n IH]; intros j0 a Hlen; simpl.
  - case_decide; [lia | done].
  - destruct (lookup_lt_is_Some_2 a (S j0)) as [v Hv]; [lia|].
    replace (Z.of_nat (S j0) + 1) with (Z.of_nat (S (S j0))) by lia.
    unfold arr_set, arr_get.
    replace (Z.to_nat (Z.of_nat (S j0) - 1)) with j0 by lia.
    rewrite Nat2Z.id, Hv. simpl.
    rewrite IH by (rewrite length_insert; lia).
    repeat case_decide; try lia.
    + rewrite list_lookup_insert_ne by lia. done.
    + assert (x = j0) as -> by lia.
      rewrite list_lookup_insert_eq by lia. done.
    + rewrite list_lookup_insert_ne by lia. done.
Qed.

Lemma shift_down_length (n : nat) (j : Z) (a : list Z) :
  length (shift_down n j a) = length a.
Proof.
  revert j a. induction n as [|n IH]; intros j a; simpl; [done|].
  rewrite IH. unfold arr_set. apply length_insert.
Qed.

Lemma drop_registry (a : list Z) (c k : nat) :
  (k < c)%nat -> (c <= length a)%nat ->
  take (c - 1)
    (arr_set (shift_down (Z.to_nat (Z.of_nat c - (Z.of_nat k + 1)))
                (Z.of_nat k + 1) a) (Z.of_nat c - 1) 0)
  = delete k (take c a).
Proof.
  intros Hk Hc. apply list_eq. intros x.
  unfold arr_set.
  replace (Z.to_nat (Z.of_nat c - 1)) with (c - 1)%nat by lia.
  replace (Z.of_nat k + 1) with (Z.of_nat (S k)) by lia.
  replace (Z.to_nat (Z.of_nat c - Z.of_nat (S k))) with (c - S k)%nat by lia.
  destruct (decide (x < c - 1)%nat) as [Hx|Hx].
  - rewrite lookup_take_lt by lia.
    rewrite list_lookup_insert_ne by lia.
    rewrite shift_down_lookup by lia.
    destruct (decide (x < k)%nat).
    + rewrite list_lookup_delete_lt by lia. rewrite lookup_take_lt by lia.
      case_decide; [lia|done].
    + rewrite list_lookup_delete_ge by lia. rewrite lookup_take_lt by lia.
      case_decide; [done|lia].
  - rewrite lookup_take_ge by lia.
    symmetry. apply lookup_ge_None.
    rewrite length_delete. 2:{ apply lookup_lt_is_Some_2. rewrite length_take. lia. }
    rewrite length_take. lia.
Qed.

Lemma same_registry_refl s : same_registry s s.
Proof. by unfold same_registry. Qed.

Lemma same_registry_trans s1 s2 s3 :
  same_registry s1 s2 -> same_registry s2 s3 -> same_registry s1 s3.
Proof. unfold same_registry. intros (?&?&?&?) (?&?&?&?). repeat split; congruence. Qed.

Ltac keeps_same :=
  repeat keeps_step same_registry_refl same_registry_trans.

Lemma write_all_same_registry n d off nr :
  keeps same_registry (write_all n d off nr).
Proof.
  revert off nr. induction n as [|n IH]; intros off nr; simpl.
  - keeps_same.
  - keeps_same; try apply IH.
    + apply keeps_call; [apply same_registry_refl | apply same_registry_trans | |];
        intros; by unfold same_registry.
    + apply keeps_modify. intros; by unfold same_registry.
Qed.

Lemma write_all_break n d off nr s nr' s' :
  write_all n d off nr s = Ret nr' s' -> nr' <> 0 -> errno s' <> EINTR.
Proof.
  revert off nr s. induction n as [|n IH]; intros off nr s; simpl.
  - destruct (nr =? 0) eqn:E; [|done]. intros [= <- <-] H. lia.
  - destruct (nr =? 0) eqn:E; [intros [= <- <-] H; lia|].
    unfold bind, call, answered.
    destruct (oracle s SWrite) as [|[v|e] rs]; [done| |]; simpl.
    + destruct (v <? 0); [|apply IH].
      simpl. destruct (errno s =? EINTR) eqn:E2; simpl; [apply IH|].
      intros [= <- <-] _. simpl. lia.
    + destruct (Z.pos e =? EINTR) eqn:E2; simpl; [apply IH|].
      intros [= <- <-] _. simpl. lia.
Qed.

(** C1.  The pass of [write_buf] has reached client [k] and the write to
    it is given up: the loop over the buffer is left with bytes unsent,
    which happens only after a write failed with an error other than
    [EINTR].  Then that client is closed and no other, the registry is the
    old one without its entry [k], in the old order, the count is one less,
    the buffer is untouched, and the pass goes on at index [k], where the
    next client now is. *)
Theorem write_failure_drops_client (n : nat) (k nr : Z) (s s1 : State) :
  0 <= k < cnt s ->
  cnt s <= Z.of_nat (length (fd s)) ->
  write_all (length (oracle s SWrite)) (arr_get (fd s) k) 0 (bufsz s) s
    = Ret nr s1 ->
  nr <> 0 ->
  errno s1 <> EINTR /\
  exists s2,
    drop_client k s1 = Ret tt s2 /\
    registry s2 = delete (Z.to_nat k) (registry s) /\
    cnt s2 = cnt s - 1 /\
    trace s2 = (trace s1 ++ [EClose (arr_get (fd s) k)])%list /\
    bufsz s2 = bufsz s /\ buffer s2 = buffer s /\
    write_clients (S n) k s = write_clients n k s2.
Proof.
  intros Hk Hlen Hw Hnr.
  split; [eapply write_all_break; eauto|].
  pose proof (write_all_same_registry (length (oracle s SWrite))
                (arr_get (fd s) k) 0 (bufsz s) s) as HR.
  rewrite Hw in HR. simpl in HR. destruct HR as (Hfd & Hcnt & Hsz & Hbuf).
  eexists. split; [reflexivity|].
  repeat split; simpl.
  - unfold registry. simpl. rewrite Hfd, Hcnt.
    replace (Z.to_nat (cnt s - 1)) with (Z.to_nat (cnt s) - 1)%nat by lia.
    rewrite <- (Z2Nat.id (cnt s)) at 2 3 by lia.
    rewrite <- (Z2Nat.id k) at 1 2 by lia.
    apply drop_registry; lia.
  - lia.
  - by rewrite Hfd.
  - done.
  - done.
  - simpl. unfold bind at 1. unfold get at 1.
    destruct (k <? cnt s) eqn:E; [|lia]. simpl.
    unfold bind at 1. rewrite Hw.
    destruct (nr =? 0) eqn:E2; [lia|].
    reflexivity.
Qed.

(** ** The fatal exit *)

Lemma elem_of_unlink_fs (p : option string) (l : list string) (x : string) :
  x ∈ unlink_fs p l <-> x ∈ l /\ Some x <> p.
Proof.
  destruct p as [n|]; simpl.
  - rewrite list_elem_of_filter. split; intros [? ?]; split; auto; congruence.
  - split; [intros ?; split; [done|congruence] | tauto].
Qed.

Lemma close_clients_spec (n : nat) (s : State) :
  cnt s = Z.of_nat n -> (n <= length (fd s))%nat ->
  exists s',
    close_clients n s = Ret tt s' /\
    cnt s' = 0 /\
    trace s' = (trace s ++ map EClose (reverse (take n (fd s))))%list /\
    fd s' = fd s /\ src s' = src s /\ src_fd s' = src_fd s /\
    reopen s' = reopen s /\
    PIDFILE s' = PIDFILE s /\ SOCKFILE s' = SOCKFILE s /\
    atexit_fns s' = atexit_fns s /\ fs s' = fs s.
Proof.
  revert s. induction n as [|n IH]; intros s Hc Hl.
  - exists s. simpl. run. rewrite Hc. simpl.
    rewrite app_nil_r. repeat split; auto.
  - simpl. run.
    destruct (cnt s =? 0) eqn:E; [lia|].
    match goal with |- exists _, close_clients n ?s1 = _ /\ _ =>
      destruct (IH s1) as (s' & Hrun & H0 & Htr & Hfd & Hrest)
    end; [simpl; lia | simpl; lia |].
    exists s'. split; [exact Hrun|]. split; [exact H0|].
    split; [|exact (conj Hfd Hrest)].
    rewrite Htr. simpl. rewrite <- app_assoc. f_equal.
    replace (cnt s - 1) with (Z.of_nat n) by lia.
    unfold arr_get. rewrite Nat2Z.id.
    destruct (lookup_lt_is_Some_2 (fd s) n) as [v Hv]; [lia|].
    rewrite Hv. simpl.
    rewrite (take_S_r _ _ _ Hv), reverse_snoc. done.
Qed.

Lemma run_handlers_spec (hs : list handler) (s : State) :
  src_fd s = 0 ->
  exists s',
    run_handlers hs s = Ret tt s' /\
    trace s' = (trace s ++ map (handler_event s) hs)%list /\
    (forall x, x ∈ fs s' <->
       x ∈ fs s /\ (H_rm_pidfile ∈ hs -> Some x <> PIDFILE s) /\
       (H_rm_sockfile ∈ hs -> Some x <> SOCKFILE s)) /\
    cnt s' = cnt s /\ fd s' = fd s /\ src s' = src s /\ src_fd s' = 0 /\
    reopen s' = reopen s.
Proof.
  revert s. induction hs as [|h hs IH]; intros s H0.
  - exists s. simpl. rewrite app_nil_r.
    repeat split; auto; try tauto; intros Hin; by apply elem_of_nil in Hin.
  - simpl. destruct h; unfold run_handler, rm_pidfile, rm_sockfile; run.
    + match goal with |- exists _, run_handlers hs ?s1 = _ /\ _ =>
        destruct (IH s1) as (s' & Hrun & Htr & Hfs & Hrest)
      end; [simpl; done|].
      exists s'. split; [exact Hrun|].
      split; [rewrite Htr; simpl; by rewrite <- app_assoc|].
      split; [|exact Hrest].
      intros x. rewrite Hfs. simpl. rewrite elem_of_unlink_fs.
      rewrite !elem_of_cons. intuition (try discriminate; auto).
    + rewrite H0. simpl.
      match goal with |- exists _, run_handlers hs ?s1 = _ /\ _ =>
        destruct (IH s1) as (s' & Hrun & Htr & Hfs & Hrest)
      end; [simpl; done|].
      exists s'. split; [exact Hrun|].
      split; [rewrite Htr; simpl; by rewrite <- app_assoc|].
      split; [|exact Hrest].
      intros x. rewrite Hfs. simpl. rewrite elem_of_unlink_fs.
      rewrite !elem_of_cons. intuition (try discriminate; auto).
Qed.

(** [die] always ends the process with the status it is given, after the
    whole cleanup. *)
Lemma die_spec {A : Type} (message : option string) (e : Z) (s : State) :
  0 <= cnt s <= Z.of_nat (length (fd s)) ->
  exists s',
    @die A message e s = Exit e s' /\
    trace s' = (trace s ++ die_events s)%list /\
    (forall x, x ∈ fs s' <->
       x ∈ fs s /\ Some x <> SOCKFILE s /\ Some x <> PIDFILE s) /\
    cnt s' = 0 /\ src s' = 0 /\ src_fd s' = 0 /\ reopen s' = 0.
Proof.
  intros Hc.
  unfold die, exit, rm_sockfile, rm_pidfile, close_src, die_events, registry.
  run.
  destruct (src_fd s =? 0) eqn:E1; run;
    destruct (src s =? 0) eqn:E2; run;
    match goal with
    | |- exists _, match close_clients _ ?s3 with _ => _ end = _ /\ _ =>
        destruct (close_clients_spec (Z.to_nat (cnt s)) s3)
          as (s4 & Hrun4 & Hcnt4 & Htr4 & Hfd4 & Hsrc4 & Hsfd4 & Hre4 & Hp4
              & Hk4 & Hat4 & Hfs4); simpl; [lia | lia |]
    end;
    rewrite Hrun4;
    (destruct (run_handlers_spec (atexit_fns s4) s4)
      as (s5 & Hrun5 & Htr5 & Hfs5 & Hcnt5 & _ & Hsrc5 & Hsfd5 & Hre5);
      [simpl in Hsfd4; lia|]);
    rewrite Hrun5; exists s5; simpl in *;
    (split; [reflexivity|]);
    (split;
      [rewrite Htr5, Htr4, Hat4,
         (map_ext (handler_event s4) (handler_event s))
           by (intros []; simpl; congruence);
       rewrite <- !app_assoc; reflexivity|]);
    (split;
      [intros x; rewrite Hfs5, Hfs4, !elem_of_unlink_fs, Hp4, Hk4; tauto|]);
    repeat split; try congruence; lia.
Qed.

(** ** [die] removes the files of the instance once they are named *)












(** The names are in place from the moment [main] has derived them: a
    client whose [connect] fails and a server started without a command
    remove the two files. *)
Lemma main_client_connect_fails (inv : Invocation) (s s1 : State)
    (name : string) (d : Z) (e : positive) (rs rs' : list resp) :
  bad_option inv = false ->
  instance_name inv s = Ret name s1 ->
  opt_dryrun inv = false -> opt_restart inv = false ->
  opt_client inv = true ->
  src s1 = 0 ->
  0 <= cnt s1 <= Z.of_nat (length (fd s1)) ->
  oracle s1 SSocket = ROk d :: rs -> 0 <= d ->
  oracle s1 SConnect = RErr e :: rs' ->
  exists s',
    main inv s = Exit (Z.pos e) s' /\
    (sockfile_name name ∉ fs s') /\ (pidfile_name name ∉ fs s').
Proof.
  intros Hbad Hname Hdry Hre Hcl _ Hc Hsock Hd Hconn.
  unfold main. rewrite Hbad, Hdry, Hre, Hcl. run. rewrite Hname.
  unfold client. run.
  rewrite (call_eq SSocket (ROk d) rs) by exact Hsock. simpl.
  destruct (d <? 0) eqn:E; [lia|].
  rewrite (call_eq SConnect (RErr e) rs') by exact Hconn. simpl.
  match goal with |- exists _, match die ?m ?c ?s2 with _ => _ end = _ /\ _ =>
    destruct (@die_spec unit m c s2) as (s' & Hdie & _ & Hfs & _);
      [simpl; lia|]
  end.
  rewrite Hdie. exists s'. split; [reflexivity|].
  rewrite !Hfs. simpl. tauto.
Qed.

Lemma main_no_arguments (inv : Invocation) (s s1 : State) (name : string) :
  bad_option inv = false ->
  instance_name inv s = Ret name s1 ->
  opt_dryrun inv = false -> opt_restart inv = false ->
  opt_client inv = false ->
  args inv = [] ->
  src s1 = 0 ->
  0 <= cnt s1 <= Z.of_nat (length (fd s1)) ->
  exists s',
    main inv s = Exit 1 s' /\
    (sockfile_name name ∉ fs s') /\ (pidfile_name name ∉ fs s').
Proof.
  intros Hbad Hname Hdry Hre Hcl Hargs _ Hc.
  unfold main. rewrite Hbad, Hdry, Hre, Hcl, Hargs. run. rewrite Hname.
  simpl.
  match goal with |- exists _, die ?m ?c ?s2 = _ /\ _ =>
    destruct (@die_spec Z m c s2) as (s' & Hdie & _ & Hfs & _);
      [simpl; lia|]
  end.
  rewrite Hdie. exists s'. split; [reflexivity|].
  rewrite !Hfs. simpl. tauto.
Qed.

(** ** The source manager *)

(** With no client the source is closed and nothing is spawned. *)
Lemma open_src_idle (argv : list string) (s : State) :
  cnt s = 0 ->
  exists s',
    open_src argv s = Ret tt s' /\
    src s' = 0 /\ reopen s' = 0 /\
    trace s' = (trace s ++
                if src s =? 0 then [] else [EPclose (src s)])%list /\
    fd s' = fd s /\ cnt s' = cnt s /\ fl s' = fl s /\
    oracle s' = oracle s /\ environ s' = environ s.
Proof.
  intros Hc. assert (E0 : (cnt s =? 0) = true) by lia.
  unfold open_src, close_src. run. rewrite E0, orb_true_r.
  destruct (src s =? 0) eqn:E; run; rewrite ?E, ?E0, ?orb_true_r; simpl;
    eexists; (split; [reflexivity|]); simpl; rewrite ?app_nil_r;
    repeat split; auto; lia.
Qed.

(** With clients, an open source and no restart pending, nothing happens. *)
Lemma open_src_steady (argv : list string) (s : State) :
  cnt s <> 0 -> src s <> 0 -> reopen s = 0 ->
  open_src argv s = Ret tt s.
Proof.
  intros Hc Hs Hr. unfold open_src. run. rewrite Hr.
  destruct (cnt s =? 0) eqn:E; [lia|]. simpl.
  destruct (src s =? 0) eqn:E2; [lia|]. reflexivity.
Qed.

(** With clients and the source closed or a restart pending, the source is
    closed if it was open and the command is spawned once. *)
Lemma open_src_spawn (argv : list string) (s : State) (h : Z)
    (rs : list resp) :
  cnt s <> 0 -> src s = 0 \/ reopen s <> 0 ->
  oracle s SPopen = ROk h :: rs -> h <> 0 ->
  exists s',
    open_src argv s = Ret tt s' /\
    src s' = h /\ reopen s' = 0 /\
    trace s' = (trace s ++
                (if src s =? 0 then [] else [EPclose (src s)]) ++
                [EPopen (join_argv 0 "" argv) (environ s)])%list /\
    fd s' = fd s /\ cnt s' = cnt s /\ fl s' = fl s /\
    oracle s' SPopen = rs /\ environ s' = environ s /\ errno s' = errno s.
Proof.
  intros Hc Hor Ho Hh.
  assert (E : (cnt s =? 0) = false) by lia.
  assert (Eh : (h =? 0) = false) by lia.
  unfold open_src, close_src.
  destruct (reopen s =? 0) eqn:Er; destruct (src s =? 0) eqn:Es;
    try (exfalso; lia); go;
    rewrite (call_eq SPopen (ROk h) rs) by exact Ho; go;
    eexists; (split; [reflexivity|]); simpl;
    rewrite <- ?app_assoc; repeat split; auto; try lia;
    apply fn_lookup_insert.
Qed.

(** *** Restart requests *)

Lemma reopen_src_any_signal (sig sig' : Z) (s : State) :
  reopen_src sig s = reopen_src sig' s.
Proof. reflexivity. Qed.

Lemma reopen_src_twice (sig sig' : Z) (s : State) :
  reopen_src sig (reopen_src sig' s) = reopen_src sig' s.
Proof.
  unfold reopen_src. destruct (src s =? 0) eqn:E; simpl; rewrite E; reflexivity.
Qed.

Lemma reopen_src_many (sigs : list Z) (sig : Z) (s : State) :
  foldl (fun st sg => reopen_src sg st) (reopen_src sig s) sigs
  = reopen_src sig s.
Proof.
  induction sigs as [|sg sigs IH]; simpl; [reflexivity|].
  by rewrite reopen_src_twice.
Qed.

Lemma reopen_src_open (sig : Z) (s : State) :
  src s <> 0 ->
  reopen_src sig s = set_reopen 1 s.
Proof.
  intros H. unfold reopen_src. destruct (src s =? 0) eqn:E; [lia|reflexivity].
Qed.

(** One restart consumed with clients connected: one [pclose], one [popen],
    and nothing else. *)
Lemma open_src_restart (sig : Z) (argv : list string) (s : State) (h : Z)
    (rs : list resp) :
  src s <> 0 -> cnt s <> 0 ->
  oracle s SPopen = ROk h :: rs -> h <> 0 ->
  exists s',
    open_src argv (reopen_src sig s) = Ret tt s' /\
    trace s' = (trace s ++ [EPclose (src s);
                            EPopen (join_argv 0 "" argv) (environ s)])%list /\
    src s' = h /\ reopen s' = 0 /\
    fd s' = fd s /\ cnt s' = cnt s /\ fl s' = fl s.
Proof.
  intros Hs Hc Ho Hh. rewrite reopen_src_open by exact Hs.
  assert (Hor : src (set_reopen 1 s) = 0 \/ reopen (set_reopen 1 s) <> 0)
    by (right; simpl; lia).
  destruct (open_src_spawn argv (set_reopen 1 s) h rs Hc Hor Ho Hh)
    as (s' & Hrun & Hsrc & Hre & Htr & Hfd & Hcnt & Hfl & _).
  exists s'. simpl in *. destruct (src s =? 0) eqn:E; [lia|].
  repeat split; auto.
Qed.

(** C5.  Restart requests delivered before the next step of the source
    manager coalesce: after one or more requests the state is the one a
    single request leaves, and the step that consumes them closes and
    reopens the source exactly once; the step after it finds nothing to
    do. *)
Theorem restart_requests_coalesce (sigs : list Z) (argv : list string)
    (s : State) (h : Z) (rs : list resp) :
  sigs <> [] ->
  src s <> 0 -> cnt s <> 0 ->
  oracle s SPopen = ROk h :: rs -> h <> 0 ->
  foldl (fun st sg => reopen_src sg st) s sigs = reopen_src SIGHUP s /\
  exists s',
    open_src argv (foldl (fun st sg => reopen_src sg st) s sigs)
      = Ret tt s' /\
    trace s' = (trace s ++ [EPclose (src s);
                            EPopen (join_argv 0 "" argv) (environ s)])%list /\
    src s' = h /\ reopen s' = 0 /\
    open_src argv s' = Ret tt s'.
Proof.
  intros Hne Hs Hc Ho Hh.
  assert (Hfold : foldl (fun st sg => reopen_src sg st) s sigs
                  = reopen_src SIGHUP s).
  { destruct sigs as [|sg sigs]; [done|]. simpl.
    rewrite reopen_src_many. apply reopen_src_any_signal. }
  split; [exact Hfold|]. rewrite Hfold.
  destruct (open_src_restart SIGHUP argv s h rs Hs Hc Ho Hh)
    as (s' & Hrun & Htr & Hsrc & Hre & Hfd & Hcnt & Hfl).
  exists s'. repeat split; auto.
  apply open_src_steady; congruence.
Qed.

(** C7.  A consumed restart replaces the source and leaves the clients
    alone: the registry, the count and the mode of every descriptor are
    what they were, and the only calls made are the [pclose] of the old
    source and the [popen] of the new one -- no [close] of any client. *)
Theorem restart_keeps_clients (sig : Z) (argv : list string) (s : State)
    (h : Z) (rs : list resp) :
  src s <> 0 -> cnt s <> 0 ->
  oracle s SPopen = ROk h :: rs -> h <> 0 ->
  exists s' evs,
    open_src argv (reopen_src sig s) = Ret tt s' /\
    trace s' = (trace s ++ evs)%list /\
    evs = [EPclose (src s); EPopen (join_argv 0 "" argv) (environ s)] /\
    (forall d, EClose d ∉ evs) /\
    fd s' = fd s /\ cnt s' = cnt s /\ registry s' = registry s /\
    fl s' = fl s /\ src s' = h.
Proof.
  intros Hs Hc Ho Hh.
  destruct (open_src_restart sig argv s h rs Hs Hc Ho Hh)
    as (s' & Hrun & Htr & Hsrc & Hre & Hfd & Hcnt & Hfl).
  exists s', [EPclose (src s); EPopen (join_argv 0 "" argv) (environ s)].
  repeat split; auto.
  - intros d Hin. rewrite !elem_of_cons in Hin.
    destruct Hin as [?|[?|Hin]]; try discriminate.
    by apply elem_of_nil in Hin.
  - unfold registry. by rewrite Hfd, Hcnt.
Qed.

(** *** Spawns over a whole run *)

Lemma spawns_app (tr1 tr2 : list event) :
  spawns (tr1 ++ tr2) = (spawns tr1 + spawns tr2)%nat.
Proof.
  induction tr1 as [|e tr1 IH]; simpl; [done|].
  destruct e; simpl; rewrite IH; reflexivity.
Qed.

Lemma single_producer_app (b : bool) (tr1 tr2 : list event) :
  single_producer b (tr1 ++ tr2)
  = single_producer b tr1 && single_producer (open_after b tr1) tr2.
Proof.
  revert b. induction tr1 as [|e tr1 IH]; intros b; simpl; [done|].
  destruct e; simpl; rewrite ?IH; try reflexivity.
  by rewrite andb_assoc.
Qed.

Lemma open_after_app (b : bool) (tr1 tr2 : list event) :
  open_after b (tr1 ++ tr2) = open_after (open_after b tr1) tr2.
Proof.
  revert b. induction tr1 as [|e tr1 IH]; intros b; simpl; [done|].
  destruct e; simpl; rewrite ?IH; reflexivity.
Qed.

Lemma only_closes_spawns (evs : list event) :
  only_closes evs -> spawns evs = 0%nat.
Proof.
  induction 1 as [|e evs [d ->] _ IH]; simpl; auto.
Qed.

Lemma only_closes_producer (b : bool) (evs : list event) :
  only_closes evs -> single_producer b evs = true /\ open_after b evs = b.
Proof.
  induction 1 as [|e evs [d ->] _ IH]; simpl; auto.
Qed.

Lemma apply_change_spec (c : change) (s : State) :
  exists s' evs,
    apply_change c s = Ret tt s' /\
    trace s' = (trace s ++ evs)%list /\ only_closes evs /\
    cnt s' = size_after (cnt s) c /\
    src s' = src s /\
    negb (reopen s' =? 0)
      = pending_after (negb (src s =? 0)) (negb (reopen s =? 0)) c /\
    oracle s' = oracle s.
Proof.
  destruct c as [client_fd|i|sig]; simpl.
  - unfold register_client. run.
    destruct (MAXCLIENT =? cnt s) eqn:E; run.
    + eexists _, [EClose client_fd]. split; [reflexivity|]. simpl.
      repeat split; auto. repeat constructor. by eexists.
    + eexists _, []. split; [reflexivity|]. simpl.
      rewrite app_nil_r. repeat split; auto. constructor.
  - run. destruct ((0 <=? i) && (i <? cnt s)) eqn:E; run.
    + unfold drop_client. run.
      eexists _, [EClose (arr_get (fd s) i)]. split; [reflexivity|]. simpl.
      repeat split; auto. repeat constructor. by eexists.
    + eexists _, []. split; [reflexivity|]. simpl.
      rewrite app_nil_r. repeat split; auto. constructor.
  - run. eexists _, []. split; [reflexivity|].
    rewrite app_nil_r. unfold reopen_src.
    destruct (src s =? 0) eqn:E; simpl; repeat split; auto;
      try constructor.
    + by rewrite orb_false_r.
    + by rewrite orb_true_r.
Qed.

Lemma apply_changes_spec (cs : list change) (s : State) :
  exists s' evs,
    apply_changes cs s = Ret tt s' /\
    trace s' = (trace s ++ evs)%list /\ only_closes evs /\
    cnt s' = foldl size_after (cnt s) cs /\
    src s' = src s /\
    negb (reopen s' =? 0)
      = foldl (pending_after (negb (src s =? 0))) (negb (reopen s =? 0)) cs /\
    oracle s' = oracle s.
Proof.
  revert s. induction cs as [|c cs IH]; intros s; simpl.
  - exists s, []. rewrite app_nil_r. repeat split; auto. constructor.
  - destruct (apply_change_spec c s)
      as (s1 & evs1 & Hrun1 & Htr1 & Hev1 & Hcnt1 & Hsrc1 & Hre1 & Ho1).
    destruct (IH s1)
      as (s2 & evs2 & Hrun2 & Htr2 & Hev2 & Hcnt2 & Hsrc2 & Hre2 & Ho2).
    exists s2, (evs1 ++ evs2)%list. unfold bind. rewrite Hrun1, Hrun2.
    split; [reflexivity|].
    rewrite Htr2, Htr1, Hcnt2, Hcnt1, Hre2, Hre1, Hsrc2, Hsrc1, Ho2, Ho1.
    rewrite app_assoc. repeat split; auto.
    by apply Forall_app.
Qed.

Lemma pending_stays_false (cs : list change) :
  foldl (pending_after false) false cs = false.
Proof. induction cs as [|[] cs IH]; simpl; auto. Qed.

(** C2.  Over any run of changes and source-manager steps in which every
    [popen] succeeds, the command is spawned as often as the observer
    expects: once for every step that finds clients after the previous step
    found none, and once for every step that consumes a restart request
    with a client connected.  No [popen] is made while a source is open,
    and when the last step returns an open source means a non-empty
    registry. *)
Theorem source_spawned_once_per_transition (argv : list string)
    (rounds : list (list change)) (s : State) :
  (src s = 0 <-> cnt s = 0) ->
  (reopen s <> 0 -> src s <> 0) ->
  Forall popen_succeeds (oracle s SPopen) ->
  (length rounds <= length (oracle s SPopen))%nat ->
  exists s' evs,
    manage argv rounds s = Ret tt s' /\
    trace s' = (trace s ++ evs)%list /\
    spawns evs = expected_spawns (cnt s) (negb (reopen s =? 0)) rounds /\
    single_producer (negb (src s =? 0)) evs = true /\
    (src s' <> 0 -> cnt s' <> 0).
Proof.
  revert s. induction rounds as [|cs rounds IH]; intros s Hinv Hre Hok Hlen.
  { exists s, []. simpl. rewrite app_nil_r. repeat split; auto.
    intros H1 H2. apply H1, Hinv, H2. }
  simpl. unfold bind at 1.
  destruct (apply_changes_spec cs s)
    as (s1 & evs1 & Hrun1 & Htr1 & Hev1 & Hcnt1 & Hsrc1 & Hre1 & Ho1).
  rewrite Hrun1. unfold bind at 1.
  destruct (only_closes_producer (negb (src s =? 0)) evs1 Hev1)
    as [Hsp1 Hop1].
  pose proof (only_closes_spawns evs1 Hev1) as Hn1.
  (* the step, and what the rest of the run starts from *)
  assert (Hstep : exists s2 evs2,
    open_src argv s1 = Ret tt s2 /\
    trace s2 = (trace s1 ++ evs2)%list /\
    spawns evs2
      = Nat.add (Nat.b2n ((cnt s =? 0) && negb (cnt s1 =? 0)))
          (Nat.b2n (negb (reopen s1 =? 0) && negb (cnt s1 =? 0))) /\
    single_producer (negb (src s =? 0)) evs2 = true /\
    open_after (negb (src s =? 0)) evs2 = negb (src s2 =? 0) /\
    (src s2 = 0 <-> cnt s2 = 0) /\ reopen s2 = 0 /\ cnt s2 = cnt s1 /\
    Forall popen_succeeds (oracle s2 SPopen) /\
    (length rounds <= length (oracle s2 SPopen))%nat).
  { destruct (decide (cnt s1 = 0)) as [Hz|Hnz].
    - destruct (open_src_idle argv s1 Hz)
        as (s2 & Hrun & Hsrc & Hreo & Htr & _ & Hcnt & _ & Ho & _).
      exists s2, (if src s1 =? 0 then [] else [EPclose (src s1)]).
      rewrite Hrun, Htr, Ho, Ho1, Hsrc, Hreo, Hcnt, Hz, Hsrc1.
      replace (0 =? 0) with true by reflexivity.
      rewrite !andb_false_r. simpl.
      repeat split; auto; try (simpl in Hlen; lia);
        destruct (src s =? 0); reflexivity.
    - assert (Ec : (cnt s1 =? 0) = false) by lia.
      destruct (decide (src s = 0)) as [Hs0|Hs1].
      + (* the source was closed: the registry was empty and is not now *)
        assert (Hc0 : cnt s = 0) by (apply Hinv, Hs0).
        assert (Hr0 : reopen s = 0).
        { destruct (decide (reopen s = 0)); [done|]. exfalso. by apply Hre. }
        assert (Hr1 : reopen s1 = 0).
        { rewrite Hs0, Hr0 in Hre1. replace (0 =? 0) with true in Hre1
            by reflexivity. simpl in Hre1.
          rewrite pending_stays_false in Hre1.
          destruct (reopen s1 =? 0) eqn:E; [lia|discriminate]. }
        destruct (oracle s SPopen) as [|r rs] eqn:Eo; [simpl in Hlen; lia|].
        inversion Hok as [|? ? (h & -> & Hh) Hok']; subst.
        destruct (open_src_spawn argv s1 h rs Hnz)
          as (s2 & Hrun & Hsrc & Hreo & Htr & _ & Hcnt & _ & Ho & _);
          [left; congruence | congruence | exact Hh |].
        exists s2, [EPopen (join_argv 0 "" argv) (environ s1)].
        rewrite Hrun, Htr, Hsrc, Hreo, Hcnt, Ho, Hsrc1, Hs0, Hc0, Hr1, Ec.
        replace (0 =? 0) with true by reflexivity. simpl.
        assert (Eh : (h =? 0) = false) by lia. rewrite Eh.
        repeat split; auto; try (simpl in Hlen; lia).
      + assert (Es : (src s =? 0) = false) by lia.
        assert (Hcz : (cnt s =? 0) = false).
        { destruct (cnt s =? 0) eqn:E; [|done]. exfalso. apply Hs1, Hinv. lia. }
        destruct (decide (reopen s1 = 0)) as [Hr1|Hr1].
        * (* nothing to do *)
          exists s1, []. rewrite open_src_steady by congruence.
          rewrite app_nil_r, Hr1, Hcz, Ec, Hsrc1, Es, Ho1. simpl.
          repeat split; auto; try lia; try (simpl in Hlen; lia).
        * (* a restart is consumed *)
          destruct (oracle s SPopen) as [|r rs] eqn:Eo; [simpl in Hlen; lia|].
          inversion Hok as [|? ? (h & -> & Hh) Hok']; subst.
          destruct (open_src_spawn argv s1 h rs Hnz)
            as (s2 & Hrun & Hsrc & Hreo & Htr & _ & Hcnt & _ & Ho & _);
            [right; exact Hr1 | congruence | exact Hh |].
          exists s2, [EPclose (src s1);
                      EPopen (join_argv 0 "" argv) (environ s1)].
          assert (Er : (reopen s1 =? 0) = false) by lia.
          assert (Eh : (h =? 0) = false) by lia.
          rewrite Hrun, Htr, Hsrc, Hreo, Hcnt, Ho, Hcz, Ec, Er, Es, Eh.
          rewrite Hsrc1, Es. simpl.
          repeat split; auto; try lia; try (simpl in Hlen; lia). }
  destruct Hstep as (s2 & evs2 & Hrun2 & Htr2 & Hn2 & Hsp2 & Hop2 & Hinv2
                     & Hre2 & Hcnt2 & Hok2 & Hlen2).
  rewrite Hrun2.
  destruct (IH s2 Hinv2) as (s3 & evs3 & Hrun3 & Htr3 & Hn3 & Hsp3 & Hfin);
    [lia | exact Hok2 | exact Hlen2 |].
  exists s3, (evs1 ++ evs2 ++ evs3)%list.
  split; [exact Hrun3|].
  split; [rewrite Htr3, Htr2, Htr1, <- !app_assoc; reflexivity|].
  split.
  { assert (Heq : (src s =? 0) = (cnt s =? 0)).
    { destruct (src s =? 0) eqn:E1, (cnt s =? 0) eqn:E2; auto; exfalso.
      - assert (src s = 0) as H by lia. apply Hinv in H. lia.
      - assert (cnt s = 0) as H by lia. apply Hinv in H. lia. }
    rewrite !spawns_app, Hn1, Hn2, Hn3, Hre2, Hcnt2, Hre1, Hcnt1, Heq.
    replace (0 =? 0) with true by reflexivity. simpl. reflexivity. }
  split; [|exact Hfin].
  rewrite !single_producer_app, Hsp1, Hop1, Hsp2, Hop2, Hsp3. reflexivity.
Qed.

(** ** Normal returns *)

Lemma bind_ret_inv {A B : Type} (m : M A) (k : A -> M B) (s s' : State)
    (b : B) :
  bind m k s = Ret b s' ->
  exists a s1, m s = Ret a s1 /\ k a s1 = Ret b s'.
Proof.
  unfold bind. destruct (m s) as [a s1| | | |]; try discriminate. eauto.
Qed.

Lemma exit_never_returns {A : Type} (e : Z) (s s' : State) (a : A) :
  @exit A e s <> Ret a s'.
Proof.
  unfold exit. destruct (run_handlers (atexit_fns s) s); discriminate.
Qed.

Lemma die_never_returns {A : Type} (message : option string) (e : Z)
    (s s' : State) (a : A) :
  @die A message e s <> Ret a s'.
Proof.
  unfold die. intros H.
  do 5 (apply bind_ret_inv in H as (? & ? & _ & H)).
  by apply exit_never_returns in H.
Qed.

(** [read_buf] returns only after a complete read, and then returns true. *)
Lemma read_buf_returns_true (s s' : State) (b : bool) :
  read_buf s = Ret b s' -> b = true /\ err s' = 1.
Proof.
  unfold read_buf. intros H.
  apply bind_ret_inv in H as (? & ? & [= <- <-] & H).
  destruct (src s =? 0); [discriminate|].
  apply bind_ret_inv in H as (? & s1 & _ & H).
  apply bind_ret_inv in H as (? & ? & [= <- <-] & H).
  apply bind_ret_inv in H as (? & s2 & _ & H).
  apply bind_ret_inv in H as (? & ? & [= <- <-] & H).
  destruct (err s2 =? 1) eqn:E; simpl in H.
  - injection H as <- <-. split; [done|lia].
  - by apply die_never_returns in H.
Qed.

(** ** A whole broadcast pass *)

Lemma closed_app (tr1 tr2 : list event) :
  closed (tr1 ++ tr2) = (closed tr1 ++ closed tr2)%list.
Proof.
  induction tr1 as [|e tr1 IH]; simpl; [done|].
  destruct e; simpl; rewrite IH; reflexivity.
Qed.

Lemma only_sent_refl (s : State) : only_sent s s.
Proof.
  split; [apply same_registry_refl|]. exists []. by rewrite app_nil_r.
Qed.

Lemma only_sent_trans (s1 s2 s3 : State) :
  only_sent s1 s2 -> only_sent s2 s3 -> only_sent s1 s3.
Proof.
  intros [Hr1 (evs1 & Ht1 & Hc1)] [Hr2 (evs2 & Ht2 & Hc2)].
  split; [eapply same_registry_trans; eauto|].
  exists (evs1 ++ evs2)%list. split.
  - rewrite Ht2, Ht1, app_assoc. reflexivity.
  - rewrite closed_app, Hc1, Hc2. reflexivity.
Qed.

Lemma write_all_only_sent (n : nat) (d off nr : Z) :
  keeps only_sent (write_all n d off nr).
Proof.
  revert off nr. induction n as [|n IH]; intros off nr; simpl;
    repeat keeps_step only_sent_refl only_sent_trans; try apply IH.
  - apply keeps_call; [apply only_sent_refl | apply only_sent_trans | |];
      intros; (split; [by unfold same_registry|]); exists [];
      by rewrite app_nil_r.
  - apply keeps_modify. intros s.
    split; [by unfold same_registry|]. by eexists [_].
Qed.

Lemma registry_length (s : State) :
  0 <= cnt s <= Z.of_nat (length (fd s)) ->
  length (registry s) = Z.to_nat (cnt s).
Proof. intros H. unfold registry. rewrite length_take. lia. Qed.

Lemma registry_lookup (s : State) (i : nat) :
  0 <= cnt s <= Z.of_nat (length (fd s)) ->
  (i < Z.to_nat (cnt s))%nat ->
  registry s !! i = Some (arr_get (fd s) (Z.of_nat i)).
Proof.
  intros Hc Hi. unfold registry, arr_get.
  rewrite lookup_take_lt by exact Hi. rewrite Nat2Z.id.
  destruct (lookup_lt_is_Some_2 (fd s) i) as [x Hx]; [lia|].
  by rewrite Hx.
Qed.

Lemma drop_client_returns (i : nat) (s : State) :
  (i < Z.to_nat (cnt s))%nat ->
  0 <= cnt s <= Z.of_nat (length (fd s)) ->
  exists s',
    drop_client (Z.of_nat i) s = Ret tt s' /\
    registry s' = delete i (registry s) /\
    cnt s' = cnt s - 1 /\
    length (fd s') = length (fd s) /\
    trace s' = (trace s ++ [EClose (arr_get (fd s) (Z.of_nat i))])%list /\
    bufsz s' = bufsz s /\ buffer s' = buffer s.
Proof.
  intros Hi Hc. eexists. split; [reflexivity|]. simpl.
  repeat split; auto.
  - unfold registry. simpl.
    replace (Z.to_nat (cnt s - 1)) with (Z.to_nat (cnt s) - 1)%nat by lia.
    rewrite <- (Z2Nat.id (cnt s)) at 2 3 by lia.
    apply drop_registry; lia.
  - unfold arr_set. by rewrite length_insert, shift_down_length.
Qed.

(** From index [i] on, a pass that returns leaves of the clients exactly
    those it has not closed, in their order; the clients before [i] are not
    touched. *)
Lemma write_clients_pass (n i : nat) (s s' : State) :
  (i <= Z.to_nat (cnt s))%nat ->
  0 <= cnt s <= Z.of_nat (length (fd s)) ->
  write_clients n (Z.of_nat i) s = Ret tt s' ->
  exists evs,
    trace s' = (trace s ++ evs)%list /\
    take i (registry s') = take i (registry s) /\
    drop i (registry s') `sublist_of` drop i (registry s) /\
    (drop i (registry s') ++ closed evs)%list ≡ₚ drop i (registry s) /\
    bufsz s' = bufsz s /\ buffer s' = buffer s.
Proof.
  revert i s. induction n as [|n IH]; intros i s Hi Hc H;
    simpl in H; apply bind_ret_inv in H as (? & ? & [= <- <-] & H);
    (destruct (Z.of_nat i <? cnt s) eqn:E; simpl in H;
     [|injection H as <-; exists []; rewrite app_nil_r;
       repeat split; auto; by rewrite app_nil_r]);
    [discriminate|].
  apply bind_ret_inv in H as (nr & s1 & Hw & H).
  pose proof (write_all_only_sent (length (oracle s SWrite))
                (arr_get (fd s) (Z.of_nat i)) 0 (bufsz s) s) as Hsent.
  rewrite Hw in Hsent. simpl in Hsent.
  destruct Hsent as [(Hfd & Hcnt & Hsz & Hbuf) (ws & Htr1 & Hcl1)].
  assert (Hreg1 : registry s1 = registry s)
    by (unfold registry; by rewrite Hfd, Hcnt).
  assert (Hx : registry s !! i = Some (arr_get (fd s) (Z.of_nat i)))
    by (apply registry_lookup; lia).
  set (x := arr_get (fd s) (Z.of_nat i)) in *.
  destruct (nr =? 0) eqn:En.
  - (* the write was complete: on to the next client *)
    replace (Z.of_nat i + 1) with (Z.of_nat (S i)) in H by lia.
    apply IH in H as (evs & Htr & Htake & Hsub & Hperm & Hsz' & Hbuf');
      [|lia|rewrite Hfd, Hcnt; lia].
    rewrite Hreg1 in Htake, Hsub, Hperm.
    rewrite (take_S_r _ _ _ Hx) in Htake.
    assert (Hx' : registry s' !! i = Some x).
    { rewrite <- (lookup_take_lt _ (S i)) by lia. rewrite Htake.
      rewrite lookup_app_r; rewrite length_take, registry_length by lia;
        [|lia].
      replace (i - i `min` Z.to_nat (cnt s))%nat with 0%nat by lia. done. }
    exists (ws ++ evs)%list.
    split; [rewrite Htr, Htr1, app_assoc; reflexivity|].
    split.
    { replace (take i (registry s')) with (take i (take (S i) (registry s')))
        by (rewrite take_take; f_equal; lia).
      rewrite Htake.
      rewrite take_app_le by (rewrite length_take, registry_length; lia).
      rewrite take_take. f_equal. lia. }
    rewrite (drop_S _ _ _ Hx), (drop_S _ _ _ Hx'), closed_app, Hcl1.
    simpl. split; [by apply sublist_skip|].
    split; [by apply Permutation_skip|]. split; congruence.
  - (* the write failed: the client goes, the index stays *)
    destruct (drop_client_returns i s1)
      as (s2 & Hdrop & Hreg2 & Hcnt2 & Hlen2 & Htr2 & Hsz2 & Hbuf2);
      [lia | rewrite Hfd, Hcnt; lia |].
    unfold bind at 1 in H. rewrite Hdrop in H.
    apply IH in H as (evs & Htr & Htake & Hsub & Hperm & Hsz' & Hbuf');
      [|lia|rewrite Hlen2, Hcnt2, Hfd, Hcnt; lia].
    rewrite Hreg2, Hreg1 in Htake, Hsub, Hperm.
    assert (Hli : i = length (take i (registry s)))
      by (rewrite length_take, registry_length; lia).
    rewrite delete_take_drop in Htake, Hsub, Hperm.
    rewrite take_app_length' in Htake by exact Hli.
    rewrite drop_app_length' in Hsub, Hperm by exact Hli.
    exists (ws ++ EClose (arr_get (fd s1) (Z.of_nat i)) :: evs)%list.
    split; [rewrite Htr, Htr2, Htr1, <- !app_assoc; reflexivity|].
    split; [exact Htake|].
    rewrite (drop_S _ _ _ Hx), closed_app, Hcl1, Hfd. simpl. fold x.
    split; [by apply sublist_cons|].
    split; [|split; congruence].
    rewrite <- Hperm. symmetry. apply Permutation_middle.
Qed.

(** X1.  One broadcast pass that returns: the registry afterwards is the
    registry before without the clients that were closed, in the old
    order, and the buffer is the same for all of them. *)
Lemma write_buf_pass (s s' : State) :
  0 <= cnt s <= Z.of_nat (length (fd s)) ->
  write_buf s = Ret tt s' ->
  exists evs,
    trace s' = (trace s ++ evs)%list /\
    registry s' `sublist_of` registry s /\
    (registry s' ++ closed evs)%list ≡ₚ registry s /\
    bufsz s' = bufsz s /\ buffer s' = buffer s.
Proof.
  intros Hc H. unfold write_buf in H.
  apply bind_ret_inv in H as (? & ? & [= <- <-] & H).
  apply (write_clients_pass _ 0) in H
    as (evs & Htr & _ & Hsub & Hperm & Hrest); [|lia|exact Hc].
  exists evs. auto.
Qed.

(** ** The main server loop *)

Lemma server_loop_returns_empty (n : nat) (argv : list string)
    (s s' : State) :
  server_loop n argv s = Ret tt s' -> cnt s' = 0.
Proof.
  revert s. induction n as [|n IH]; intros s H; simpl in H; [discriminate|].
  apply bind_ret_inv in H as ([] & s1 & _ & H).
  apply bind_ret_inv in H as (? & ? & [= <- <-] & H).
  destruct (cnt s1 =? 0) eqn:E; simpl in H.
  - injection H as <-. lia.
  - by apply IH in H.
Qed.

(** C4.  A round that returns has been through a whole pump cycle -- the
    read came back and the buffer was written to the clients -- and the
    loop ends after it exactly when it leaves the registry empty;
    otherwise the next round starts from the state it left. *)
Theorem server_loop_ends_when_registry_empty (n : nat) (argv : list string)
    (s s' : State) :
  server_round argv s = Ret tt s' ->
  (server_loop (S n) argv s = Ret tt s' <-> cnt s' = 0) /\
  (cnt s' <> 0 -> server_loop (S n) argv s = server_loop n argv s') /\
  exists s1,
    (check_for_new_clients;; open_src argv;; read_buf) s = Ret true s1 /\
    write_buf s1 = Ret tt s'.
Proof.
  intros Hround.
  assert (Hstep : server_loop (S n) argv s
                  = if negb (cnt s' =? 0) then server_loop n argv s'
                    else Ret tt s').
  { simpl. unfold bind at 1. rewrite Hround. unfold bind, get.
    destruct (cnt s' =? 0); reflexivity. }
  split; [|split].
  - rewrite Hstep. destruct (cnt s' =? 0) eqn:E; simpl.
    + split; [lia|reflexivity].
    + split; [|lia]. intros H. apply server_loop_returns_empty in H. lia.
  - intros Hc. rewrite Hstep. destruct (cnt s' =? 0) eqn:E; [lia|reflexivity].
  - unfold server_round in Hround.
    apply bind_ret_inv in Hround as ([] & s1 & H1 & Hround).
    apply bind_ret_inv in Hround as ([] & s2 & H2 & Hround).
    apply bind_ret_inv in Hround as (b & s3 & H3 & Hround).
    destruct (read_buf_returns_true _ _ _ H3) as [-> _].
    exists s3. split; [|exact Hround].
    unfold bind. rewrite H1, H2. exact H3.
Qed.

(** ** Reading from the source *)

Lemma call_ret_inv (k : sys) (s s' : State) (r : resp) :
  call k s = Ret r s' ->
  exists rs, oracle s k = r :: rs /\ s' = answered k r rs s.
Proof.
  unfold call. destruct (oracle s k) as [|r0 rs]; [discriminate|].
  intros [= -> <-]. eauto.
Qed.

(** While [errno] holds [EAGAIN], an end of stream -- [fread] returns 0 and
    leaves [errno] alone -- is read again, as often as it is reported. *)
Lemma fread_retry_end_of_stream (n : nat) (s : State) :
  errno s = EAGAIN ->
  oracle s SFread = repeat (ROk 0) n ->
  exists s',
    fread_retry n s = Hang s' /\
    trace s' = trace s /\ errno s' = EAGAIN /\ oracle s' SFread = [] /\
    cnt s' = cnt s /\ src s' = src s.
Proof.
  revert s. induction n as [|n IH]; intros s He Ho; simpl.
  - exists s. repeat split; auto.
  - simpl in Ho. unfold bind at 1. rewrite (call_eq _ _ _ _ Ho). go.
    rewrite He. replace (0 <? 1) with true by reflexivity.
    replace (EAGAIN =? EAGAIN) with true by reflexivity.
    rewrite orb_true_r. simpl.
    match goal with |- exists _, fread_retry n ?s1 = _ /\ _ =>
      destruct (IH s1) as (s' & Hrun & Htr & He' & Ho' & Hc & Hs)
    end; [exact He | simpl; apply fn_lookup_insert |].
    exists s'. simpl in *. repeat split; auto.
Qed.

(** What the acceptor does when no connection is pending. *)
Lemma accept_clients_would_block (s : State) (rs : list resp) :
  cnt s <> 0 ->
  oracle s SAccept = RErr 11%positive :: rs ->
  accept_clients s
  = Ret tt (answered SAccept (RErr 11%positive) rs s).
Proof.
  intros Hc Ho. unfold accept_clients.
  assert (E : (cnt s =? 0) = false) by lia.
  go. rewrite Ho. simpl. unfold bind at 1.
  rewrite (call_eq _ _ _ _ Ho). reflexivity.
Qed.

(** C3, where the code departs from it.  The round of the main loop at the
    end of the stream: the acceptor finds no new connection and leaves
    [EWOULDBLOCK] in [errno]; the source reports the end of the stream [n]
    times, and [fread] does not touch [errno].  The retry of [read_buf]
    takes the stale [errno] for a reason to read again, so the round
    neither returns nor dies: every report is consumed, no cleanup call is
    made, and the read is still pending. *)
Theorem end_of_stream_is_retried (n : nat) (argv : list string) (s : State)
    (rs : list resp) :
  src s <> 0 -> buffer s <> 0 -> src_fd s <> 0 ->
  cnt s <> 0 -> reopen s = 0 ->
  oracle s SAccept = RErr 11%positive :: rs ->
  oracle s SFread = repeat (ROk 0) n ->
  exists s',
    server_round argv s = Hang s' /\
    trace s' = trace s /\
    errno s' = EAGAIN /\ oracle s' SFread = [] /\
    cnt s' = cnt s /\ src s' = src s.
Proof.
  intros Hs Hb Hl Hc Hr Ha Hf.
  assert (El : (src_fd s =? 0) = false) by lia.
  assert (Es : (src s =? 0) = false) by lia.
  assert (Eb : (buffer s =? 0) = false) by lia.
  unfold server_round, check_for_new_clients, listen_setup. go.
  rewrite (accept_clients_would_block s rs Hc Ha). go.
  rewrite open_src_steady by (simpl; auto). go.
  unfold read_buf. go.
  match goal with |- context [fread_retry ?m ?s1] =>
    destruct (fread_retry_end_of_stream n s1)
      as (s' & Hrun & Htr & He & Ho & Hcnt & Hsrc);
      [reflexivity
      | simpl; rewrite fn_lookup_insert_ne by discriminate; exact Hf |];
    replace m with n
      by (rewrite fn_lookup_insert_ne by discriminate;
          rewrite Hf, repeat_length; reflexivity)
  end.
  rewrite Hrun. exists s'. repeat split; auto.
Qed.

Lemma fread_retry_same_registry (n : nat) :
  keeps same_registry (fread_retry n).
Proof.
  induction n as [|n IH]; simpl.
  - keeps_same.
  - keeps_same; try apply IH.
    + apply keeps_call; [apply same_registry_refl | apply same_registry_trans | |];
        intros; by unfold same_registry.
    + apply keeps_modify. intros; by unfold same_registry.
Qed.

(** Once the retry is over with anything but a complete read, the server
    dies: the whole cleanup runs and the status is the value of [errno]. *)
Lemma failed_read_is_fatal (s s2 : State) :
  src s <> 0 -> buffer s <> 0 ->
  0 <= cnt s <= Z.of_nat (length (fd s)) ->
  fread_retry (length (oracle s SFread)) s = Ret tt s2 ->
  err s2 <> 1 ->
  exists s3,
    read_buf s = Exit (errno s2) s3 /\
    trace s3 = (trace s2 ++ die_events s2)%list /\
    cnt s3 = 0 /\ src s3 = 0 /\ src_fd s3 = 0.
Proof.
  intros Hs Hb Hc Hrun He.
  assert (Es : (src s =? 0) = false) by lia.
  assert (Eb : (buffer s =? 0) = false) by lia.
  assert (Ee : (err s2 =? 1) = false) by lia.
  pose proof (fread_retry_same_registry (length (oracle s SFread)) s) as HR.
  rewrite Hrun in HR. simpl in HR. destruct HR as (Hfd & Hcnt & _).
  unfold read_buf. go. rewrite Hrun. go.
  destruct (@die_spec bool (Some "fread") (errno s2) s2)
    as (s3 & Hdie & Htr & _ & H0 & H1 & H2 & _); [rewrite Hfd, Hcnt; lia|].
  rewrite Hdie. exists s3. repeat split; auto.
Qed.

(** ** The acceptor and the blocking mode *)

Lemma land_clear (f m : Z) : Z.land (Z.land f (Z.lnot m)) m = 0.
Proof.
  rewrite <- Z.land_assoc, (Z.land_comm (Z.lnot m)), Z.land_lnot_diag.
  apply Z.land_0_r.
Qed.

Lemma land_set (f m : Z) : Z.land (Z.lor f m) m = m.
Proof.
  apply Z.bits_inj. intros n.
  rewrite Z.land_spec, Z.lor_spec.
  destruct (Z.testbit f n), (Z.testbit m n); reflexivity.
Qed.

Lemma mk_blocking_returns (d : Z) (s s' : State) :
  mk_blocking d s = Ret tt s' ->
  fl s' = <[d := Z.land (fl s d) (Z.lnot O_NONBLOCK)]> (fl s) /\
  cnt s' = cnt s /\ fd s' = fd s /\ src_fd s' = src_fd s /\
  oracle s' SAccept = oracle s SAccept /\ trace s' = trace s.
Proof.
  unfold mk_blocking. intros H.
  apply bind_ret_inv in H as (r1 & s1 & Hc1 & H).
  apply call_ret_inv in Hc1 as (rs1 & Ho1 & ->).
  apply bind_ret_inv in H as (? & ? & [= <- <-] & H).
  destruct r1 as [v1|e1]; simpl in H;
    try (by apply die_never_returns in H).
  destruct (fl s d =? -1); [by apply die_never_returns in H|].
  apply bind_ret_inv in H as (r2 & s2 & Hc2 & H).
  apply call_ret_inv in Hc2 as (rs2 & Ho2 & ->).
  apply bind_ret_inv in H as (? & ? & [= <- <-] & H).
  destruct r2 as [v2|e2]; simpl in H;
    try (by apply die_never_returns in H).
  injection H as <-. simpl.
  repeat split; auto.
Qed.

Lemma mk_nonblocking_returns (d : Z) (s s' : State) :
  mk_nonblocking d s = Ret tt s' ->
  fl s' = <[d := Z.lor (fl s d) O_NONBLOCK]> (fl s) /\
  cnt s' = cnt s /\ fd s' = fd s /\ src_fd s' = src_fd s /\
  oracle s' SAccept = oracle s SAccept /\ trace s' = trace s.
Proof.
  unfold mk_nonblocking. intros H.
  apply bind_ret_inv in H as (r1 & s1 & Hc1 & H).
  apply call_ret_inv in Hc1 as (rs1 & Ho1 & ->).
  apply bind_ret_inv in H as (? & ? & [= <- <-] & H).
  destruct r1 as [v1|e1]; simpl in H;
    try (by apply die_never_returns in H).
  destruct (fl s d =? -1); [by apply die_never_returns in H|].
  apply bind_ret_inv in H as (r2 & s2 & Hc2 & H).
  apply call_ret_inv in Hc2 as (rs2 & Ho2 & ->).
  apply bind_ret_inv in H as (? & ? & [= <- <-] & H).
  destruct r2 as [v2|e2]; simpl in H;
    try (by apply die_never_returns in H).
  injection H as <-. simpl.
  repeat split; auto.
Qed.

Lemma acceptor_inv_ext (L c0 : Z) (old : list Z) (t t' : State) :
  fl t' = fl t -> cnt t' = cnt t -> fd t' = fd t -> src_fd t' = src_fd t ->
  acceptor_inv L c0 old t -> acceptor_inv L c0 old t'.
Proof.
  unfold acceptor_inv, is_blocking. intros -> -> -> ->. tauto.
Qed.

Lemma register_client_returns (d : Z) (s s' : State) :
  register_client d s = Ret tt s' ->
  (cnt s = MAXCLIENT /\ s' = set_trace (trace s ++ [EClose d]) s) \/
  (cnt s <> MAXCLIENT /\ s' = append_client d s).
Proof.
  unfold register_client. run.
  destruct (MAXCLIENT =? cnt s) eqn:E; run; intros [= <-].
  - left. split; [lia|reflexivity].
  - right. split; [lia|reflexivity].
Qed.

Lemma admit_client_inv (L c0 : Z) (old : list Z) (d : Z)
    (t t2 t3 t4 : State) :
  acceptor_inv L c0 old t -> d <> L ->
  mk_nonblocking L t = Ret tt t2 ->
  mk_blocking d t2 = Ret tt t3 ->
  register_client d t3 = Ret tt t4 ->
  acceptor_inv L c0 old t4 /\ oracle t4 SAccept = oracle t SAccept /\
  is_blocking t4 d.
Proof.
  intros (Hb & Hl & Hc0 & Hc & Hlen & Hold & Hreg) Hd H2 H3 H4.
  apply mk_nonblocking_returns in H2 as (Hfl2 & Hcnt2 & Hfd2 & Hsfd2 & Ho2 & _).
  apply mk_blocking_returns in H3 as (Hfl3 & Hcnt3 & Hfd3 & Hsfd3 & Ho3 & _).
  assert (HL : ~ is_blocking t3 L).
  { unfold is_blocking. rewrite Hfl3, fn_lookup_insert_ne by done.
    rewrite Hfl2, fn_lookup_insert, land_set. discriminate. }
  assert (Hdb : is_blocking t3 d).
  { unfold is_blocking. rewrite Hfl3, fn_lookup_insert. apply land_clear. }
  assert (Hkeep : forall v, v <> L -> is_blocking t v -> is_blocking t3 v).
  { intros v Hv Hbv. unfold is_blocking in *. rewrite Hfl3.
    destruct (decide (d = v)) as [->|Hne].
    - rewrite fn_lookup_insert. apply land_clear.
    - rewrite fn_lookup_insert_ne by done.
      rewrite Hfl2, fn_lookup_insert_ne by done. exact Hbv. }
  apply register_client_returns in H4 as [[Hfull ->]|[Hroom ->]].
  - split; [|split; [simpl; congruence | exact Hdb]].
    unfold acceptor_inv. simpl.
    rewrite Hcnt3, Hcnt2, Hfd3, Hfd2, Hsfd3, Hsfd2 in *.
    refine (conj _ (conj Hl (conj Hc0 (conj Hc (conj Hlen (conj Hold _)))))).
    + split; [intros HbL; exfalso; by apply HL|].
      intros Hz. exfalso. unfold MAXCLIENT in *. lia.
    + intros i Hi. split; [apply Hkeep|]; apply Hreg; lia.
  - split; [|split; [simpl; congruence | exact Hdb]].
    unfold acceptor_inv, append_client. simpl.
    rewrite Hcnt3, Hcnt2, Hfd3, Hfd2, Hsfd3, Hsfd2 in *.
    unfold arr_set. rewrite length_insert.
    refine (conj _ (conj Hl (conj Hc0 (conj _ (conj Hlen (conj _ _)))))).
    + split; [intros HbL; exfalso; by apply HL|]. lia.
    + lia.
    + rewrite take_insert_ge by lia. exact Hold.
    + intros i Hi. unfold arr_get.
      destruct (decide (i = cnt t)) as [->|Hne].
      * rewrite list_lookup_insert_eq by lia. simpl. split; [exact Hdb|exact Hd].
      * rewrite list_lookup_insert_ne by lia.
        split; [apply Hkeep|]; apply Hreg; lia.
Qed.

Lemma accept_client_inv (n : nat) (L c0 : Z) (old : list Z)
    (t s' : State) :
  acceptor_inv L c0 old t ->
  Forall (fun r => r <> ROk L) (oracle t SAccept) ->
  accept_client n t = Ret tt s' ->
  acceptor_inv L c0 old s'.
Proof.
  revert t. induction n as [|n IH]; intros t Hinv Hok H; simpl in H;
    [discriminate|].
  apply bind_ret_inv in H as (r & t1 & Hcall & H).
  apply call_ret_inv in Hcall as (rs & Ho & ->).
  rewrite Ho in Hok. apply Forall_cons in Hok as [Hr Hrs].
  set (t1 := answered SAccept r rs t) in *.
  assert (Hinv1 : acceptor_inv L c0 old t1).
  { apply (acceptor_inv_ext L c0 old t); auto; subst t1;
      destruct r; reflexivity. }
  assert (Ho1 : oracle t1 SAccept = rs).
  { subst t1. destruct r; simpl; apply fn_lookup_insert. }
  apply bind_ret_inv in H as (? & ? & [= <- <-] & H).
  destruct ((int_of r =? -1) && (errno t1 =? EWOULDBLOCK)).
  { injection H as <-. exact Hinv1. }
  destruct ((int_of r =? -1) && (errno t1 =? EINTR)).
  { apply (IH t1); auto. by rewrite Ho1. }
  destruct (int_of r =? -1) eqn:E; [by apply die_never_returns in H|].
  destruct r as [d|e]; [|simpl in E; discriminate]. simpl in H.
  apply bind_ret_inv in H as ([] & t2 & H2 & H).
  apply bind_ret_inv in H as ([] & t3 & H3 & H).
  apply bind_ret_inv in H as ([] & t4 & H4 & H).
  assert (Hl : src_fd t = L) by apply Hinv.
  rewrite Hl in H2.
  destruct (admit_client_inv L c0 old d t1 t2 t3 t4) as (Hinv4 & Ho4 & _);
    auto; [congruence|].
  apply (IH t4); auto. by rewrite Ho4, Ho1.
Qed.

(** The invariant holds when the acceptor returns. *)
Lemma accept_clients_inv (s s' : State) :
  0 <= cnt s <= MAXCLIENT ->
  Z.of_nat (length (fd s)) = MAXCLIENT ->
  (cnt s <> 0 -> ~ is_blocking s (src_fd s)) ->
  Forall (fun r => r <> ROk (src_fd s)) (oracle s SAccept) ->
  accept_clients s = Ret tt s' ->
  acceptor_inv (src_fd s) (cnt s) (registry s) s'.
Proof.
  intros Hc Hlen Hnb Hok H. unfold accept_clients in H.
  apply bind_ret_inv in H as (? & ? & [= <- <-] & H).
  apply bind_ret_inv in H as ([] & t & Hpre & H).
  apply bind_ret_inv in H as (? & ? & [= <- <-] & H).
  destruct (cnt s =? 0) eqn:E.
  - apply mk_blocking_returns in Hpre as (Hfl & Hcnt & Hfd & Hsfd & Ho & _).
    apply (accept_client_inv (length (oracle t SAccept)) (src_fd s) (cnt s)
             (registry s) t);
      [|by rewrite Ho|exact H].
    unfold acceptor_inv, is_blocking, registry.
    rewrite Hfl, Hcnt, Hfd, Hsfd, fn_lookup_insert, land_clear.
    repeat split; auto; try lia; intros i Hi; lia.
  - injection Hpre as <-.
    apply (accept_client_inv (length (oracle s SAccept)) (src_fd s) (cnt s)
             (registry s) s);
      [|exact Hok|exact H].
    unfold acceptor_inv, registry.
    refine (conj _ (conj eq_refl (conj _ (conj _ (conj Hlen
              (conj eq_refl _)))))); try lia.
    split; [|lia]. intros Hb. exfalso. apply Hnb; [lia|exact Hb].
Qed.


(** ** The environment of the spawned command *)

Create HintDb keeps_env.

Section EnvKept.
  Variable P : list (string * string) -> event -> Prop.
  Hypothesis P_other :
    forall env0 e, (forall cmd env, e <> EPopen cmd env) -> P env0 e.

Lemma env_kept_refl (s : State) : env_kept P s s.
Proof.
  repeat split; auto. exists []. rewrite app_nil_r. split; auto.
Qed.

Lemma env_kept_trans (s1 s2 s3 : State) :
  env_kept P s1 s2 -> env_kept P s2 s3 -> env_kept P s1 s3.
Proof.
  intros (He1 & Hp1 & evs1 & Ht1 & Hf1) (He2 & Hp2 & evs2 & Ht2 & Hf2).
  repeat split; try congruence.
  exists (evs1 ++ evs2)%list. split.
  - rewrite Ht2, Ht1, app_assoc. reflexivity.
  - apply Forall_app. split; [exact Hf1|]. by rewrite <- He1.
Qed.

(** A step that leaves the environment, the identifier and the trace. *)
Lemma env_kept_silent (s s' : State) :
  environ s' = environ s -> pid s' = pid s -> trace s' = trace s ->
  env_kept P s s'.
Proof.
  intros He Hp Ht. repeat split; auto. exists [].
  rewrite app_nil_r. split; auto.
Qed.

(** A step that makes one call which is not a spawn. *)
Lemma env_kept_event (s s' : State) (e : event) :
  environ s' = environ s -> pid s' = pid s ->
  trace s' = (trace s ++ [e])%list ->
  (forall cmd env, e <> EPopen cmd env) ->
  env_kept P s s'.
Proof.
  intros He Hp Ht Hne. repeat split; auto. exists [e]. split; [exact Ht|].
  constructor; [|constructor]. by apply P_other.
Qed.

Ltac env_leaf :=
  intros;
  repeat match goal with
         | |- env_kept _ _ (if ?b then _ else _) => destruct b
         | |- env_kept _ _ (match ?x with _ => _ end) => destruct x
         end;
  first [ apply env_kept_silent; reflexivity
        | eapply env_kept_event;
          [reflexivity | reflexivity | reflexivity | discriminate] ].

Ltac env_step :=
  first
    [ solve [auto with keeps_env nocore]
    | keeps_step env_kept_refl env_kept_trans
    | apply keeps_call; [exact env_kept_refl | exact env_kept_trans | |];
      env_leaf
    | apply keeps_modify; env_leaf
    | assumption ].

Ltac env_auto := repeat env_step.

Lemma keeps_env_close (d : Z) : keeps (env_kept P) (sys_close d).
Proof. unfold sys_close, emit. env_auto. Qed.

Lemma keeps_env_unlink (p : option string) : keeps (env_kept P) (sys_unlink p).
Proof. unfold sys_unlink, emit. env_auto. Qed.

Lemma keeps_env_create (p : string) : keeps (env_kept P) (create_file p).
Proof. unfold create_file, emit. env_auto. Qed.

#[local] Hint Resolve keeps_env_close keeps_env_unlink keeps_env_create
  : keeps_env.

Lemma keeps_env_rm_sockfile : keeps (env_kept P) rm_sockfile.
Proof. unfold rm_sockfile. env_auto. Qed.

Lemma keeps_env_rm_pidfile : keeps (env_kept P) rm_pidfile.
Proof. unfold rm_pidfile. env_auto. Qed.

Lemma keeps_env_close_src : keeps (env_kept P) close_src.
Proof. unfold close_src, emit. env_auto. Qed.

#[local] Hint Resolve keeps_env_rm_sockfile keeps_env_rm_pidfile
  keeps_env_close_src : keeps_env.

Lemma keeps_env_close_clients (n : nat) : keeps (env_kept P) (close_clients n).
Proof. induction n as [|n IH]; simpl; env_auto. Qed.

Lemma keeps_env_run_handlers (hs : list handler) :
  keeps (env_kept P) (run_handlers hs).
Proof.
  induction hs as [|h hs IH]; simpl; env_auto. destruct h; env_auto.
Qed.

Lemma keeps_env_exit {A : Type} (e : Z) : keeps (env_kept P) (@exit A e).
Proof. apply keeps_exit. apply keeps_env_run_handlers. Qed.

#[local] Hint Resolve keeps_env_close_clients keeps_env_run_handlers
  keeps_env_exit : keeps_env.

Lemma keeps_env_die {A : Type} (message : option string) (e : Z) :
  keeps (env_kept P) (@die A message e).
Proof. unfold die. env_auto. Qed.

#[local] Hint Resolve keeps_env_die : keeps_env.

Lemma keeps_env_atexit (h : handler) : keeps (env_kept P) (atexit h).
Proof. unfold atexit. env_auto. Qed.

Lemma keeps_env_mk_blocking (d : Z) : keeps (env_kept P) (mk_blocking d).
Proof. unfold mk_blocking. env_auto. Qed.

Lemma keeps_env_mk_nonblocking (d : Z) : keeps (env_kept P) (mk_nonblocking d).
Proof. unfold mk_nonblocking. env_auto. Qed.

Lemma keeps_env_register_client (d : Z) :
  keeps (env_kept P) (register_client d).
Proof. unfold register_client. env_auto. Qed.

#[local] Hint Resolve keeps_env_atexit keeps_env_mk_blocking
  keeps_env_mk_nonblocking keeps_env_register_client : keeps_env.

Lemma keeps_env_listen_setup : keeps (env_kept P) listen_setup.
Proof. unfold listen_setup, emit. env_auto. Qed.

Lemma keeps_env_accept_client (n : nat) : keeps (env_kept P) (accept_client n).
Proof. induction n as [|n IH]; simpl; env_auto. Qed.

#[local] Hint Resolve keeps_env_listen_setup keeps_env_accept_client
  : keeps_env.

Lemma keeps_env_check_for_new_clients : keeps (env_kept P) check_for_new_clients.
Proof. unfold check_for_new_clients, accept_clients. env_auto. Qed.

Lemma keeps_env_wrt_pidfile : keeps (env_kept P) wrt_pidfile.
Proof. unfold wrt_pidfile. env_auto. Qed.

Lemma keeps_env_take_lock (LOCKFILE : string) :
  keeps (env_kept P) (take_lock LOCKFILE).
Proof. unfold take_lock. env_auto. Qed.

Lemma keeps_env_rd_pidfile : keeps (env_kept P) rd_pidfile.
Proof. unfold rd_pidfile, emit. env_auto. Qed.

#[local] Hint Resolve keeps_env_wrt_pidfile keeps_env_take_lock
  keeps_env_rd_pidfile : keeps_env.

Lemma keeps_env_reopen_server : keeps (env_kept P) reopen_server.
Proof. unfold reopen_server, emit. env_auto. Qed.

Lemma keeps_env_client (argv : list string) :
  keeps (env_kept P) (client argv).
Proof. unfold client, emit. env_auto. Qed.

#[local] Hint Resolve keeps_env_reopen_server keeps_env_client : keeps_env.

Section Spawning.
  Hypothesis P_spawn : forall env0 cmd, P env0 (EPopen cmd env0).

(** The one place where a command is spawned: it gets the environment of
    the moment. *)
Lemma keeps_env_open_src (argv : list string) :
  keeps (env_kept P) (open_src argv).
Proof.
  unfold open_src.
  apply (keeps_bind _ env_kept_trans); [env_auto|]. intros s0.
  apply (keeps_bind _ env_kept_trans); [env_auto|]. intros _.
  apply (keeps_bind _ env_kept_trans); [env_auto|]. intros s1.
  destruct (negb (src s1 =? 0) || (cnt s1 =? 0)); [env_auto|].
  apply (keeps_bind _ env_kept_trans); [env_auto|]. intros r.
  apply (keeps_bind _ env_kept_trans); [env_auto|]. intros _.
  intros s. unfold bind, get.
  destruct (src s =? 0); [apply keeps_env_die|].
  repeat split; auto. eexists [_]. split; [reflexivity|].
  constructor; [|constructor]. apply P_spawn.
Qed.

Lemma keeps_env_fread_retry (n : nat) : keeps (env_kept P) (fread_retry n).
Proof. induction n as [|n IH]; simpl; env_auto. Qed.

Lemma keeps_env_alloc_buffer : keeps (env_kept P) alloc_buffer.
Proof. unfold alloc_buffer. env_auto. Qed.

#[local] Hint Resolve keeps_env_check_for_new_clients keeps_env_open_src
  keeps_env_fread_retry keeps_env_alloc_buffer : keeps_env.

Lemma keeps_env_read_buf : keeps (env_kept P) read_buf.
Proof. unfold read_buf. env_auto. Qed.

Lemma keeps_env_write_all (n : nat) (d off nr : Z) :
  keeps (env_kept P) (write_all n d off nr).
Proof.
  revert off nr. induction n as [|n IH]; intros off nr; simpl;
    unfold emit; env_auto.
Qed.

Lemma keeps_env_drop_client (i : Z) : keeps (env_kept P) (drop_client i).
Proof. unfold drop_client. env_auto. Qed.

#[local] Hint Resolve keeps_env_read_buf keeps_env_write_all
  keeps_env_drop_client : keeps_env.

Lemma keeps_env_write_clients (n : nat) (i : Z) :
  keeps (env_kept P) (write_clients n i).
Proof. revert i. induction n as [|n IH]; intros i; simpl; env_auto. Qed.

#[local] Hint Resolve keeps_env_write_clients : keeps_env.

Lemma keeps_env_write_buf : keeps (env_kept P) write_buf.
Proof. unfold write_buf. env_auto. Qed.

#[local] Hint Resolve keeps_env_write_buf : keeps_env.

Lemma keeps_env_server_round (argv : list string) :
  keeps (env_kept P) (server_round argv).
Proof. unfold server_round. env_auto. Qed.

#[local] Hint Resolve keeps_env_server_round : keeps_env.

Lemma keeps_env_server_loop (n : nat) (argv : list string) :
  keeps (env_kept P) (server_loop n argv).
Proof. induction n as [|n IH]; simpl; env_auto. Qed.

End Spawning.
End EnvKept.

(** *** The marker [_DELIVERY_PID] *)

Lemma getenv_app_absent (name value : string)
    (env : list (string * string)) :
  env_has name env = false ->
  getenv name (env ++ [(name, value)]) = Some value.
Proof.
  unfold getenv, env_has.
  induction env as [|[k v] env IH]; simpl.
  - by rewrite String.eqb_refl.
  - destruct (String.eqb k name); simpl; [discriminate|]. exact IH.
Qed.

Lemma getenv_present (name : string) (env : list (string * string)) :
  env_has name env = true -> exists v, getenv name env = Some v.
Proof.
  unfold getenv, env_has.
  induction env as [|[k v] env IH]; simpl; [discriminate|].
  destruct (String.eqb k name); simpl; eauto.
Qed.

Lemma getenv_absent (name : string) (env : list (string * string)) :
  env_has name env = false -> getenv name env = None.
Proof.
  unfold getenv, env_has.
  induction env as [|[k v] env IH]; simpl; [done|].
  destruct (String.eqb k name); simpl; [discriminate|]. exact IH.
Qed.

(** The marker the spawned command finds: the value inherited with the
    environment when there is one, the identifier of this process
    otherwise. *)
Lemma getenv_marked (s : State) :
  getenv DELIVERYPID (marked s)
  = Some (default (fmt_d (pid s)) (getenv DELIVERYPID (environ s))).
Proof.
  unfold marked. destruct (env_has DELIVERYPID (environ s)) eqn:E.
  - destruct (getenv_present _ _ E) as [v Hv]. by rewrite Hv.
  - rewrite getenv_app_absent by exact E.
    by rewrite (getenv_absent _ _ E).
Qed.

Lemma never_spawns_other (env0 : list (string * string)) (e : event) :
  (forall cmd env, e <> EPopen cmd env) -> never_spawns env0 e.
Proof. auto. Qed.

Lemma spawned_with_other (env0 : list (string * string)) (e : event) :
  (forall cmd env, e <> EPopen cmd env) -> spawned_with env0 e.
Proof. intros H cmd env ->. by destruct (H cmd env). Qed.

Lemma spawned_with_spawn (env0 : list (string * string)) (cmd : string) :
  spawned_with env0 (EPopen cmd env0).
Proof. by intros c env [= _ <-]. Qed.

Lemma keeps_served_quiet {A : Type} (m : M A) :
  keeps (env_kept never_spawns) m -> keeps served m.
Proof. intros H s. left. apply H. Qed.

Lemma keeps_served_bind {A B : Type} (m : M A) (k : A -> M B) :
  keeps (env_kept never_spawns) m ->
  (forall a, keeps served (k a)) ->
  keeps served (bind m k).
Proof.
  intros Hm Hk s. unfold bind. specialize (Hm s).
  destruct (m s) as [a s1| | | |]; simpl in *; try (left; exact Hm).
  destruct (Hk a s1) as [Hq|(s2 & s3 & Hq & He & Hp & Ht & Hs)].
  - left. eapply env_kept_trans; eauto.
  - right. exists s2, s3. split; [|auto].
    eapply env_kept_trans; eauto.
Qed.

Lemma keeps_served_serve (argv : list string) : keeps served (serve argv).
Proof.
  intros s. right. exists s.
  set (rest := (wrt_pidfile;; s1 <- get;;
                server_loop (S (length (oracle s1 SFread))) argv;;
                @die Z (Some "") 0)).
  assert (Hrest : keeps (env_kept spawned_with) rest).
  { apply (keeps_bind _ (env_kept_trans _));
      [apply keeps_env_wrt_pidfile, spawned_with_other|]. intros _.
    apply (keeps_bind _ (env_kept_trans _));
      [apply keeps_get, env_kept_refl|]. intros s1.
    apply (keeps_bind _ (env_kept_trans _));
      [apply keeps_env_server_loop;
         [apply spawned_with_other | apply spawned_with_spawn]|].
    intros _. apply keeps_env_die, spawned_with_other. }
  destruct (env_has DELIVERYPID (environ s)) eqn:E.
  - exists s.
    assert (Heq : serve argv s = rest s).
    { unfold serve, setenv, bind, get, modify. rewrite E. reflexivity. }
    rewrite Heq. unfold marked. rewrite E.
    split; [apply env_kept_refl|].
    do 3 (split; [reflexivity|]). apply Hrest.
  - exists (set_environ (environ s ++ [(DELIVERYPID, fmt_d (pid s))]) s).
    assert (Heq : serve argv s
                  = rest (set_environ
                            (environ s ++ [(DELIVERYPID, fmt_d (pid s))]) s)).
    { unfold serve, setenv, bind, get, modify. rewrite E. reflexivity. }
    rewrite Heq. unfold marked. rewrite E.
    split; [apply env_kept_refl|].
    do 3 (split; [reflexivity|]). apply Hrest.
Qed.

Lemma bind_ret_eq {A B : Type} (m : M A) (k : A -> M B) (s s1 : State)
    (a : A) :
  m s = Ret a s1 -> bind m k s = k a s1.
Proof. intros H. unfold bind. by rewrite H. Qed.

Ltac quiet :=
  first
    [ apply keeps_modify; intros; apply env_kept_silent; reflexivity
    | apply keeps_ret, env_kept_refl
    | apply keeps_env_exit, never_spawns_other
    | apply keeps_env_die, never_spawns_other
    | apply keeps_env_reopen_server, never_spawns_other
    | apply keeps_env_client, never_spawns_other
    | apply keeps_env_take_lock, never_spawns_other ].

(** Whatever [main] does once the name of the instance is known. *)
Lemma main_served (inv : Invocation) (s s1 : State) (name : string) :
  bad_option inv = false ->
  instance_name inv s = Ret name s1 ->
  served s1 (final (main inv s)).
Proof.
  intros Hbad Hname. unfold main. rewrite Hbad.
  erewrite bind_ret_eq by reflexivity.
  erewrite bind_ret_eq by exact Hname.
  match goal with |- served s1 (final (?m s1)) =>
    assert (Hk : keeps served m); [|exact (Hk s1)]
  end.
  apply keeps_served_bind; [quiet|]. intros _.
  apply keeps_served_bind; [quiet|]. intros _.
  destruct (opt_dryrun inv); [apply keeps_served_quiet; quiet|].
  apply keeps_served_bind; [destruct (opt_restart inv); quiet|]. intros _.
  apply keeps_served_bind; [destruct (opt_client inv); quiet|]. intros _.
  apply keeps_served_bind; [destruct (opt_restart inv); quiet|]. intros _.
  destruct (Z.of_nat (length (args inv)) =? 0);
    [apply keeps_served_quiet; quiet|].
  apply keeps_served_bind; [quiet|]. intros _.
  apply keeps_served_serve.
Qed.

Lemma instance_name_returns (inv : Invocation) (s s1 : State)
    (name : string) :
  instance_name inv s = Ret name s1 ->
  environ s1 = environ s /\ pid s1 = pid s /\
  fs s1 = fs s /\ locked s1 = locked s /\ atexit_fns s1 = atexit_fns s /\
  cnt s1 = cnt s /\ fd s1 = fd s /\
  (trace s1 = trace s \/
   exists h, trace s1 = (trace s ++ [EPopen checksum_command (environ s);
                                     EPclose h])%list).
Proof.
  unfold instance_name. destruct (opt_name inv) as [n|].
  - intros [= <- <-]. repeat split; auto.
  - intros H.
    apply bind_ret_inv in H as (r & s2 & Hc & H).
    apply call_ret_inv in Hc as (rs & Ho & ->).
    apply bind_ret_inv in H as (? & ? & [= <- <-] & H).
    destruct r as [h|e]; simpl in H;
      [|by apply die_never_returns in H].
    destruct (h =? 0); [by apply die_never_returns in H|].
    apply bind_ret_inv in H as ([] & s3 & [= <-] & H).
    apply bind_ret_inv in H as (r' & s4 & Hc & H).
    apply call_ret_inv in Hc as (rs' & Ho' & ->).
    destruct r' as [v|e]; simpl in H;
      [|by apply die_never_returns in H].
    injection H as <- <-. simpl.
    repeat split; auto. right. exists h. by rewrite <- app_assoc.
Qed.

(** C9, as the code has it.  Every command spawned by [main] once the
    name of the instance is known -- that is, every spawn of the producer
    -- finds [_DELIVERY_PID] in its environment.  Its value is the
    identifier of this server process when the server was started without
    the variable; a value the server inherited is passed on unchanged,
    [setenv] being called with [overwrite] 0. *)
Theorem spawned_command_sees_marker (inv : Invocation) (s s1 : State)
    (name cmd : string) (env : list (string * string)) :
  bad_option inv = false ->
  instance_name inv s = Ret name s1 ->
  EPopen cmd env ∈ drop (length (trace s1)) (trace (final (main inv s))) ->
  getenv DELIVERYPID env
  = Some (default (fmt_d (pid s)) (getenv DELIVERYPID (environ s))).
Proof.
  intros Hbad Hname Hin.
  destruct (instance_name_returns inv s s1 name Hname) as (He & Hp & _).
  pose proof (main_served inv s s1 name Hbad Hname) as Hserved.
  rewrite <- He, <- Hp, <- getenv_marked.
  destruct Hserved as [(_ & _ & evs & Htr & Hev)
                      |(s2 & s3 & (He2 & Hp2 & evs2 & Htr2 & Hev2) & He3 & Hp3
                        & Htr3 & (_ & _ & evs3 & Htr4 & Hev3))].
  - rewrite Htr, drop_app_length in Hin.
    rewrite Forall_forall in Hev. by destruct (Hev _ Hin cmd env).
  - rewrite Htr4, Htr3, Htr2, <- app_assoc, drop_app_length in Hin.
    apply elem_of_app in Hin as [Hin|Hin].
    + rewrite Forall_forall in Hev2. by destruct (Hev2 _ Hin cmd env).
    + rewrite Forall_forall in Hev3.
      rewrite (Hev3 _ Hin cmd env eq_refl), He3.
      unfold marked. by rewrite He2, Hp2.
Qed.

(** ** The blocking mode over the rounds of the server *)

Section Returns.
  Variable R : State -> State -> Prop.
  Hypothesis R_refl : forall s, R s s.
  Hypothesis R_trans : forall s1 s2 s3, R s1 s2 -> R s2 s3 -> R s1 s3.

Lemma returns_ret {A : Type} (a : A) : returns R (ret a).
Proof. intros s a' s' [= _ <-]. apply R_refl. Qed.

Lemma returns_get : returns R get.
Proof. intros s a' s' [= _ <-]. apply R_refl. Qed.

Lemma returns_bind {A B : Type} (m : M A) (k : A -> M B) :
  returns R m -> (forall a, returns R (k a)) -> returns R (bind m k).
Proof.
  intros Hm Hk s b s' H.
  apply bind_ret_inv in H as (a & s1 & H1 & H2).
  eapply R_trans; [eapply Hm, H1 | eapply Hk, H2].
Qed.

Lemma returns_modify (f : State -> State) :
  (forall s, R s (f s)) -> returns R (modify f).
Proof.
  intros H s a s' Heq. injection Heq as _ Hf. rewrite <- Hf. apply H.
Qed.

Lemma returns_call (k : sys) :
  (forall s r rs, R s (answered k r rs s)) -> returns R (call k).
Proof.
  intros H s r s' Hc. apply call_ret_inv in Hc as (rs & _ & ->). apply H.
Qed.

Lemma returns_die {A : Type} (message : option string) (e : Z) :
  returns R (@die A message e).
Proof. intros s a s' H. by apply die_never_returns in H. Qed.

Lemma returns_stop {A : Type} (f : State -> outcome A) :
  (forall s a s', f s <> Ret a s') -> returns R f.
Proof. intros H s a s' Hf. by apply H in Hf. Qed.
End Returns.

Lemma mode_kept_refl (s : State) : mode_kept s s.
Proof. by split. Qed.

Lemma mode_kept_trans (s1 s2 s3 : State) :
  mode_kept s1 s2 -> mode_kept s2 s3 -> mode_kept s1 s3.
Proof. intros [? ?] [? ?]. split; congruence. Qed.

Create HintDb returns_mode.

Ltac mode_step :=
  match goal with
  | |- returns _ _ => solve [auto with returns_mode nocore]
  | |- returns _ (bind _ _) => apply (returns_bind _ mode_kept_trans)
  | |- returns _ (ret _) => apply (returns_ret _ mode_kept_refl)
  | |- returns _ get => apply (returns_get _ mode_kept_refl)
  | |- returns _ (die _ _) => apply returns_die
  | |- returns _ (call _) =>
      apply returns_call; intros ? [] ?; split; reflexivity
  | |- returns _ (modify _) =>
      apply returns_modify; intros; split; reflexivity
  | |- returns _ (emit _) =>
      apply returns_modify; intros; split; reflexivity
  | |- returns _ (sys_close _) =>
      apply returns_modify; intros; split; reflexivity
  | |- returns _ (fun s => Hang s) => apply returns_stop; discriminate
  | |- returns _ (fun s => Abort s) => apply returns_stop; discriminate
  | |- returns _ (if ?b then _ else _) => destruct b
  | |- returns _ (match ?x with _ => _ end) => destruct x
  | |- forall _ : _, returns _ _ => intro
  end.

Lemma returns_mode_open_src (argv : list string) :
  returns mode_kept (open_src argv).
Proof. unfold open_src, close_src. repeat mode_step. Qed.

Lemma returns_mode_fread_retry (n : nat) :
  returns mode_kept (fread_retry n).
Proof. induction n as [|n IH]; simpl; repeat mode_step. Qed.

#[local] Hint Resolve returns_mode_open_src returns_mode_fread_retry
  : returns_mode.

Lemma returns_mode_read_buf : returns mode_kept read_buf.
Proof. unfold read_buf, alloc_buffer. repeat mode_step. Qed.

Lemma returns_mode_write_all (n : nat) (d off nr : Z) :
  returns mode_kept (write_all n d off nr).
Proof.
  revert off nr. induction n as [|n IH]; intros off nr; simpl;
    repeat mode_step.
Qed.

#[local] Hint Resolve returns_mode_write_all : returns_mode.

Lemma returns_mode_write_clients (n : nat) (i : Z) :
  returns mode_kept (write_clients n i).
Proof.
  revert i. induction n as [|n IH]; intros i; simpl; unfold drop_client;
    repeat mode_step.
Qed.

#[local] Hint Resolve returns_mode_write_clients : returns_mode.

Lemma returns_mode_write_buf : returns mode_kept write_buf.
Proof. unfold write_buf. repeat mode_step. Qed.

(** A round that returns has had a client when the acceptor returned. *)
Lemma round_had_client (argv : list string) (s1 s2 : State) (b : bool)
    (s3 : State) :
  open_src argv s1 = Ret tt s2 -> read_buf s2 = Ret b s3 -> cnt s1 <> 0.
Proof.
  intros Ho Hr Hz.
  destruct (open_src_idle argv s1 Hz) as (s' & Hrun & Hsrc & _).
  rewrite Hrun in Ho. injection Ho as <-.
  unfold read_buf, bind, get in Hr. rewrite Hsrc in Hr.
  replace (0 =? 0) with true in Hr by reflexivity. discriminate Hr.
Qed.

(** Once the socket exists, a round of the server that returns leaves it
    non-blocking: the next round enters the acceptor with the socket in
    the mode the acceptor expects when there are clients, whatever the
    broadcast has left of the registry. *)
Lemma round_leaves_socket_nonblocking (argv : list string) (s s' : State) :
  src_fd s <> 0 ->
  0 <= cnt s <= MAXCLIENT ->
  Z.of_nat (length (fd s)) = MAXCLIENT ->
  (cnt s <> 0 -> ~ is_blocking s (src_fd s)) ->
  Forall (fun r => r <> ROk (src_fd s)) (oracle s SAccept) ->
  server_round argv s = Ret tt s' ->
  src_fd s' = src_fd s /\ ~ is_blocking s' (src_fd s').
Proof.
  intros Hsock Hc Hlen Hnb Hok Hround.
  unfold server_round, check_for_new_clients, listen_setup in Hround.
  apply bind_ret_inv in Hround as ([] & s1 & H1 & Hround).
  apply bind_ret_inv in H1 as ([] & s0 & H0 & H1).
  apply bind_ret_inv in H0 as (? & ? & [= <- <-] & H0).
  destruct (src_fd s =? 0) eqn:E; [lia|]. injection H0 as <-.
  apply bind_ret_inv in Hround as ([] & s2 & H2 & Hround).
  apply bind_ret_inv in Hround as (b & s3 & H3 & Hround).
  destruct (read_buf_returns_true _ _ _ H3) as [-> _].
  pose proof (round_had_client argv s1 s2 true s3 H2 H3) as Hcnt.
  destruct (accept_clients_inv s s1 Hc Hlen Hnb Hok H1) as (Hiff & Hl & _).
  rewrite <- Hl in Hiff.
  destruct (returns_mode_open_src argv _ _ _ H2) as [Hfl2 Hs2].
  destruct (returns_mode_read_buf _ _ _ H3) as [Hfl3 Hs3].
  destruct (returns_mode_write_buf _ _ _ Hround) as [Hfl4 Hs4].
  split; [congruence|].
  unfold is_blocking in *. rewrite Hfl4, Hfl3, Hfl2, Hs4, Hs3, Hs2.
  intros Hb. apply Hiff in Hb. contradiction.
Qed.

(** ** A second instance *)


(** ** The restart invocation *)



(** * Further properties of the code *)

(** ** The command line of the source *)

Lemma append_assoc (a b c : string) : (a +:+ b) +:+ c = a +:+ b +:+ c.
Proof.
  induction a as [|x a IH]; [reflexivity|].
  change (String x ((a +:+ b) +:+ c) = String x (a +:+ b +:+ c)).
  by rewrite IH.
Qed.

Lemma append_empty_r (a : string) : a +:+ "" = a.
Proof.
  induction a as [|x a IH]; [reflexivity|].
  change (String x (a +:+ "") = String x a). by rewrite IH.
Qed.

Lemma join_argv_from (i : nat) (cp : string) (argv : list string) :
  join_argv (S i) cp argv
  = cp +:+ foldr (fun a acc => " " +:+ a +:+ acc) "" argv.
Proof.
  revert i cp. induction argv as [|a argv IH]; intros i cp; simpl.
  - by rewrite append_empty_r.
  - rewrite IH. by rewrite !append_assoc.
Qed.

Lemma concat_cons (a : string) (argv : list string) :
  String.concat " " (a :: argv)
  = a +:+ foldr (fun a acc => " " +:+ a +:+ acc) "" argv.
Proof.
  revert a. induction argv as [|b argv IH]; intros a.
  - simpl. by rewrite append_empty_r.
  - change (String.concat " " (a :: b :: argv))
      with (a +:+ " " +:+ String.concat " " (b :: argv)).
    rewrite IH. reflexivity.
Qed.

(** X3.  The command line [open_src] builds for [popen] is the argument
    vector joined by single blanks: nothing before the first argument,
    nothing after the last, no quoting. *)
Theorem join_argv_blank_separated (argv : list string) :
  join_argv 0 "" argv = String.concat " " argv.
Proof.
  destruct argv as [|a argv]; [reflexivity|].
  rewrite concat_cons. simpl. apply join_argv_from.
Qed.

(** ** The source manager, whenever it returns and when the spawn fails *)

(** X4.  Whenever [open_src] returns, the source is open exactly when there
    is a client, no restart is pending any more, and the registry is what
    it was.  This is what the [assert(src)] of [read_buf] relies on. *)
Theorem open_src_source_iff_clients (argv : list string) (s s' : State) :
  open_src argv s = Ret tt s' ->
  (src s' <> 0 <-> cnt s' <> 0) /\ reopen s' = 0 /\
  cnt s' = cnt s /\ fd s' = fd s.
Proof.
  unfold open_src, close_src. intros H.
  apply bind_ret_inv in H as (? & ? & [= <- <-] & H).
  apply bind_ret_inv in H as ([] & s1 & H1 & H).
  assert (Hs1 : cnt s1 = cnt s /\ fd s1 = fd s /\ reopen s1 = 0 /\
                (src s1 = 0 \/ cnt s1 <> 0)).
  { destruct (reopen s =? 0) eqn:Er; destruct (cnt s =? 0) eqn:Ec;
      simpl in H1; revert H1; go; destruct (src s =? 0) eqn:Es; go;
      intros [= <-]; simpl; repeat split; auto; lia. }
  destruct Hs1 as (Hc & Hf & Hr & Hor). clear H1.
  apply bind_ret_inv in H as (? & ? & [= <- <-] & H).
  destruct (negb (src s1 =? 0) || (cnt s1 =? 0)) eqn:E.
  - injection H as <-. repeat split; auto; lia.
  - apply bind_ret_inv in H as (r & s2 & Hcall & H).
    apply call_ret_inv in Hcall as (rs & Ho & ->).
    apply bind_ret_inv in H as ([] & s3 & [= <-] & H).
    apply bind_ret_inv in H as (? & ? & [= <- <-] & H).
    revert H. simpl.
    destruct (ptr_of r =? 0) eqn:Ep; [by intros H%die_never_returns|].
    go. intros [= <-]. destruct r; simpl in *; repeat split; auto; lia.
Qed.

Lemma spawns_die_events (s : State) : spawns (die_events s) = 0%nat.
Proof.
  unfold die_events. rewrite !spawns_app.
  assert (Hc : forall l, spawns (map EClose l) = 0%nat)
    by (induction l; simpl; auto).
  assert (Hh : forall hs, spawns (map (handler_event s) hs) = 0%nat)
    by (induction hs as [|[] hs IH]; simpl; auto).
  rewrite Hc, Hh. destruct (src_fd s =? 0), (src s =? 0); reflexivity.
Qed.

(** The calls of [die] depend on the statics it reads and on the
    registered functions only. *)
Lemma die_events_ext (s t : State) :
  src_fd t = src_fd s -> SOCKFILE t = SOCKFILE s -> PIDFILE t = PIDFILE s ->
  src t = src s -> fd t = fd s -> cnt t = cnt s ->
  atexit_fns t = atexit_fns s ->
  die_events t = die_events s.
Proof.
  intros H1 H2 H3 H4 H5 H6 H7. unfold die_events, registry.
  rewrite H1, H2, H3, H4, H5, H6, H7.
  do 4 f_equal. apply map_ext. intros []; simpl; congruence.
Qed.

(** X5.  When the command cannot be spawned -- [popen] returns [NULL] --
    the server dies with the status [EBADF], whatever [errno] says: the
    old source is closed first if a restart was pending, nothing is
    spawned, and the whole cleanup of [die] runs. *)
Theorem open_src_popen_failure (argv : list string) (s : State) (r : resp)
    (rs : list resp) :
  0 <= cnt s <= Z.of_nat (length (fd s)) ->
  cnt s <> 0 -> src s = 0 \/ reopen s <> 0 ->
  oracle s SPopen = r :: rs -> ptr_of r = 0 ->
  exists s',
    open_src argv s = Exit EBADF s' /\
    trace s' = (trace s ++ (if src s =? 0 then [] else [EPclose (src s)]) ++
                die_events (set_src 0 s))%list /\
    spawns (drop (length (trace s)) (trace s')) = 0%nat /\
    cnt s' = 0 /\ src s' = 0 /\ src_fd s' = 0.
Proof.
  intros Hc Hcnt Hor Ho Hp.
  assert (E : (cnt s =? 0) = false) by lia.
  assert (Hclose : exists s1,
            (if negb (reopen s =? 0) || (cnt s =? 0) then close_src
             else ret tt) s = Ret tt s1 /\
            src s1 = 0 /\ cnt s1 = cnt s /\ fd s1 = fd s /\
            src_fd s1 = src_fd s /\ SOCKFILE s1 = SOCKFILE s /\
            PIDFILE s1 = PIDFILE s /\ atexit_fns s1 = atexit_fns s /\
            oracle s1 = oracle s /\
            trace s1 = (trace s ++
                        if src s =? 0 then [] else [EPclose (src s)])%list).
  { rewrite E, orb_false_r. unfold close_src.
    destruct (reopen s =? 0) eqn:Er; simpl.
    - exists s. destruct Hor as [Hs|Hr]; [|lia].
      rewrite Hs. simpl. rewrite app_nil_r. by repeat split.
    - run. destruct (src s =? 0) eqn:Es; run; eexists;
        (split; [reflexivity|]); simpl; rewrite ?app_nil_r;
        repeat split; auto; lia. }
  destruct Hclose as (s1 & Hrun1 & Hs1 & Hc1 & Hf1 & Hsf1 & Hk1 & Hp1 & Ha1
                      & Ho1 & Ht1).
  remember (set_src (ptr_of r) (answered SPopen r rs s1)) as s2 eqn:Es2.
  assert (Hs2 : src s2 = 0 /\ cnt s2 = cnt s /\ fd s2 = fd s /\
                src_fd s2 = src_fd s /\ SOCKFILE s2 = SOCKFILE s /\
                PIDFILE s2 = PIDFILE s /\ atexit_fns s2 = atexit_fns s /\
                trace s2 = trace s1).
  { rewrite Es2. destruct r; simpl in *; repeat split; auto. }
  destruct Hs2 as (Hs2 & Hc2 & Hf2 & Hsf2 & Hk2 & Hp2 & Ha2 & Ht2).
  destruct (@die_spec unit (head argv) EBADF s2)
    as (s' & Hdie & Htr & _ & H0 & H1 & H2 & _); [rewrite Hc2, Hf2; lia|].
  assert (Hev : die_events s2 = die_events (set_src 0 s))
    by (apply die_events_ext; simpl; congruence).
  exists s'. split.
  - unfold open_src.
    erewrite bind_ret_eq by reflexivity.
    erewrite bind_ret_eq by exact Hrun1.
    erewrite bind_ret_eq by reflexivity.
    rewrite Hs1, Hc1, E. simpl.
    erewrite bind_ret_eq by (apply call_eq; rewrite Ho1; exact Ho).
    erewrite bind_ret_eq by reflexivity.
    erewrite bind_ret_eq by reflexivity.
    rewrite <- Es2, Hs2. exact Hdie.
  - rewrite Htr, Ht2, Ht1, Hev, <- app_assoc.
    split; [reflexivity|]. split; [|by repeat split].
    rewrite drop_app_length, spawns_app, spawns_die_events.
    destruct (src s =? 0); reflexivity.
Qed.

(** ** What [die] closes *)

Lemma closed_closes (l : list Z) : closed (map EClose l) = l.
Proof. induction l as [|d l IH]; simpl; [done|]. by rewrite IH. Qed.

Lemma closed_handlers (s : State) (hs : list handler) :
  closed (map (handler_event s) hs) = [].
Proof. induction hs as [|[] hs IH]; simpl; done. Qed.

Lemma closed_die_events (s : State) :
  closed (die_events s)
  = ((if src_fd s =? 0 then [] else [src_fd s]) ++ reverse (registry s))%list.
Proof.
  unfold die_events.
  rewrite !closed_app, closed_closes, closed_handlers, app_nil_r.
  destruct (src_fd s =? 0), (src s =? 0); reflexivity.
Qed.

(** With no source open [die] does not call [pclose]. *)
Lemma die_events_no_pclose (s : State) (h : Z) :
  src s = 0 -> EPclose h ∉ die_events s.
Proof.
  intros Hsrc. unfold die_events. rewrite Hsrc.
  replace (0 =? 0) with true by reflexivity.
  rewrite !elem_of_app, !elem_of_cons, !list_elem_of_fmap.
  destruct (src_fd s =? 0);
    rewrite ?elem_of_cons, ?elem_of_nil;
    intros H; repeat destruct H as [H|H]; try discriminate; try done;
    destruct H as (y & Hy & _); try discriminate; by destruct y.
Qed.

(** X6.  With no source open, [die] closes what the process holds and
    ends it: the listening socket if there is one, then every registered
    client exactly once, from the last to the first; [pclose] is not
    called; the process exits with the status given and the statics are
    reset. *)
Theorem die_closes_every_descriptor (A : Type) (message : option string)
    (e : Z) (s : State) :
  src s = 0 ->
  0 <= cnt s <= Z.of_nat (length (fd s)) ->
  exists s',
    @die A message e s = Exit e s' /\
    closed (drop (length (trace s)) (trace s'))
    = ((if src_fd s =? 0 then [] else [src_fd s]) ++ reverse (registry s))%list /\
    (forall h, EPclose h ∉ drop (length (trace s)) (trace s')) /\
    cnt s' = 0 /\ src s' = 0 /\ src_fd s' = 0 /\ reopen s' = 0.
Proof.
  intros Hsrc Hc.
  destruct (@die_spec A message e s Hc) as (s' & Hdie & Htr & _ & Hrest).
  exists s'. split; [exact Hdie|].
  rewrite Htr, drop_app_length. split; [apply closed_die_events|].
  split; [|exact Hrest].
  intros h. by apply die_events_no_pclose.
Qed.

(** ** The mode of a descriptor *)

Lemma nonblock_bit (n : Z) : Z.testbit O_NONBLOCK n = (n =? 11).
Proof.
  destruct (Z.ltb_spec n 0) as [Hn|Hn].
  - rewrite Z.testbit_neg_r by exact Hn. symmetry. apply Z.eqb_neq. lia.
  - change O_NONBLOCK with (2 ^ 11). rewrite Z.pow2_bits_eqb by lia.
    apply Z.eqb_sym.
Qed.

(** X7.  [mk_blocking] that returns has cleared [O_NONBLOCK] (bit 11) on
    the descriptor and changed nothing else: the other flag bits of the
    descriptor, the flags of the other descriptors, the registry. *)
Theorem mk_blocking_clears_one_bit (d : Z) (s s' : State) :
  mk_blocking d s = Ret tt s' ->
  is_blocking s' d /\
  (forall n, n <> 11 -> Z.testbit (fl s' d) n = Z.testbit (fl s d) n) /\
  (forall d', d' <> d -> fl s' d' = fl s d') /\
  cnt s' = cnt s /\ fd s' = fd s /\ trace s' = trace s.
Proof.
  intros H.
  apply mk_blocking_returns in H as (Hfl & Hc & Hf & _ & _ & Ht).
  rewrite Hfl. unfold is_blocking. rewrite Hfl, fn_lookup_insert.
  split; [apply land_clear|]. split; [|split; [|done]].
  - intros n Hn. destruct (Z.ltb_spec n 0) as [Hneg|Hpos].
    + by rewrite !Z.testbit_neg_r.
    + rewrite Z.land_spec, Z.lnot_spec, nonblock_bit by exact Hpos.
      destruct (n =? 11) eqn:E; [lia|]. apply andb_true_r.
  - intros d' Hd. by rewrite fn_lookup_insert_ne.
Qed.

(** X8.  [mk_nonblocking] that returns has set [O_NONBLOCK] on the
    descriptor and changed nothing else. *)
Theorem mk_nonblocking_sets_one_bit (d : Z) (s s' : State) :
  mk_nonblocking d s = Ret tt s' ->
  ~ is_blocking s' d /\
  (forall n, n <> 11 -> Z.testbit (fl s' d) n = Z.testbit (fl s d) n) /\
  (forall d', d' <> d -> fl s' d' = fl s d') /\
  cnt s' = cnt s /\ fd s' = fd s /\ trace s' = trace s.
Proof.
  intros H.
  apply mk_nonblocking_returns in H as (Hfl & Hc & Hf & _ & _ & Ht).
  rewrite Hfl. unfold is_blocking. rewrite Hfl, fn_lookup_insert.
  split; [rewrite land_set; discriminate|]. split; [|split; [|done]].
  - intros n Hn.
    rewrite Z.lor_spec, nonblock_bit.
    destruct (n =? 11) eqn:E; [lia|]. apply orb_false_r.
  - intros d' Hd. by rewrite fn_lookup_insert_ne.
Qed.

(** X9.  Switching a blocking descriptor to non-blocking and back gives
    every descriptor the flags it had. *)
Theorem blocking_mode_round_trip (d : Z) (s s' : State) :
  is_blocking s d ->
  (mk_nonblocking d;; mk_blocking d) s = Ret tt s' ->
  forall x, fl s' x = fl s x.
Proof.
  intros Hb H x.
  apply bind_ret_inv in H as ([] & s1 & H1 & H2).
  apply mk_nonblocking_returns in H1 as (Hfl1 & _).
  apply mk_blocking_returns in H2 as (Hfl2 & _).
  rewrite Hfl2, Hfl1.
  destruct (decide (d = x)) as [->|Hne].
  - rewrite !fn_lookup_insert. unfold is_blocking in Hb.
    apply Z.bits_inj. intros n.
    destruct (Z.ltb_spec n 0) as [Hneg|Hpos];
      [by rewrite !Z.testbit_neg_r|].
    rewrite Z.land_spec, Z.lnot_spec, Z.lor_spec by exact Hpos.
    assert (Hn : Z.testbit (Z.land (fl s x) O_NONBLOCK) n = false)
      by (rewrite Hb; apply Z.bits_0).
    rewrite Z.land_spec in Hn.
    destruct (Z.testbit (fl s x) n), (Z.testbit O_NONBLOCK n);
      simpl in *; congruence.
  - by rewrite !fn_lookup_insert_ne.
Qed.

(** ** Reading the PID file *)

(** X10.  [rd_pidfile] returns only a process identifier that was read
    from the file, is positive, and answered the probe [kill(pid, 0)]; the
    probe is its only call on the outside, and no file is touched. *)
Theorem rd_pidfile_returns_live_pid (s s' : State) (p : Z) :
  rd_pidfile s = Ret p s' ->
  0 < p /\
  (exists rs, oracle s SFscanf = ROk p :: rs) /\
  (exists v rs, oracle s SKill = ROk v :: rs) /\
  trace s' = (trace s ++ [EKill p 0])%list /\
  fs s' = fs s /\ atexit_fns s' = atexit_fns s.
Proof.
  unfold rd_pidfile. intros H.
  apply bind_ret_inv in H as (r1 & s1 & Hc1 & H).
  apply call_ret_inv in Hc1 as (rs1 & Ho1 & ->).
  apply bind_ret_inv in H as (? & ? & [= <- <-] & H).
  destruct (ptr_of r1 =? 0); [by apply die_never_returns in H|].
  apply bind_ret_inv in H as (r2 & s2 & Hc2 & H).
  apply call_ret_inv in Hc2 as (rs2 & Ho2 & ->).
  destruct r2 as [q|e]; [|by apply die_never_returns in H].
  destruct (q <=? 0) eqn:Eq; [by apply die_never_returns in H|].
  apply bind_ret_inv in H as (r3 & s3 & Hc3 & H).
  apply call_ret_inv in Hc3 as (rs3 & Ho3 & ->).
  apply bind_ret_inv in H as ([] & s4 & [= <-] & H).
  destruct r3 as [v|e]; simpl in H; [|by apply die_never_returns in H].
  injection H as <- <-.
  split; [lia|].
  split. { exists rs2. rewrite <- Ho2. destruct r1; simpl;
           rewrite fn_lookup_insert_ne by discriminate; reflexivity. }
  split. { exists v, rs3. rewrite <- Ho3. destruct r1; simpl;
           rewrite !fn_lookup_insert_ne by discriminate; reflexivity. }
  destruct r1; simpl; auto.
Qed.

(** X11.  A PID file that can be opened but holds no number, a number that
    is not positive, or the identifier of a process that does not answer
    the probe, is fatal with the status [EINVAL]; on the way out [die]
    unlinks the socket file and the PID file, and no signal other than the
    probe is sent. *)
Theorem rd_pidfile_rejects (s : State) (h : Z) (r : resp)
    (rs1 rs2 : list resp) :
  0 <= cnt s <= Z.of_nat (length (fd s)) ->
  oracle s SFopen = ROk h :: rs1 -> h <> 0 ->
  oracle s SFscanf = r :: rs2 ->
  match r with
  | RErr _ => True
  | ROk p => p <= 0 \/ exists e rs3, oracle s SKill = RErr e :: rs3
  end ->
  exists s',
    rd_pidfile s = Exit EINVAL s' /\
    (forall x, x ∈ fs s' <->
       x ∈ fs s /\ Some x <> SOCKFILE s /\ Some x <> PIDFILE s) /\
    forall p sig, sig <> 0 -> EKill p sig ∉ drop (length (trace s)) (trace s').
Proof.
  intros Hc Ho1 Hh Ho2 Hr.
  assert (Eh : (h =? 0) = false) by lia.
  assert (Hk : forall s, forall p sig, sig <> 0 -> EKill p sig ∉ die_events s).
  { intros t p sig _. unfold die_events.
    rewrite !elem_of_app, !elem_of_cons, !list_elem_of_fmap.
    destruct (src_fd t =? 0), (src t =? 0);
      rewrite ?elem_of_cons, ?elem_of_nil;
      intros H; repeat destruct H as [H|H]; try discriminate; try done;
      destruct H as (y & Hy & _); try discriminate; by destruct y. }
  unfold rd_pidfile. go.
  rewrite (call_eq SFopen (ROk h) rs1) by exact Ho1. go.
  rewrite (call_eq SFscanf r rs2)
    by (simpl; rewrite fn_lookup_insert_ne by discriminate; exact Ho2).
  destruct r as [p|e].
  - destruct (p <=? 0) eqn:Ep.
    + match goal with |- exists _, die ?m ?c ?s2 = _ /\ _ =>
        destruct (@die_spec Z m c s2) as (s' & Hdie & Htr & Hfs & _);
          [simpl; lia|]
      end.
      exists s'. split; [exact Hdie|]. split; [exact Hfs|].
      intros q sig Hsig. rewrite Htr. simpl trace.
      rewrite drop_app_length. by apply Hk.
    + destruct Hr as [Hr|(e & rs3 & Ho3)]; [lia|].
      go.
      rewrite (call_eq SKill (RErr e) rs3)
        by (simpl; rewrite !fn_lookup_insert_ne by discriminate; exact Ho3).
      go.
      match goal with |- exists _, die ?m ?c ?s2 = _ /\ _ =>
        destruct (@die_spec Z m c s2) as (s' & Hdie & Htr & Hfs & _);
          [simpl; lia|]
      end.
      exists s'. split; [exact Hdie|]. split; [exact Hfs|].
      intros q sig Hsig. rewrite Htr. simpl trace.
      rewrite <- app_assoc, drop_app_length. simpl.
      rewrite elem_of_cons. intros [[= _ Hz]|Hin]; [lia|].
      revert Hin. by apply Hk.
  - match goal with |- exists _, die ?m ?c ?s2 = _ /\ _ =>
      destruct (@die_spec Z m c s2) as (s' & Hdie & Htr & Hfs & _);
        [simpl; lia|]
    end.
    exists s'. split; [exact Hdie|]. split; [exact Hfs|].
    intros q sig Hsig. rewrite Htr. simpl trace.
    rewrite drop_app_length. by apply Hk.
Qed.

(** ** The size of the buffer *)

Lemma to_int_range (z : Z) : - 2 ^ 31 <= to_int z < 2 ^ 31.
Proof.
  unfold to_int. pose proof (Z.mod_pos_bound (z + 2 ^ 31) (2 ^ 32)). lia.
Qed.

Lemma to_int_small (z : Z) : - 2 ^ 31 <= z < 2 ^ 31 -> to_int z = z.
Proof. intros H. unfold to_int. rewrite Z.mod_small; lia. Qed.

(** X13.  The size of the buffer allocated on the first read is an [int]:
    the page size converted to [int], or the block size of the source
    converted to [int] when the block size is larger than that.  When the
    allocation returns the size is positive and the buffer is not [NULL];
    when page size and block size both fit an [int] the size is the
    larger of the two. *)
Theorem alloc_buffer_size (s s' : State) :
  alloc_buffer s = Ret tt s' ->
  exists pagesize blksize rs1 rs2,
    oracle s SSysconf = ROk pagesize :: rs1 /\
    oracle s SFstat = ROk blksize :: rs2 /\
    bufsz s' = (if blksize >? to_int pagesize then to_int blksize
                else to_int pagesize) /\
    0 < bufsz s' < 2 ^ 31 /\
    (- 2 ^ 31 <= pagesize < 2 ^ 31 -> - 2 ^ 31 <= blksize < 2 ^ 31 ->
     bufsz s' = Z.max pagesize blksize) /\
    buffer s' <> 0 /\
    cnt s' = cnt s /\ fd s' = fd s /\ trace s' = trace s.
Proof.
  unfold alloc_buffer. intros H.
  apply bind_ret_inv in H as (r1 & s1 & Hc1 & H).
  apply call_ret_inv in Hc1 as (rs1 & Ho1 & ->).
  apply bind_ret_inv in H as ([] & ? & [= <-] & H).
  apply bind_ret_inv in H as (? & ? & [= <- <-] & H).
  simpl in H.
  destruct (to_int (int_of r1) =? -1) eqn:E1;
    [by apply die_never_returns in H|].
  destruct r1 as [pg|e1]; [|discriminate E1]. simpl in *.
  apply bind_ret_inv in H as (r2 & s2 & Hc2 & H).
  apply call_ret_inv in Hc2 as (rs2 & Ho2 & ->).
  apply bind_ret_inv in H as (? & ? & [= <- <-] & H).
  destruct r2 as [blk|e2]; [|by apply die_never_returns in H].
  simpl in Ho2. rewrite fn_lookup_insert_ne in Ho2 by discriminate.
  apply bind_ret_inv in H as ([] & s3 & H3 & H).
  apply bind_ret_inv in H as (? & ? & [= <- <-] & H).
  destruct (bufsz s3 <=? 0) eqn:E3; [by apply die_never_returns in H|].
  apply bind_ret_inv in H as (r4 & s4 & Hc4 & H).
  apply call_ret_inv in Hc4 as (rs4 & Ho4 & ->).
  apply bind_ret_inv in H as ([] & ? & [= <-] & H).
  apply bind_ret_inv in H as (? & ? & [= <- <-] & H).
  simpl in H.
  destruct (ptr_of r4 =? 0) eqn:E4; [by apply die_never_returns in H|].
  injection H as <-.
  exists pg, blk, rs1, rs2. split; [exact Ho1|]. split; [exact Ho2|].
  simpl in H3.
  pose proof (to_int_range pg) as Hpg. pose proof (to_int_range blk) as Hblk.
  assert (Hsz : bufsz s3 = (if blk >? to_int pg then to_int blk
                            else to_int pg) /\
                cnt s3 = cnt s /\ fd s3 = fd s /\ trace s3 = trace s).
  { destruct (blk >? to_int pg); injection H3 as <-; by simpl. }
  destruct Hsz as (Hsz & Hcnt & Hfd & Htr).
  assert (Hres : bufsz (set_buffer (ptr_of r4) (answered SMalloc r4 rs4 s3))
                 = bufsz s3) by (by destruct r4).
  rewrite Hres, Hsz.
  split; [reflexivity|]. rewrite Hsz in E3.
  split; [destruct (blk >? to_int pg); lia|].
  split.
  { intros Hp Hb. rewrite (to_int_small pg Hp), (to_int_small blk Hb).
    destruct (blk >? pg) eqn:Eg; lia. }
  destruct r4; simpl in *; repeat split; auto; lia.
Qed.

(** ** The bounds of the registry *)

Create HintDb keeps_bounds.

Lemma bounded_refl (s : State) : bounded s s.
Proof. by intros H. Qed.

Lemma bounded_trans (s1 s2 s3 : State) :
  bounded s1 s2 -> bounded s2 s3 -> bounded s1 s3.
Proof. unfold bounded. tauto. Qed.

Ltac bounds_leaf :=
  intros;
  repeat match goal with
         | |- bounded _ (if ?b then _ else _) => destruct b
         | |- bounded _ (match ?x with _ => _ end) => destruct x
         end;
  exact (fun H => H).

Ltac bounds_step :=
  first
    [ solve [auto with keeps_bounds nocore]
    | keeps_step bounded_refl bounded_trans
    | apply keeps_call; [exact bounded_refl | exact bounded_trans | |];
      bounds_leaf
    | apply keeps_modify; bounds_leaf
    | assumption ].

Ltac bounds_auto := repeat bounds_step.

Lemma keeps_bounds_close (d : Z) : keeps bounded (sys_close d).
Proof. unfold sys_close, emit. bounds_auto. Qed.

Lemma keeps_bounds_unlink (p : option string) : keeps bounded (sys_unlink p).
Proof. unfold sys_unlink, emit. bounds_auto. Qed.

Lemma keeps_bounds_create (p : string) : keeps bounded (create_file p).
Proof. unfold create_file, emit. bounds_auto. Qed.

#[local] Hint Resolve keeps_bounds_close keeps_bounds_unlink
  keeps_bounds_create : keeps_bounds.

Lemma keeps_bounds_rm_sockfile : keeps bounded rm_sockfile.
Proof. unfold rm_sockfile. bounds_auto. Qed.

Lemma keeps_bounds_rm_pidfile : keeps bounded rm_pidfile.
Proof. unfold rm_pidfile. bounds_auto. Qed.

Lemma keeps_bounds_close_src : keeps bounded close_src.
Proof. unfold close_src, emit. bounds_auto. Qed.

#[local] Hint Resolve keeps_bounds_rm_sockfile keeps_bounds_rm_pidfile
  keeps_bounds_close_src : keeps_bounds.

(** [close(fd[--cnt])] runs only while [cnt] is not 0. *)
Lemma keeps_bounds_close_clients (n : nat) : keeps bounded (close_clients n).
Proof.
  induction n as [|n IH]; intros s Hb; simpl; run;
    destruct (cnt s =? 0) eqn:E; simpl; try exact Hb.
  apply IH. unfold in_bounds in *. simpl. lia.
Qed.

Lemma keeps_bounds_run_handlers (hs : list handler) :
  keeps bounded (run_handlers hs).
Proof.
  induction hs as [|h hs IH]; simpl; bounds_auto. destruct h; bounds_auto.
Qed.

Lemma keeps_bounds_exit {A : Type} (e : Z) : keeps bounded (@exit A e).
Proof. apply keeps_exit. apply keeps_bounds_run_handlers. Qed.

#[local] Hint Resolve keeps_bounds_close_clients keeps_bounds_run_handlers
  keeps_bounds_exit : keeps_bounds.

Lemma keeps_bounds_die {A : Type} (message : option string) (e : Z) :
  keeps bounded (@die A message e).
Proof. unfold die. bounds_auto. Qed.

#[local] Hint Resolve keeps_bounds_die : keeps_bounds.

Lemma keeps_bounds_atexit (h : handler) : keeps bounded (atexit h).
Proof. unfold atexit. bounds_auto. Qed.

Lemma keeps_bounds_mk_blocking (d : Z) : keeps bounded (mk_blocking d).
Proof. unfold mk_blocking. bounds_auto. Qed.

Lemma keeps_bounds_mk_nonblocking (d : Z) : keeps bounded (mk_nonblocking d).
Proof. unfold mk_nonblocking. bounds_auto. Qed.

(** [fd[cnt++] = client_fd] runs only when [cnt] is not [MAXCLIENT]. *)
Lemma keeps_bounds_register_client (d : Z) :
  keeps bounded (register_client d).
Proof.
  intros s Hb. unfold register_client. run.
  destruct (MAXCLIENT =? cnt s) eqn:E; simpl; [exact Hb|].
  unfold in_bounds, append_client, arr_set in *. simpl.
  rewrite length_insert. lia.
Qed.

#[local] Hint Resolve keeps_bounds_atexit keeps_bounds_mk_blocking
  keeps_bounds_mk_nonblocking keeps_bounds_register_client : keeps_bounds.

Lemma keeps_bounds_listen_setup : keeps bounded listen_setup.
Proof. unfold listen_setup, emit. bounds_auto. Qed.

Lemma keeps_bounds_accept_client (n : nat) : keeps bounded (accept_client n).
Proof. induction n as [|n IH]; simpl; bounds_auto. Qed.

#[local] Hint Resolve keeps_bounds_listen_setup keeps_bounds_accept_client
  : keeps_bounds.

Lemma keeps_bounds_check_for_new_clients :
  keeps bounded check_for_new_clients.
Proof. unfold check_for_new_clients, accept_clients. bounds_auto. Qed.

Lemma keeps_bounds_open_src (argv : list string) :
  keeps bounded (open_src argv).
Proof. unfold open_src, emit. bounds_auto. Qed.

Lemma keeps_bounds_fread_retry (n : nat) : keeps bounded (fread_retry n).
Proof. induction n as [|n IH]; simpl; bounds_auto. Qed.

Lemma keeps_bounds_alloc_buffer : keeps bounded alloc_buffer.
Proof. unfold alloc_buffer. bounds_auto. Qed.

#[local] Hint Resolve keeps_bounds_check_for_new_clients
  keeps_bounds_open_src keeps_bounds_fread_retry keeps_bounds_alloc_buffer
  : keeps_bounds.

Lemma keeps_bounds_read_buf : keeps bounded read_buf.
Proof. unfold read_buf. bounds_auto. Qed.

Lemma keeps_bounds_write_all (n : nat) (d off nr : Z) :
  keeps bounded (write_all n d off nr).
Proof.
  revert off nr. induction n as [|n IH]; intros off nr; simpl;
    unfold emit; bounds_auto.
Qed.

#[local] Hint Resolve keeps_bounds_read_buf keeps_bounds_write_all
  : keeps_bounds.

(** A client is dropped only at an index below [cnt], so [--cnt] stays at
    or above 0. *)
Lemma write_clients_bounds (n : nat) (i : Z) (s : State) :
  0 <= i -> in_bounds s -> in_bounds (final (write_clients n i s)).
Proof.
  revert i s. induction n as [|n IH]; intros i s Hi Hb; simpl; run;
    destruct (i <? cnt s) eqn:E; simpl; try exact Hb.
  pose proof (keeps_bounds_write_all (length (oracle s SWrite))
                (arr_get (fd s) i) 0 (bufsz s) s Hb) as Hw.
  pose proof (write_all_same_registry (length (oracle s SWrite))
                (arr_get (fd s) i) 0 (bufsz s) s) as (_ & Hc & _).
  destruct (write_all _ _ _ _ s) as [nr s1| | | |]; simpl in *; try exact Hw.
  destruct (nr =? 0); [apply IH; [lia|exact Hw]|].
  unfold drop_client. run. apply IH; [exact Hi|].
  unfold in_bounds, arr_set in *. simpl.
  rewrite length_insert, shift_down_length. lia.
Qed.

Lemma keeps_bounds_write_buf : keeps bounded write_buf.
Proof.
  intros s Hb. unfold write_buf. run. by apply write_clients_bounds.
Qed.

#[local] Hint Resolve keeps_bounds_write_buf : keeps_bounds.

Lemma keeps_bounds_server_round (argv : list string) :
  keeps bounded (server_round argv).
Proof. unfold server_round. bounds_auto. Qed.

#[local] Hint Resolve keeps_bounds_server_round : keeps_bounds.

Lemma keeps_bounds_server_loop (n : nat) (argv : list string) :
  keeps bounded (server_loop n argv).
Proof. induction n as [|n IH]; simpl; bounds_auto. Qed.

Lemma keeps_bounds_rd_pidfile : keeps bounded rd_pidfile.
Proof. unfold rd_pidfile, emit. bounds_auto. Qed.

Lemma keeps_bounds_wrt_pidfile : keeps bounded wrt_pidfile.
Proof. unfold wrt_pidfile. bounds_auto. Qed.

Lemma keeps_bounds_take_lock (LOCKFILE : string) :
  keeps bounded (take_lock LOCKFILE).
Proof. unfold take_lock. bounds_auto. Qed.

#[local] Hint Resolve keeps_bounds_server_loop keeps_bounds_rd_pidfile
  keeps_bounds_wrt_pidfile keeps_bounds_take_lock : keeps_bounds.

Lemma keeps_bounds_reopen_server : keeps bounded reopen_server.
Proof. unfold reopen_server, emit. bounds_auto. Qed.

Lemma keeps_bounds_client (argv : list string) : keeps bounded (client argv).
Proof. unfold client, emit. bounds_auto. Qed.

Lemma keeps_bounds_instance_name (inv : Invocation) :
  keeps bounded (instance_name inv).
Proof. unfold instance_name, emit. bounds_auto. Qed.

Lemma keeps_bounds_serve (argv : list string) : keeps bounded (serve argv).
Proof. unfold serve, setenv. bounds_auto. Qed.

#[local] Hint Resolve keeps_bounds_reopen_server keeps_bounds_client
  keeps_bounds_instance_name keeps_bounds_serve : keeps_bounds.

Lemma keeps_bounds_main (inv : Invocation) : keeps bounded (main inv).
Proof. unfold main, usage. bounds_auto. Qed.

(** X14.  The client count stays between 0 and [MAXCLIENT] and the array
    keeps its [MAXCLIENT] slots, in whatever state a round of the server
    loop, the loop, or the whole program ends -- returning, exiting, or
    waiting for a call that does not come back, which may be any call in
    it. *)
Theorem registry_stays_in_bounds (inv : Invocation) (argv : list string)
    (n : nat) (s : State) :
  in_bounds s ->
  in_bounds (final (server_round argv s)) /\
  in_bounds (final (server_loop n argv s)) /\
  in_bounds (final (main inv s)).
Proof.
  intros Hb. split; [|split].
  - by apply keeps_bounds_server_round.
  - by apply keeps_bounds_server_loop.
  - by apply keeps_bounds_main.
Qed.

(** ** The acceptor at work *)

Lemma mk_nonblocking_succeeds (d : Z) (s : State) (r1 r2 : resp)
    (rs : list resp) :
  oracle s SFcntl = r1 :: r2 :: rs ->
  call_succeeds r1 -> call_succeeds r2 -> 0 <= fl s d ->
  exists s',
    mk_nonblocking d s = Ret tt s' /\ oracle s' SFcntl = rs /\
    errno s' = errno s.
Proof.
  intros Ho [v1 ->] [v2 ->] Hf. unfold mk_nonblocking. go.
  rewrite (call_eq SFcntl (ROk v1) (ROk v2 :: rs)) by exact Ho. go.
  destruct (fl s d =? -1) eqn:E; [lia|].
  rewrite (call_eq SFcntl (ROk v2) rs) by (simpl; apply fn_lookup_insert).
  go. replace (0 =? -1) with false by reflexivity.
  eexists. split; [reflexivity|]. simpl. split; [apply fn_lookup_insert|done].
Qed.

Lemma mk_blocking_succeeds (d : Z) (s : State) (r1 r2 : resp)
    (rs : list resp) :
  oracle s SFcntl = r1 :: r2 :: rs ->
  call_succeeds r1 -> call_succeeds r2 -> 0 <= fl s d ->
  exists s',
    mk_blocking d s = Ret tt s' /\ oracle s' SFcntl = rs /\
    errno s' = errno s.
Proof.
  intros Ho [v1 ->] [v2 ->] Hf. unfold mk_blocking. go.
  rewrite (call_eq SFcntl (ROk v1) (ROk v2 :: rs)) by exact Ho. go.
  destruct (fl s d =? -1) eqn:E; [lia|].
  rewrite (call_eq SFcntl (ROk v2) rs) by (simpl; apply fn_lookup_insert).
  go. replace (0 =? -1) with false by reflexivity.
  eexists. split; [reflexivity|]. simpl. split; [apply fn_lookup_insert|done].
Qed.

Lemma flags_nonneg_insert (f : Z -> Z) (d v : Z) :
  (forall x, 0 <= f x) -> 0 <= v -> forall x, 0 <= <[d := v]> f x.
Proof.
  intros Hf Hv x. destruct (decide (d = x)) as [->|Hne].
  - by rewrite fn_lookup_insert.
  - by rewrite fn_lookup_insert_ne.
Qed.

Lemma accept_client_registers (pending : list resp) (s : State)
    (rs : list resp) :
  in_bounds s ->
  (forall d, 0 <= fl s d) ->
  Forall connection_or_signal pending ->
  oracle s SAccept = (pending ++ RErr 11%positive :: rs)%list ->
  Forall call_succeeds (oracle s SFcntl) ->
  (4 * length pending <= length (oracle s SFcntl))%nat ->
  exists s',
    accept_client (length (oracle s SAccept)) s = Ret tt s' /\
    registry s' = take (Z.to_nat MAXCLIENT) (registry s ++ accepted pending) /\
    trace s' = (trace s ++
                map EClose (drop (Z.to_nat (MAXCLIENT - cnt s))
                              (accepted pending)))%list /\
    oracle s' SAccept = rs /\ errno s' = EWOULDBLOCK.
Proof.
  revert s. induction pending as [|r pending IH];
    intros s Hb Hfl Hds Ho Hok Hlen.
  - simpl in Ho. rewrite Ho. simpl. unfold bind at 1.
    rewrite (call_eq SAccept _ _ _ Ho). go.
    replace (-1 =? -1) with true by reflexivity.
    replace (11 =? EWOULDBLOCK) with true by reflexivity. simpl.
    eexists. split; [reflexivity|]. simpl.
    rewrite drop_nil. simpl. rewrite !app_nil_r.
    split; [|split; [done|split; [apply fn_lookup_insert|done]]].
    unfold registry. simpl. symmetry. apply take_ge.
    rewrite length_take. destruct Hb. lia.
  - simpl in Ho. apply Forall_cons in Hds as [Hd Hds].
    rewrite Ho. cbn [length accept_client]. unfold bind at 1.
    rewrite (call_eq SAccept _ _ _ Ho).
    destruct Hd as [->|(d & -> & Hd)].
    { (* interrupted: the same again *)
      go. replace (-1 =? -1) with true by reflexivity.
      replace (4 =? EWOULDBLOCK) with false by reflexivity.
      replace (4 =? EINTR) with true by reflexivity. simpl.
      match goal with |- exists _, accept_client _ ?t = _ /\ _ =>
        destruct (IH t) as (s' & Hrun & Hreg & Htr & Hor & He);
          [ exact Hb | exact Hfl | exact Hds | simpl; apply fn_lookup_insert
          | simpl; by rewrite fn_lookup_insert_ne
          | simpl; rewrite fn_lookup_insert_ne by done; simpl in Hlen; lia |]
      end.
      simpl in Hrun. rewrite fn_lookup_insert in Hrun.
      exists s'. split; [exact Hrun|]. simpl. auto. }
    go. destruct (d =? -1) eqn:Ed; [lia|]. simpl.
    set (t1 := set_oracle _ s).
    destruct (oracle s SFcntl) as [|r1 [|r2 [|r3 [|r4 rs4]]]] eqn:Hf;
      simpl in Hlen; try lia.
    apply Forall_cons in Hok as [Hr1 Hok].
    apply Forall_cons in Hok as [Hr2 Hok].
    apply Forall_cons in Hok as [Hr3 Hok].
    apply Forall_cons in Hok as [Hr4 Hok].
    destruct (mk_nonblocking_succeeds (src_fd t1) t1 r1 r2 (r3 :: r4 :: rs4))
      as (t2 & H2 & Ho2 & He2);
      [subst t1; simpl; by rewrite fn_lookup_insert_ne | done | done
      | apply Hfl |].
    change (src_fd t1) with (src_fd s) in H2. rewrite H2. simpl.
    apply mk_nonblocking_returns in H2
      as (Hfl2 & Hcnt2 & Hfd2 & Hsfd2 & Hacc2 & Htr2).
    assert (Hfl2' : forall x, 0 <= fl t2 x).
    { rewrite Hfl2. apply flags_nonneg_insert; [apply Hfl|].
      apply Z.lor_nonneg. split; [apply Hfl|done]. }
    destruct (mk_blocking_succeeds d t2 r3 r4 rs4)
      as (t3 & H3 & Ho3 & He3); [done | done | done | apply Hfl2' |].
    rewrite H3. simpl.
    apply mk_blocking_returns in H3
      as (Hfl3 & Hcnt3 & Hfd3 & Hsfd3 & Hacc3 & Htr3).
    assert (Hfl3' : forall x, 0 <= fl t3 x).
    { rewrite Hfl3. apply flags_nonneg_insert; [apply Hfl2'|].
      apply Z.land_nonneg. left. apply Hfl2'. }
    assert (Hacc : oracle t3 SAccept
                   = (pending ++ RErr 11%positive :: rs)%list).
    { rewrite Hacc3, Hacc2. subst t1. simpl. apply fn_lookup_insert. }
    assert (Hreg3 : registry t3 = registry s /\ cnt t3 = cnt s /\
                    fd t3 = fd s /\ trace t3 = trace s).
    { unfold registry. rewrite Hcnt3, Hcnt2, Hfd3, Hfd2, Htr3, Htr2.
      subst t1. done. }
    destruct Hreg3 as (Hreg3 & Hc3 & Hf3 & Ht3).
    destruct Hb as [Hb1 Hb2].
    unfold register_client. run.
    destruct (MAXCLIENT =? cnt t3) eqn:Efull; run.
    + match goal with |- exists _, accept_client _ ?t = _ /\ _ =>
        destruct (IH t) as (s' & Hrun & Hreg & Htr & Hor & He);
          [ unfold in_bounds; simpl; rewrite Hc3, Hf3; lia | exact Hfl3'
          | exact Hds | exact Hacc
          | simpl; by rewrite Ho3 | simpl; rewrite Ho3; simpl in Hlen; lia |]
      end.
      simpl in Hrun. rewrite Hacc in Hrun.
      exists s'. split; [exact Hrun|].
      assert (Hfull : length (registry s) = Z.to_nat MAXCLIENT).
      { unfold registry. rewrite length_take. lia. }
      split; [|split; [|done]].
      * rewrite Hreg. unfold registry at 1. simpl. fold (registry t3).
        rewrite Hreg3, !take_app_length' by done. reflexivity.
      * rewrite Htr. simpl. rewrite Ht3, Hc3, <- app_assoc.
        replace (Z.to_nat (MAXCLIENT - cnt s)) with 0%nat by lia.
        reflexivity.
    + match goal with |- exists _, accept_client _ ?t = _ /\ _ =>
        destruct (IH t) as (s' & Hrun & Hreg & Htr & Hor & He);
          [ unfold in_bounds, append_client, arr_set; simpl;
            rewrite length_insert, Hc3, Hf3; lia
          | exact Hfl3' | exact Hds | exact Hacc
          | simpl; by rewrite Ho3 | simpl; rewrite Ho3; simpl in Hlen; lia |]
      end.
      simpl in Hrun. rewrite Hacc in Hrun.
      exists s'. split; [exact Hrun|].
      split; [|split; [|done]].
      * rewrite Hreg. f_equal.
        unfold registry, append_client, arr_set. simpl.
        rewrite Hc3, Hf3.
        replace (Z.to_nat (cnt s + 1)) with (S (Z.to_nat (cnt s))) by lia.
        destruct (lookup_lt_is_Some_2 (fd s) (Z.to_nat (cnt s))) as [x0 Hx0];
          [lia|].
        erewrite take_S_r by (apply list_lookup_insert_eq; lia).
        rewrite take_insert_ge by lia. by rewrite <- app_assoc.
      * rewrite Htr. simpl. rewrite Ht3, Hc3.
        replace (Z.to_nat (MAXCLIENT - cnt s))
          with (S (Z.to_nat (MAXCLIENT - (cnt s + 1)))) by lia.
        reflexivity.
Qed.

(** X15.  With the socket set up, the acceptor takes in every pending
    connection and returns when [accept] reports [EWOULDBLOCK]: the
    connections join the registry behind the old clients, in the order
    of their arrival, up to [MAXCLIENT] clients; the ones beyond are
    closed at once, and nothing else is closed.  Interruptions of
    [accept] by signals are retried.  [errno] is [EWOULDBLOCK] on
    return. *)
Theorem pending_connections_registered_in_order (s : State)
    (pending rs : list resp) :
  src_fd s <> 0 ->
  in_bounds s ->
  (forall d, 0 <= fl s d) ->
  Forall connection_or_signal pending ->
  oracle s SAccept = (pending ++ RErr 11%positive :: rs)%list ->
  Forall call_succeeds (oracle s SFcntl) ->
  (2 + 4 * length pending <= length (oracle s SFcntl))%nat ->
  exists s',
    check_for_new_clients s = Ret tt s' /\
    registry s' = take (Z.to_nat MAXCLIENT) (registry s ++ accepted pending) /\
    trace s' = (trace s ++
                map EClose (drop (Z.to_nat (MAXCLIENT - cnt s))
                              (accepted pending)))%list /\
    oracle s' SAccept = rs /\ errno s' = EWOULDBLOCK.
Proof.
  intros Hsock Hb Hfl Hp Ho Hok Hlen.
  unfold check_for_new_clients, listen_setup, accept_clients. go.
  destruct (src_fd s =? 0) eqn:E; [lia|]. simpl.
  destruct (cnt s =? 0) eqn:Ec; simpl.
  - destruct (oracle s SFcntl) as [|r1 [|r2 rs2]] eqn:Hf;
      simpl in Hlen; try lia.
    apply Forall_cons in Hok as [Hr1 Hok].
    apply Forall_cons in Hok as [Hr2 Hok].
    destruct (mk_blocking_succeeds (src_fd s) s r1 r2 rs2)
      as (t & H1 & Ho1 & He1); [done | done | done | apply Hfl |].
    rewrite H1. simpl.
    apply mk_blocking_returns in H1
      as (Hfl1 & Hcnt1 & Hfd1 & Hsfd1 & Hacc1 & Htr1).
    destruct (accept_client_registers pending t rs)
      as (s' & Hrun & Hreg & Htr & Hrest).
    + unfold in_bounds. by rewrite Hcnt1, Hfd1.
    + rewrite Hfl1. apply flags_nonneg_insert; [apply Hfl|].
      apply Z.land_nonneg. left. apply Hfl.
    + exact Hp.
    + by rewrite Hacc1.
    + by rewrite Ho1.
    + rewrite Ho1. lia.
    + exists s'. split; [exact Hrun|].
      unfold registry in *. rewrite Hreg, Htr, Hcnt1, Hfd1, Htr1. auto.
  - apply accept_client_registers; auto. lia.
Qed.








(** ** The client *)

(** X17.  [client] never returns to [main]. *)
Theorem client_never_returns (argv : list string) (s s' : State) :
  client argv s <> Ret tt s'.
Proof.
  unfold client. intros H.
  apply bind_ret_inv in H as (? & ? & [= <- <-] & H).
  apply bind_ret_inv in H as (r1 & s1 & _ & H).
  apply bind_ret_inv in H as (? & ? & [= <- <-] & H).
  destruct (int_of r1 <? 0); [by apply die_never_returns in H|].
  apply bind_ret_inv in H as (r2 & s2 & _ & H).
  apply bind_ret_inv in H as (? & ? & [= <- <-] & H).
  destruct (negb (status_of r2 =? 0)); [by apply die_never_returns in H|].
  apply bind_ret_inv in H as ([] & s3 & _ & H).
  apply bind_ret_inv in H as ([] & s4 & _ & H).
  apply bind_ret_inv in H as (r5 & s5 & _ & H).
  destruct (int_of r5 =? -1); [by apply die_never_returns in H|].
  apply bind_ret_inv in H as ([] & s6 & _ & H).
  apply bind_ret_inv in H as (r7 & s7 & _ & H).
  apply bind_ret_inv in H as (? & ? & [= <- <-] & H).
  destruct r7; [discriminate H|]. by apply die_never_returns in H.
Qed.

Lemma run_handlers_returns (hs : list handler) (s : State) :
  exists s', run_handlers hs s = Ret tt s'.
Proof.
  revert s. induction hs as [|h hs IH]; intros s; simpl; [by eexists|].
  destruct h; unfold run_handler, rm_pidfile, rm_sockfile; run;
    [|destruct (src_fd s =? 0); run]; apply IH.
Qed.

Lemma exit_exits {A : Type} (e : Z) (s : State) :
  exists s', @exit A e s = Exit e s'.
Proof.
  unfold exit. destruct (run_handlers_returns (atexit_fns s) s) as [s' ->].
  by eexists.
Qed.

Lemma close_clients_returns_or_hangs (n : nat) (s : State) :
  (exists s', close_clients n s = Ret tt s') \/
  (exists s', close_clients n s = Hang s').
Proof.
  revert s. induction n as [|n IH]; intros s; simpl; run;
    destruct (cnt s =? 0); eauto.
Qed.

(** [die] never comes back: it ends in [exit] with the status it was
    given (or, with a negative count, never leaves its loop). *)
Lemma die_exits_or_hangs {A : Type} (message : option string) (e : Z)
    (s : State) :
  (exists s', @die A message e s = Exit e s') \/
  (exists s', @die A message e s = Hang s').
Proof.
  unfold die, rm_sockfile, rm_pidfile, close_src. run.
  destruct (src_fd s =? 0); run; destruct (src s =? 0); run;
    match goal with
    | |- context [close_clients ?n ?t] =>
        destruct (close_clients_returns_or_hangs n t) as [[s1 ->]|[s1 ->]]
    end; eauto using exit_exits.
Qed.

Lemma die_never_execs {A : Type} (message : option string) (e : Z)
    (s s' : State) (argv : list string) :
  @die A message e s <> Exec argv s'.
Proof.
  destruct (@die_exits_or_hangs A message e s) as [[s1 ->]|[s1 ->]]; done.
Qed.

(** X18.  A client that gets as far as the command has connected a socket
    to the address of the instance, closed its standard input, and closed
    the socket after duplicating it; the command is the one given, or
    [cat] when none is given.  No file is touched. *)
Theorem client_execs_command (argv argv' : list string) (s s' : State) :
  client argv s = Exec argv' s' ->
  argv' = (if decide (argv = []) then ["cat"] else argv) /\
  exists d,
    0 <= d /\
    trace s' = (trace s ++ [EConnect d (mk_sockaddr s);
                            EClose STDIN_FILENO; EClose d])%list /\
    fs s' = fs s.
Proof.
  unfold client, call. run.
  destruct (oracle s SSocket) as [|r1 rs1]; [discriminate|]. simpl.
  destruct (int_of r1 <? 0) eqn:E1; [by intros H%die_never_execs|].
  match goal with |- context [oracle ?t SConnect] =>
    destruct (oracle t SConnect) as [|r2 rs2] end; [discriminate|]. simpl.
  destruct (negb (status_of r2 =? 0)) eqn:E2;
    [by intros H%die_never_execs|].
  match goal with |- context [oracle ?t SDup2] =>
    destruct (oracle t SDup2) as [|r3 rs3] end; [discriminate|]. simpl.
  destruct (int_of r3 =? -1) eqn:E3; [by intros H%die_never_execs|].
  match goal with |- context [oracle ?t SExecvp] =>
    destruct (oracle t SExecvp) as [|r4 rs4] end; [discriminate|]. simpl.
  destruct r4 as [v4|e4]; [|by intros H%die_never_execs].
  intros [= <- <-]. split.
  - destruct argv; reflexivity.
  - exists (int_of r1). split; [lia|].
    destruct r1, r2, r3; simpl in *; try discriminate;
      rewrite <- !app_assoc; auto.
Qed.

(** ** The ways out of [main] *)

(** X19.  [main] never reaches its [return 0]: every run ends in [exit],
    in the command of the client, or does not end. *)
Theorem main_never_returns (inv : Invocation) (s s' : State) (z : Z) :
  main inv s <> Ret z s'.
Proof.
  unfold main, usage, serve. intros H.
  apply bind_ret_inv in H as ([] & s0 & H0 & H).
  apply bind_ret_inv in H as (name & s1 & _ & H).
  apply bind_ret_inv in H as ([] & s2 & _ & H).
  apply bind_ret_inv in H as ([] & s3 & _ & H).
  destruct (opt_dryrun inv); [by apply exit_never_returns in H|].
  apply bind_ret_inv in H as ([] & s4 & _ & H).
  apply bind_ret_inv in H as ([] & s5 & _ & H).
  apply bind_ret_inv in H as ([] & s6 & _ & H).
  destruct (Z.of_nat (length (args inv)) =? 0);
    [by apply die_never_returns in H|].
  apply bind_ret_inv in H as ([] & s7 & _ & H).
  apply bind_ret_inv in H as (? & ? & _ & H).
  apply bind_ret_inv in H as ([] & s8 & _ & H).
  apply bind_ret_inv in H as ([] & s9 & _ & H).
  apply bind_ret_inv in H as (? & ? & _ & H).
  apply bind_ret_inv in H as ([] & s10 & _ & H).
  by apply die_never_returns in H.
Qed.

(** X20.  With [-d] the program exits with status 0 as soon as the names
    are derived, also when [-r] or [-c] is given with it: no process is
    signalled, no socket is created, no file is created or removed.  The
    only calls are those of the checksum pipeline when no name is
    given. *)
Theorem dry_run_touches_nothing (inv : Invocation) (s s1 : State)
    (name : string) :
  bad_option inv = false -> opt_dryrun inv = true ->
  atexit_fns s = [] ->
  instance_name inv s = Ret name s1 ->
  main inv s
  = Exit 0 (set_SOCKFILE (Some (sockfile_name name))
              (set_PIDFILE (Some (pidfile_name name)) s1)) /\
  fs s1 = fs s /\ locked s1 = locked s /\
  (trace s1 = trace s \/
   exists h, trace s1 = (trace s ++ [EPopen checksum_command (environ s);
                                     EPclose h])%list).
Proof.
  intros Hbad Hdry Hat Hname.
  destruct (instance_name_returns inv s s1 name Hname)
    as (_ & _ & Hfs & Hl & Hat1 & _ & _ & Htr).
  split; [|auto].
  unfold main. rewrite Hbad, Hdry.
  erewrite bind_ret_eq by reflexivity.
  erewrite bind_ret_eq by exact Hname.
  unfold exit. run. rewrite Hat1, Hat. reflexivity.
Qed.

(** X21.  An option [getopt] rejects ends the program with the status
    [EINVAL] before any name is derived: no call has been answered, and
    the two [unlink]s of [die] are given [NULL]. *)
Theorem bad_option_is_usage_error (inv : Invocation) (p : Z)
    (env : list (string * string)) (o : sys -> list resp)
    (files held : list string) :
  bad_option inv = true ->
  main inv (initial_state p env o files held)
  = Exit EINVAL (set_trace [EUnlink None; EUnlink None]
                   (initial_state p env o files held)).
Proof.
  intros Hbad. unfold main. rewrite Hbad. reflexivity.
Qed.

(** ** The address of the socket *)

Lemma substring_0_length (m : nat) (n : string) :
  String.length (String.substring 0 m n) = (m `min` String.length n)%nat.
Proof.
  revert n. induction m as [|m IH]; intros n; [by destruct n|].
  destruct n as [|c n]; simpl; [done|]. by rewrite IH.
Qed.

Lemma substring_0_prefix (m : nat) (n : string) :
  String.prefix (String.substring 0 m n) n = true.
Proof.
  revert n. induction m as [|m IH]; intros n; [by destruct n|].
  destruct n as [|c n]; simpl; [done|].
  destruct (Ascii.ascii_dec c c); [apply IH|done].
Qed.


Lemma substring_0_all (m : nat) (n : string) :
  (String.length n <= m)%nat -> String.substring 0 m n = n.
Proof.
  revert n. induction m as [|m IH]; intros n Hn.
  - destruct n; [done|simpl in Hn; lia].
  - destruct n as [|c n]; simpl; [done|]. rewrite IH; [done|simpl in Hn; lia].
Qed.

(** X23.  The address [mk_sockaddr] builds fits [sun_path] with its
    terminating byte; it is a prefix of [SOCKFILE], and [SOCKFILE] itself
    when that fits. *)
Theorem mk_sockaddr_fits (s : State) :
  (String.length (mk_sockaddr s) < SUN_PATH_SIZE)%nat /\
  forall n, SOCKFILE s = Some n ->
    String.prefix (mk_sockaddr s) n = true /\
    ((String.length n < SUN_PATH_SIZE)%nat -> mk_sockaddr s = n).
Proof.
  unfold mk_sockaddr, SUN_PATH_SIZE. split.
  - destruct (SOCKFILE s) as [n|]; simpl; [|lia].
    rewrite substring_0_length. lia.
  - intros n ->. split; [apply substring_0_prefix|].
    intros Hn. apply substring_0_all. lia.
Qed.


Create HintDb keeps_addr.

Section Addressed.
  Variable A : string.

Lemma addressed_refl (s : State) : addressed A s s.
Proof. intros H. split; [exact H|]. exists []. by rewrite app_nil_r. Qed.

Lemma addressed_trans (s1 s2 s3 : State) :
  addressed A s1 s2 -> addressed A s2 s3 -> addressed A s1 s3.
Proof.
  intros H12 H23 H1.
  destruct (H12 H1) as (H2 & evs1 & Ht1 & Hf1).
  destruct (H23 H2) as (H3 & evs2 & Ht2 & Hf2).
  split; [exact H3|]. exists (evs1 ++ evs2)%list. split.
  - rewrite Ht2, Ht1, app_assoc. reflexivity.
  - apply Forall_app. by split.
Qed.

Lemma addressed_silent (s s' : State) :
  SOCKFILE s' = SOCKFILE s -> trace s' = trace s -> addressed A s s'.
Proof.
  intros Hk Ht H. unfold mk_sockaddr in *. rewrite Hk. split; [exact H|].
  exists []. by rewrite app_nil_r.
Qed.

Lemma addressed_event (s s' : State) (e : event) :
  SOCKFILE s' = SOCKFILE s -> trace s' = (trace s ++ [e])%list ->
  at_address A e -> addressed A s s'.
Proof.
  intros Hk Ht He H. unfold mk_sockaddr in *. rewrite Hk. split; [exact H|].
  exists [e]. split; [exact Ht|]. by constructor.
Qed.

Ltac addr_leaf :=
  intros;
  repeat match goal with
         | |- addressed _ _ (if ?b then _ else _) => destruct b
         | |- addressed _ _ (match ?x with _ => _ end) => destruct x
         end;
  first [ apply addressed_silent; reflexivity
        | eapply addressed_event;
          [ reflexivity | reflexivity
          | let d := fresh in let a := fresh in let E := fresh in
            intros d a [E|E];
            first [discriminate E | injection E; congruence] ] ].

Ltac addr_step :=
  first
    [ solve [auto with keeps_addr nocore]
    | keeps_step addressed_refl addressed_trans
    | apply keeps_call; [exact addressed_refl | exact addressed_trans | |];
      addr_leaf
    | apply keeps_modify; addr_leaf
    | assumption ].

Ltac addr_auto := repeat addr_step.

Lemma keeps_addr_close (d : Z) : keeps (addressed A) (sys_close d).
Proof. unfold sys_close, emit. addr_auto. Qed.

Lemma keeps_addr_unlink (p : option string) :
  keeps (addressed A) (sys_unlink p).
Proof. unfold sys_unlink, emit. addr_auto. Qed.

Lemma keeps_addr_create (p : string) : keeps (addressed A) (create_file p).
Proof. unfold create_file, emit. addr_auto. Qed.

#[local] Hint Resolve keeps_addr_close keeps_addr_unlink keeps_addr_create
  : keeps_addr.

Lemma keeps_addr_rm_sockfile : keeps (addressed A) rm_sockfile.
Proof. unfold rm_sockfile. addr_auto. Qed.

Lemma keeps_addr_rm_pidfile : keeps (addressed A) rm_pidfile.
Proof. unfold rm_pidfile. addr_auto. Qed.

Lemma keeps_addr_close_src : keeps (addressed A) close_src.
Proof. unfold close_src, emit. addr_auto. Qed.

#[local] Hint Resolve keeps_addr_rm_sockfile keeps_addr_rm_pidfile
  keeps_addr_close_src : keeps_addr.

Lemma keeps_addr_close_clients (n : nat) :
  keeps (addressed A) (close_clients n).
Proof. induction n as [|n IH]; simpl; addr_auto. Qed.

Lemma keeps_addr_run_handlers (hs : list handler) :
  keeps (addressed A) (run_handlers hs).
Proof.
  induction hs as [|h hs IH]; simpl; addr_auto. destruct h; addr_auto.
Qed.

Lemma keeps_addr_exit {B : Type} (e : Z) : keeps (addressed A) (@exit B e).
Proof. apply keeps_exit. apply keeps_addr_run_handlers. Qed.

#[local] Hint Resolve keeps_addr_close_clients keeps_addr_run_handlers
  keeps_addr_exit : keeps_addr.

Lemma keeps_addr_die {B : Type} (message : option string) (e : Z) :
  keeps (addressed A) (@die B message e).
Proof. unfold die. addr_auto. Qed.

#[local] Hint Resolve keeps_addr_die : keeps_addr.

Lemma keeps_addr_atexit (h : handler) : keeps (addressed A) (atexit h).
Proof. unfold atexit. addr_auto. Qed.

Lemma keeps_addr_mk_blocking (d : Z) : keeps (addressed A) (mk_blocking d).
Proof. unfold mk_blocking. addr_auto. Qed.

Lemma keeps_addr_mk_nonblocking (d : Z) :
  keeps (addressed A) (mk_nonblocking d).
Proof. unfold mk_nonblocking. addr_auto. Qed.

Lemma keeps_addr_register_client (d : Z) :
  keeps (addressed A) (register_client d).
Proof. unfold register_client. addr_auto. Qed.

#[local] Hint Resolve keeps_addr_atexit keeps_addr_mk_blocking
  keeps_addr_mk_nonblocking keeps_addr_register_client : keeps_addr.

(** The first place where the address is used: [bind]. *)
Lemma keeps_addr_listen_setup : keeps (addressed A) listen_setup.
Proof.
  intros s. unfold listen_setup.
  erewrite bind_ret_eq by reflexivity. cbv beta zeta.
  destruct (src_fd s =? 0); [|apply addressed_refl].
  intros H. rewrite H. revert s H.
  match goal with |- forall s, _ -> mk_sockaddr (final (?m s)) = _ /\ _ =>
    change (keeps (addressed A) m)
  end.
  unfold emit. addr_auto.
Qed.

Lemma keeps_addr_accept_client (n : nat) :
  keeps (addressed A) (accept_client n).
Proof. induction n as [|n IH]; simpl; addr_auto. Qed.

#[local] Hint Resolve keeps_addr_listen_setup keeps_addr_accept_client
  : keeps_addr.

Lemma keeps_addr_check_for_new_clients :
  keeps (addressed A) check_for_new_clients.
Proof. unfold check_for_new_clients, accept_clients. addr_auto. Qed.

Lemma keeps_addr_open_src (argv : list string) :
  keeps (addressed A) (open_src argv).
Proof. unfold open_src, emit. addr_auto. Qed.

Lemma keeps_addr_fread_retry (n : nat) : keeps (addressed A) (fread_retry n).
Proof. induction n as [|n IH]; simpl; addr_auto. Qed.

Lemma keeps_addr_alloc_buffer : keeps (addressed A) alloc_buffer.
Proof. unfold alloc_buffer. addr_auto. Qed.

#[local] Hint Resolve keeps_addr_check_for_new_clients keeps_addr_open_src
  keeps_addr_fread_retry keeps_addr_alloc_buffer : keeps_addr.

Lemma keeps_addr_read_buf : keeps (addressed A) read_buf.
Proof. unfold read_buf. addr_auto. Qed.

Lemma keeps_addr_write_all (n : nat) (d off nr : Z) :
  keeps (addressed A) (write_all n d off nr).
Proof.
  revert off nr. induction n as [|n IH]; intros off nr; simpl;
    unfold emit; addr_auto.
Qed.

Lemma keeps_addr_drop_client (i : Z) : keeps (addressed A) (drop_client i).
Proof. unfold drop_client. addr_auto. Qed.

#[local] Hint Resolve keeps_addr_read_buf keeps_addr_write_all
  keeps_addr_drop_client : keeps_addr.

Lemma keeps_addr_write_clients (n : nat) (i : Z) :
  keeps (addressed A) (write_clients n i).
Proof. revert i. induction n as [|n IH]; intros i; simpl; addr_auto. Qed.

#[local] Hint Resolve keeps_addr_write_clients : keeps_addr.

Lemma keeps_addr_write_buf : keeps (addressed A) write_buf.
Proof. unfold write_buf. addr_auto. Qed.

#[local] Hint Resolve keeps_addr_write_buf : keeps_addr.

Lemma keeps_addr_server_round (argv : list string) :
  keeps (addressed A) (server_round argv).
Proof. unfold server_round. addr_auto. Qed.

#[local] Hint Resolve keeps_addr_server_round : keeps_addr.

Lemma keeps_addr_server_loop (n : nat) (argv : list string) :
  keeps (addressed A) (server_loop n argv).
Proof. induction n as [|n IH]; simpl; addr_auto. Qed.

Lemma keeps_addr_rd_pidfile : keeps (addressed A) rd_pidfile.
Proof. unfold rd_pidfile, emit. addr_auto. Qed.

Lemma keeps_addr_wrt_pidfile : keeps (addressed A) wrt_pidfile.
Proof. unfold wrt_pidfile. addr_auto. Qed.

Lemma keeps_addr_take_lock (LOCKFILE : string) :
  keeps (addressed A) (take_lock LOCKFILE).
Proof. unfold take_lock. addr_auto. Qed.

#[local] Hint Resolve keeps_addr_server_loop keeps_addr_rd_pidfile
  keeps_addr_wrt_pidfile keeps_addr_take_lock : keeps_addr.

Lemma keeps_addr_reopen_server : keeps (addressed A) reopen_server.
Proof. unfold reopen_server, emit. addr_auto. Qed.

(** The other place: [connect]. *)
Lemma keeps_addr_client (argv : list string) :
  keeps (addressed A) (client argv).
Proof.
  intros s. unfold client.
  erewrite bind_ret_eq by reflexivity. cbv beta zeta.
  intros H. rewrite H. revert s H.
  match goal with |- forall s, _ -> mk_sockaddr (final (?m s)) = _ /\ _ =>
    change (keeps (addressed A) m)
  end.
  unfold emit. addr_auto.
Qed.

Lemma keeps_addr_serve (argv : list string) :
  keeps (addressed A) (serve argv).
Proof. unfold serve, setenv. addr_auto. Qed.

End Addressed.

(** X22.  Every [bind] and every [connect] [main] makes once the name of
    the instance is known uses the same address: the name of the socket
    file of the instance, cut to what fits [sun_path].  So the clients and
    the server of one instance meet. *)
Theorem endpoints_use_instance_address (inv : Invocation) (s s1 : State)
    (name : string) (d : Z) (a : string) :
  bad_option inv = false ->
  instance_name inv s = Ret name s1 ->
  EBind d a ∈ drop (length (trace s1)) (trace (final (main inv s))) \/
  EConnect d a ∈ drop (length (trace s1)) (trace (final (main inv s))) ->
  a = String.substring 0 107 (sockfile_name name).
Proof.
  intros Hbad Hname Hin. unfold main in Hin. rewrite Hbad in Hin.
  erewrite bind_ret_eq in Hin by reflexivity.
  erewrite bind_ret_eq in Hin by exact Hname.
  erewrite bind_ret_eq in Hin by reflexivity.
  erewrite bind_ret_eq in Hin by reflexivity.
  set (A := String.substring 0 107 (sockfile_name name)).
  match type of Hin with
  | context [final (?m ?s2)] =>
      assert (Hk : keeps (addressed A) m); [|specialize (Hk s2 eq_refl)]
  end.
  { destruct (opt_dryrun inv); [apply keeps_addr_exit|].
    apply (keeps_bind _ (addressed_trans A));
      [destruct (opt_restart inv);
       [apply keeps_addr_reopen_server
       |apply (keeps_ret _ (addressed_refl A))]|]. intros _.
    apply (keeps_bind _ (addressed_trans A));
      [destruct (opt_client inv);
       [apply keeps_addr_client
       |apply (keeps_ret _ (addressed_refl A))]|]. intros _.
    apply (keeps_bind _ (addressed_trans A));
      [destruct (opt_restart inv);
       [apply keeps_addr_die
       |apply (keeps_ret _ (addressed_refl A))]|]. intros _.
    destruct (Z.of_nat (length (args inv)) =? 0); [apply keeps_addr_die|].
    apply (keeps_bind _ (addressed_trans A)); [apply keeps_addr_take_lock|].
    intros _. apply keeps_addr_serve. }
  destruct Hk as (_ & evs & Htr & Hev).
  simpl in Htr. rewrite Htr, drop_app_length in Hin.
  rewrite Forall_forall in Hev.
  destruct Hin as [Hin|Hin]; apply (Hev _ Hin d a); auto.
Qed.

(** ** The socket file from set-up to exit *)

(** What a first-time set-up that returns has done, in order. *)
Lemma listen_setup_returns (s s1 : State) :
  src_fd s = 0 ->
  listen_setup s = Ret tt s1 ->
  0 <= src_fd s1 /\
  trace s1 = (trace s ++ [EUnlink (SOCKFILE s); ESocket (src_fd s1);
                          EBind (src_fd s1) (mk_sockaddr s);
                          ECreate (mk_sockaddr s);
                          EListen (src_fd s1)])%list /\
  atexit_fns s1 = H_rm_sockfile :: atexit_fns s /\
  SOCKFILE s1 = SOCKFILE s /\ PIDFILE s1 = PIDFILE s /\
  (forall x, x ∈ fs s1 <->
     x = mk_sockaddr s \/ (x ∈ fs s /\ Some x <> SOCKFILE s)) /\
  cnt s1 = cnt s /\ fd s1 = fd s.
Proof.
  intros H0 H. unfold listen_setup in H.
  apply bind_ret_inv in H as (? & ? & [= <- <-] & H).
  rewrite H0 in H. replace (0 =? 0) with true in H by reflexivity.
  cbv zeta in H.
  apply bind_ret_inv in H as ([] & t1 & H1 & H).
  unfold rm_sockfile in H1. revert H1. run. rewrite H0.
  replace (0 =? 0) with true by reflexivity. simpl. intros [= <-].
  apply bind_ret_inv in H as ([] & t2 & [= <-] & H).
  apply bind_ret_inv in H as (r1 & t3 & Hc1 & H).
  apply call_ret_inv in Hc1 as (rs1 & Ho1 & ->).
  apply bind_ret_inv in H as ([] & t4 & [= <-] & H).
  apply bind_ret_inv in H as (? & ? & [= <- <-] & H).
  destruct (src_fd _ <? 0) eqn:Ed in H; [by apply die_never_returns in H|].
  apply bind_ret_inv in H as ([] & t5 & [= <-] & H).
  apply bind_ret_inv in H as (r2 & t6 & Hc2 & H).
  apply call_ret_inv in Hc2 as (rs2 & Ho2 & ->).
  apply bind_ret_inv in H as (? & ? & [= <- <-] & H).
  destruct (negb (status_of r2 =? 0)); [by apply die_never_returns in H|].
  apply bind_ret_inv in H as ([] & t7 & [= <-] & H).
  apply bind_ret_inv in H as ([] & t8 & H8 & H).
  apply bind_ret_inv in H as (r3 & t9 & Hc3 & H).
  apply call_ret_inv in Hc3 as (rs3 & Ho3 & ->).
  apply bind_ret_inv in H as (? & ? & [= <- <-] & H).
  destruct (negb (status_of r3 =? 0)); [by apply die_never_returns in H|].
  injection H as <-.
  unfold create_file in H8. revert H8. run.
  match goal with |- context [decide (?p ∈ ?l)] =>
    destruct (decide (p ∈ l)) as [Hin|Hin] end;
    intros [= <-]; destruct r1, r2, r3; simpl in *;
    rewrite <- ?app_assoc; simpl;
    (split; [lia|]); (split; [reflexivity|]);
    do 3 (split; [reflexivity|]); (split; [|done]);
    intros x; rewrite ?elem_of_app, ?list_elem_of_singleton,
      ?elem_of_unlink_fs; rewrite elem_of_unlink_fs in Hin;
    split; try tauto;
    intros [->|?]; tauto.
Qed.

(** X24.  The first-time set-up and [exit] undo each other: when the name
    of the socket file fits [sun_path], the file [bind] created is there
    after [listen_setup] and gone after [exit], whatever its status, and
    the socket is closed -- [rm_sockfile] was registered with [atexit]. *)
Theorem socket_file_removed_at_exit (A : Type) (e : Z) (s s1 : State)
    (n : string) :
  src_fd s = 0 ->
  SOCKFILE s = Some n -> (String.length n < SUN_PATH_SIZE)%nat ->
  listen_setup s = Ret tt s1 ->
  n ∈ fs s1 /\
  exists s2,
    @exit A e s1 = Exit e s2 /\ (n ∉ fs s2) /\ src_fd s2 = 0 /\
    (src_fd s1 <> 0 ->
     EClose (src_fd s1) ∈ drop (length (trace s1)) (trace s2)).
Proof.
  intros H0 Hn Hlen H.
  assert (Haddr : mk_sockaddr s = n).
  { unfold mk_sockaddr. rewrite Hn. apply substring_0_all.
    unfold SUN_PATH_SIZE in *. lia. }
  apply listen_setup_returns in H
    as (_ & _ & Hat & Hsock & _ & Hfs & _); [|exact H0].
  rewrite Haddr in Hfs. split; [apply Hfs; by left|].
  unfold exit. rewrite Hat. simpl. unfold rm_sockfile. run.
  destruct (src_fd s1 =? 0) eqn:E; run;
    match goal with |- context [run_handlers ?hs ?t] =>
      destruct (run_handlers_spec hs t)
        as (s2 & Hrun & Htr & Hfs2 & _ & _ & _ & Hsfd & _); [simpl; lia|]
    end;
    rewrite Hrun; exists s2; (split; [reflexivity|]);
    (split; [rewrite Hfs2; simpl; rewrite elem_of_unlink_fs, Hsock, Hn;
             tauto|]);
    (split; [exact Hsfd|]); intros Hne; [lia|].
  rewrite Htr. simpl. rewrite <- !app_assoc, drop_app_length. simpl.
  apply elem_of_cons. by left.
Qed.

(** ** What a broadcast pass writes *)

Lemma write_all_tail (n : nat) (d off nr : Z) (s : State) :
  0 <= off ->
  exists evs,
    trace (final (write_all n d off nr s)) = (trace s ++ evs)%list /\
    Forall (unsent_tail [d] (off + nr)) evs.
Proof.
  revert off nr s. induction n as [|n IH]; intros off nr s Hoff; simpl;
    destruct (nr =? 0) eqn:E; simpl;
    try (exists []; rewrite app_nil_r; by split).
  unfold call. run.
  destruct (oracle s SWrite) as [|r rs]; simpl;
    [exists []; rewrite app_nil_r; by split|].
  assert (He : unsent_tail [d] (off + nr) (EWrite d off nr)).
  { intros ? ? ? [= <- <- <-]. rewrite list_elem_of_singleton.
    repeat split; auto. lia. }
  destruct (int_of r <? 0) eqn:En; simpl.
  - match goal with |- context [errno ?t =? EINTR] =>
      destruct (errno t =? EINTR) end; simpl.
    + match goal with |- context [write_all n d ?o ?r ?t] =>
        destruct (IH o r t) as (evs & Htr & Hev); [lia|]
      end.
      exists (EWrite d off nr :: evs). split.
      * rewrite Htr. destruct r; simpl; by rewrite <- app_assoc.
      * constructor; [exact He|].
        replace (off + nr) with (off + 0 + (nr - 0)) by lia. exact Hev.
    + exists [EWrite d off nr]. split; [by destruct r|]. by constructor.
  - match goal with |- context [write_all n d ?o ?r ?t] =>
      destruct (IH o r t) as (evs & Htr & Hev); [lia|]
    end.
    exists (EWrite d off nr :: evs). split.
    + rewrite Htr. destruct r; simpl; by rewrite <- app_assoc.
    + constructor; [exact He|].
      replace (off + nr) with (off + int_of r + (nr - int_of r)) by lia.
      exact Hev.
Qed.

Lemma unsent_tail_mono (ds ds' : list Z) (size : Z) (evs : list event) :
  (forall d, d ∈ ds -> d ∈ ds') ->
  Forall (unsent_tail ds size) evs -> Forall (unsent_tail ds' size) evs.
Proof.
  intros Hsub Hev. eapply Forall_impl; [exact Hev|]. intros e He d off nr Heq.
  destruct (He d off nr Heq) as (Hd & Hrest). split; auto.
Qed.

Lemma write_clients_tail (n i : nat) (s : State) :
  0 <= cnt s <= Z.of_nat (length (fd s)) ->
  exists evs,
    trace (final (write_clients n (Z.of_nat i) s)) = (trace s ++ evs)%list /\
    Forall (unsent_tail (drop i (registry s)) (bufsz s)) evs.
Proof.
  revert i s. induction n as [|n IH]; intros i s Hc; cbn [write_clients];
    erewrite bind_ret_eq by reflexivity; cbv beta;
    destruct (Z.of_nat i <? cnt s) eqn:E; simpl;
    try (exists []; rewrite app_nil_r; by split).
  apply Z.ltb_lt in E.
  assert (Hx : registry s !! i = Some (arr_get (fd s) (Z.of_nat i)))
    by (apply registry_lookup; lia).
  set (x := arr_get (fd s) (Z.of_nat i)) in *.
  destruct (write_all_tail (length (oracle s SWrite)) x 0 (bufsz s) s)
    as (ws & Hws & Hwev); [lia|].
  apply (unsent_tail_mono _ (drop i (registry s))) in Hwev;
    [|intros d ->%list_elem_of_singleton; rewrite (drop_S _ _ _ Hx);
      apply elem_of_cons; by left].
  pose proof (write_all_same_registry (length (oracle s SWrite)) x 0
                (bufsz s) s) as (Hfd & Hcnt & Hsz & _).
  unfold bind at 1.
  destruct (write_all _ x 0 (bufsz s) s) as [nr s1| | | |]; simpl in *;
    try (exists ws; by split).
  assert (Hreg1 : registry s1 = registry s)
    by (unfold registry; by rewrite Hfd, Hcnt).
  assert (Hnext : forall d, d ∈ drop (S i) (registry s) ->
                            d ∈ drop i (registry s)).
  { intros d Hd. rewrite (drop_S _ _ _ Hx). apply elem_of_cons. by right. }
  destruct (nr =? 0).
  - replace (Z.of_nat i + 1) with (Z.of_nat (S i)) by lia.
    destruct (IH (S i) s1) as (evs & Htr & Hev); [rewrite Hfd, Hcnt; lia|].
    exists (ws ++ evs)%list. split; [by rewrite Htr, Hws, app_assoc|].
    apply Forall_app. split; [exact Hwev|].
    rewrite Hreg1, Hsz in Hev. by apply (unsent_tail_mono _ _ _ _ Hnext).
  - destruct (drop_client_returns i s1)
      as (s2 & Hdrop & Hreg2 & Hcnt2 & Hlen2 & Htr2 & Hsz2 & _);
      [lia | rewrite Hfd, Hcnt; lia |].
    erewrite bind_ret_eq by exact Hdrop.
    destruct (IH i s2) as (evs & Htr & Hev);
      [rewrite Hlen2, Hcnt2, Hfd, Hcnt; lia|].
    exists (ws ++ EClose (arr_get (fd s1) (Z.of_nat i)) :: evs)%list.
    split; [rewrite Htr, Htr2, Hws, <- !app_assoc; reflexivity|].
    apply Forall_app. split; [exact Hwev|].
    constructor; [intros ? ? ? [=]|].
    rewrite Hreg2, Hreg1, Hsz2, Hsz, delete_take_drop in Hev.
    rewrite drop_app_length' in Hev
      by (rewrite length_take, registry_length; lia).
    by apply (unsent_tail_mono _ _ _ _ Hnext).
Qed.

(** X2.  However a broadcast pass ends, every [write] it has made went to
    a client of the registry as it was at the start, started at an offset
    inside the buffer, and asked for all that was left from there:
    [off + nr = bufsz], with [nr] not 0. *)
Theorem write_buf_sends_unsent_tail (s : State) :
  0 <= cnt s <= Z.of_nat (length (fd s)) ->
  exists evs,
    trace (final (write_buf s)) = (trace s ++ evs)%list /\
    Forall (unsent_tail (registry s) (bufsz s)) evs.
Proof.
  intros Hc. unfold write_buf. erewrite bind_ret_eq by reflexivity.
  exact (write_clients_tail (Z.to_nat (cnt s)) 0 s Hc).
Qed.

(** ** The end of the server *)


(** ** The names of the files *)

Lemma list_ascii_of_string_app (a b : string) :
  list_ascii_of_string (a +:+ b)
  = (list_ascii_of_string a ++ list_ascii_of_string b)%list.
Proof.
  induction a as [|c a IH]; [reflexivity|].
  change (c :: list_ascii_of_string (a +:+ b)
          = c :: (list_ascii_of_string a ++ list_ascii_of_string b)%list).
  by rewrite IH.
Qed.

Lemma list_ascii_of_string_inj (a b : string) :
  list_ascii_of_string a = list_ascii_of_string b -> a = b.
Proof.
  intros H. rewrite <- (string_of_list_ascii_of_string a),
    <- (string_of_list_ascii_of_string b). by rewrite H.
Qed.

Lemma append_inj_r (a b t : string) : a +:+ t = b +:+ t -> a = b.
Proof.
  intros H. apply list_ascii_of_string_inj.
  apply (f_equal list_ascii_of_string) in H.
  rewrite !list_ascii_of_string_app in H. by apply app_inv_tail in H.
Qed.

(** X26.  The names of the three files determine the name of the
    instance, and the three files of instances -- the same or not -- are
    different files. *)
Theorem instance_files_distinct (a b : string) :
  (sockfile_name a = sockfile_name b -> a = b) /\
  (pidfile_name a = pidfile_name b -> a = b) /\
  (lockfile_name a = lockfile_name b -> a = b) /\
  pidfile_name a <> sockfile_name b /\
  pidfile_name a <> lockfile_name b /\
  sockfile_name a <> lockfile_name b.
Proof.
  unfold sockfile_name, pidfile_name, lockfile_name.
  assert (Hkind : forall t u : string,
            TMPDIR +:+ "/delivery." +:+ a +:+ t
            = TMPDIR +:+ "/delivery." +:+ b +:+ u ->
            (list_ascii_of_string a ++ list_ascii_of_string t
             = list_ascii_of_string b ++ list_ascii_of_string u)%list).
  { intros t u H. do 2 apply String.app_inj in H.
    apply (f_equal list_ascii_of_string) in H.
    by rewrite !list_ascii_of_string_app in H. }
  refine (conj _ (conj _ (conj _ (conj _ (conj _ _)))));
    try (intros H; do 2 apply String.app_inj in H;
         by apply append_inj_r in H);
    intros H%Hkind; apply (f_equal (@rev _)) in H;
    rewrite !rev_app_distr in H; simpl in H; congruence.
Qed.

(** * The theorems at work *)

(** Closed facts about concrete states are settled by evaluation. *)
Ltac evaluated :=
  vm_compute;
  first [ reflexivity | discriminate
        | let H := fresh in intros H; discriminate H ].

(** The write to the second of three clients fails with [EPIPE]: it is the
    one that goes, and the pass goes on with the third. *)
Lemma write_failure_drops_client_witness :
  exists s1 s2,
    write_all 1 6 0 4 (three_clients [RErr 32%positive]) = Ret 4 s1 /\
    drop_client 1 s1 = Ret tt s2 /\
    registry s2 = [5; 7] /\ cnt s2 = 2 /\
    write_clients 3 1 (three_clients [RErr 32%positive])
      = write_clients 2 1 s2.
Proof.
  pose (s := three_clients [RErr 32%positive]).
  pose (s1 := final (write_all 1 6 0 4 s)).
  assert (Hc : cnt s = 3) by (vm_compute; reflexivity).
  assert (Hl : Z.of_nat (length (fd s)) = 1024) by (vm_compute; reflexivity).
  assert (Hw : write_all (length (oracle s SWrite)) (arr_get (fd s) 1) 0
                 (bufsz s) s = Ret 4 s1) by (vm_compute; reflexivity).
  destruct (write_failure_drops_client 2 1 4 s s1)
    as (_ & s2 & Hdrop & Hreg & Hcnt & _ & _ & _ & Hgo).
  - rewrite Hc. lia.
  - rewrite Hc, Hl. lia.
  - exact Hw.
  - discriminate.
  - exists s1, s2. split; [vm_compute; reflexivity|]. split; [exact Hdrop|].
    split; [rewrite Hreg; vm_compute; reflexivity|].
    split; [rewrite Hcnt, Hc; reflexivity|].
    exact Hgo.
Defined.

(** A client connects; two restart requests arrive; the client leaves;
    another client connects: three spawns -- the first client, the
    restart, the client after the idle time. *)
Lemma source_spawned_once_per_transition_witness :
  exists s' evs,
    manage ["prod"]
      [[Connect 5]; [Restart 1; Restart 1]; [Disconnect 0]; [Connect 6]]
      fresh_server = Ret tt s' /\
    trace s' = (trace fresh_server ++ evs)%list /\
    spawns evs = 3%nat /\
    single_producer false evs = true.
Proof.
  destruct (source_spawned_once_per_transition ["prod"]
              [[Connect 5]; [Restart 1; Restart 1]; [Disconnect 0];
               [Connect 6]] fresh_server)
    as (s' & evs & Hrun & Htr & Hn & Hone & _).
  - split; evaluated.
  - intros H. exfalso. apply H. evaluated.
  - repeat constructor; eexists; (split; [reflexivity|discriminate]).
  - simpl. lia.
  - exists s', evs. split; [exact Hrun|]. split; [exact Htr|].
    split; [rewrite Hn; evaluated|exact Hone].
Defined.

(** Three reports of the end of the stream: the round hangs in the read,
    and no cleanup call has been made. *)
Lemma end_of_stream_is_retried_witness :
  exists s',
    server_round ["prod"] (busy_server at_end_of_stream) = Hang s' /\
    trace s' = [] /\ cnt s' = 1.
Proof.
  destruct (end_of_stream_is_retried 3 ["prod"]
              (busy_server at_end_of_stream) [])
    as (s' & Hrun & Htr & _ & _ & Hcnt & _); try evaluated.
  exists s'. split; [exact Hrun|]. split; [rewrite Htr|rewrite Hcnt];
    evaluated.
Defined.

(** The only client is dropped in the pump cycle: the loop ends. *)
Lemma server_loop_ends_when_registry_empty_witness :
  let s := busy_server last_client_leaves in
  let s' := final (server_round ["prod"] s) in
  cnt s' = 0 /\ server_loop 1 ["prod"] s = Ret tt s'.
Proof.
  intros s s'.
  destruct (server_loop_ends_when_registry_empty 0 ["prod"] s s')
    as (Hiff & _ & _); [evaluated|].
  assert (Hc : cnt s' = 0) by evaluated.
  split; [exact Hc|]. apply Hiff. exact Hc.
Defined.

(** Three requests, one close and one spawn. *)
Lemma restart_requests_coalesce_witness :
  exists s',
    open_src ["prod"]
      (reopen_src 1 (reopen_src 1 (reopen_src 1 restart_pending)))
      = Ret tt s' /\
    trace s' = [EPclose 200; EPopen "prod" []] /\
    open_src ["prod"] s' = Ret tt s'.
Proof.
  destruct (restart_requests_coalesce [1; 1; 1] ["prod"] restart_pending
              201 [])
    as (_ & s' & Hrun & Htr & _ & _ & Hnext); try evaluated.
  exists s'. split; [exact Hrun|]. split; [rewrite Htr; evaluated|].
  exact Hnext.
Defined.

(** The restart leaves client 5 where it is. *)
Lemma restart_keeps_clients_witness :
  exists s',
    open_src ["prod"] (reopen_src 1 restart_pending) = Ret tt s' /\
    registry s' = [5] /\ src s' = 201.
Proof.
  destruct (restart_keeps_clients 1 ["prod"] restart_pending 201 [])
    as (s' & evs & Hrun & _ & _ & _ & _ & _ & Hreg & _ & Hsrc);
    try evaluated.
  exists s'. split; [exact Hrun|]. split; [rewrite Hreg; evaluated|].
  exact Hsrc.
Defined.



(** Started without the variable, the producer finds the identifier of the
    server in it. *)
Lemma spawned_command_sees_marker_witness :
  let s := initial_state 77 [("HOME", "/root")] full_run [] [] in
  EPopen "prod -q" [("HOME", "/root"); ("_DELIVERY_PID", "77")]
    ∈ trace (final (main first_server s)) /\
  getenv DELIVERYPID [("HOME", "/root"); ("_DELIVERY_PID", "77")]
  = Some "77".
Proof.
  intros s.
  assert (Hin : EPopen "prod -q" [("HOME", "/root"); ("_DELIVERY_PID", "77")]
                ∈ drop (length (trace s))
                    (trace (final (main first_server s)))).
  { vm_compute. do 7 apply list_elem_of_further. apply list_elem_of_here. }
  split.
  - vm_compute. do 7 apply list_elem_of_further. apply list_elem_of_here.
  - assert (Hname : instance_name first_server s = Ret "x" s)
      by (vm_compute; reflexivity).
    exact (spawned_command_sees_marker first_server s s "x" "prod -q"
             [("HOME", "/root"); ("_DELIVERY_PID", "77")]
             eq_refl Hname Hin).
Defined.

(** A server with the identifier 77 that is started with [_DELIVERY_PID=1]
    in its environment -- by the producer of another server, say -- hands
    [_DELIVERY_PID=1] on to its own producer. *)
Lemma marker_inherited_not_own_pid : ~ marker_is_own_pid.
Proof.
  intros H.
  pose (s := initial_state 77 [("_DELIVERY_PID", "1")] full_run [] []).
  assert (Hin : EPopen "prod -q" [("_DELIVERY_PID", "1")]
                ∈ drop (length (trace s))
                    (trace (final (main first_server s)))).
  { vm_compute. do 7 apply list_elem_of_further. apply list_elem_of_here. }
  assert (Hname : instance_name first_server s = Ret "x" s)
    by (vm_compute; reflexivity).
  specialize (H first_server s s "x" "prod -q" [("_DELIVERY_PID", "1")]
                eq_refl Hname Hin).
  vm_compute in H. discriminate H.
Qed.



(** Of the three clients the second one fails: the pass leaves the first
    and the third, in this order. *)
Lemma write_buf_pass_witness :
  let s := three_clients [ROk 4; RErr 32%positive; ROk 4] in
  let s' := final (write_buf s) in
  registry s = [5; 6; 7] /\ registry s' = [5; 7] /\
  exists evs, trace s' = (trace s ++ evs)%list /\
              (registry s' ++ closed evs)%list ≡ₚ registry s.
Proof.
  intros s s'.
  assert (Hc : cnt s = 3) by evaluated.
  assert (Hl : Z.of_nat (length (fd s)) = 1024) by evaluated.
  destruct (write_buf_pass s s') as (evs & Htr & _ & Hperm & _).
  - rewrite Hc, Hl. lia.
  - evaluated.
  - split; [evaluated|]. split; [evaluated|]. exists evs. by split.
Defined.

Lemma write_buf_sends_unsent_tail_witness :
  let s := three_clients [ROk 3; ROk 1; RErr 32%positive; ROk 4] in
  exists evs,
    trace (final (write_buf s)) = (trace s ++ evs)%list /\
    Forall (unsent_tail (registry s) (bufsz s)) evs /\
    EWrite 5 3 1 ∈ trace (final (write_buf s)).
Proof.
  intros s.
  assert (Hc : cnt s = 3) by evaluated.
  assert (Hl : Z.of_nat (length (fd s)) = 1024) by evaluated.
  destruct (write_buf_sends_unsent_tail s) as (evs & Htr & Hev).
  - rewrite Hc, Hl. lia.
  - exists evs. split; [exact Htr|]. split; [exact Hev|].
    vm_compute. apply list_elem_of_further, list_elem_of_here.
Defined.

Lemma open_src_source_iff_clients_witness :
  let s' := final (open_src ["prod"] (reopen_src 1 restart_pending)) in
  src s' = 201 /\ cnt s' = 1 /\ reopen s' = 0 /\
  (src s' <> 0 <-> cnt s' <> 0).
Proof.
  intros s'.
  destruct (open_src_source_iff_clients ["prod"]
              (reopen_src 1 restart_pending) s')
    as (Hiff & Hre & _); [evaluated|].
  split; [evaluated|]. split; [evaluated|]. by split.
Defined.

Lemma open_src_popen_failure_witness :
  exists s',
    open_src ["prod"] popen_refused = Exit EBADF s' /\
    closed (drop (length (trace popen_refused)) (trace s')) = [4; 5] /\
    cnt s' = 0.
Proof.
  assert (Hc : cnt popen_refused = 1) by evaluated.
  assert (Hl : Z.of_nat (length (fd popen_refused)) = 1024) by evaluated.
  destruct (open_src_popen_failure ["prod"] popen_refused
              (RErr 12%positive) [])
    as (s' & Hrun & Htr & _ & Hcnt & _).
  - rewrite Hc, Hl. lia.
  - rewrite Hc. discriminate.
  - left. evaluated.
  - evaluated.
  - reflexivity.
  - exists s'. split; [exact Hrun|]. split; [|exact Hcnt].
    rewrite Htr, drop_app_length. evaluated.
Defined.

(** The server with two clients and no source dies: the socket goes, then
    the second client, then the first. *)
Lemma die_closes_every_descriptor_witness :
  src serving_server = 0 /\
  exists s',
    @die unit (Some "accept") 24 serving_server = Exit 24 s' /\
    closed (drop (length (trace serving_server)) (trace s')) = [4; 6; 5] /\
    cnt s' = 0 /\ src_fd s' = 0.
Proof.
  split; [evaluated|].
  assert (Hc : cnt serving_server = 2) by evaluated.
  assert (Hl : Z.of_nat (length (fd serving_server)) = 1024) by evaluated.
  destruct (die_closes_every_descriptor unit (Some "accept") 24
              serving_server)
    as (s' & Hrun & Hcl & _ & Hcnt & _ & Hsfd & _).
  - evaluated.
  - rewrite Hc, Hl. lia.
  - exists s'. split; [exact Hrun|]. split; [|by split].
    rewrite Hcl. evaluated.
Defined.

Lemma mk_blocking_clears_one_bit_witness :
  let s' := final (mk_blocking 4 nonblocking_socket) in
  fl nonblocking_socket 4 = 2050 /\ fl s' 4 = 2 /\ is_blocking s' 4 /\
  Z.testbit (fl s' 4) 1 = true.
Proof.
  intros s'.
  destruct (mk_blocking_clears_one_bit 4 nonblocking_socket s')
    as (Hb & Hbits & _); [evaluated|].
  split; [evaluated|]. split; [evaluated|]. split; [exact Hb|].
  rewrite Hbits by discriminate. evaluated.
Defined.

Lemma mk_nonblocking_sets_one_bit_witness :
  let s' := final (mk_nonblocking 4 blocking_socket) in
  fl blocking_socket 4 = 2 /\ fl s' 4 = 2050 /\ ~ is_blocking s' 4 /\
  Z.testbit (fl s' 4) 1 = true.
Proof.
  intros s'.
  destruct (mk_nonblocking_sets_one_bit 4 blocking_socket s')
    as (Hb & Hbits & _); [evaluated|].
  split; [evaluated|]. split; [evaluated|]. split; [exact Hb|].
  rewrite Hbits by discriminate. evaluated.
Defined.

Lemma blocking_mode_round_trip_witness :
  let s' := final ((mk_nonblocking 4;; mk_blocking 4) blocking_socket) in
  fl s' 4 = 2 /\ forall x, fl s' x = fl blocking_socket x.
Proof.
  intros s'.
  pose proof (blocking_mode_round_trip 4 blocking_socket s') as H.
  split; [evaluated|]. apply H; evaluated.
Defined.

Lemma rd_pidfile_returns_live_pid_witness :
  exists s',
    rd_pidfile (restart_process [ROk 0]) = Ret 4242 s' /\
    trace s' = [EKill 4242 0] /\ fs s' = running_x.
Proof.
  pose (s' := final (rd_pidfile (restart_process [ROk 0]))).
  destruct (rd_pidfile_returns_live_pid (restart_process [ROk 0]) s' 4242)
    as (_ & _ & _ & Htr & Hfs & _); [evaluated|].
  exists s'. split; [evaluated|]. split; [rewrite Htr|rewrite Hfs]; evaluated.
Defined.

(** The process 4242 is gone: the restart fails, and takes the files of
    [x] with it. *)
Lemma rd_pidfile_rejects_witness :
  exists s',
    rd_pidfile (named_x (restart_process [RErr 3%positive]))
    = Exit EINVAL s' /\
    fs s' = ["/tmp/delivery.x.lock"].
Proof.
  pose (s := named_x (restart_process [RErr 3%positive])).
  assert (Hc : cnt s = 0) by evaluated.
  destruct (rd_pidfile_rejects s 100 (ROk 4242) [] [])
    as (s' & Hrun & _).
  - rewrite Hc. lia.
  - evaluated.
  - discriminate.
  - evaluated.
  - right. exists 3%positive, []. evaluated.
  - exists s'. split; [exact Hrun|].
    vm_compute in Hrun. injection Hrun as <-. evaluated.
Defined.


(** Pages of 4096 bytes and blocks of 65536 give a buffer of 65536 bytes;
    a block size of [2^32 + 5] gives one of 5. *)
Lemma alloc_buffer_size_witness :
  (let s' := final (alloc_buffer pipe_source) in
   bufsz s' = 65536 /\ buffer s' = 300) /\
  (let s' := final (alloc_buffer wide_blocks) in
   bufsz s' = 5 /\ buffer s' = 300).
Proof.
  split; intros s'.
  - destruct (alloc_buffer_size pipe_source s')
      as (pg & blk & rs1 & rs2 & Ho1 & Ho2 & _ & _ & Hmax & _); [evaluated|].
    injection Ho1 as <- _. injection Ho2 as <- _.
    split; [rewrite Hmax; [reflexivity|lia|lia]|evaluated].
  - destruct (alloc_buffer_size wide_blocks s')
      as (pg & blk & rs1 & rs2 & Ho1 & Ho2 & Hsz & _); [evaluated|].
    injection Ho1 as <- _. injection Ho2 as <- _.
    split; [rewrite Hsz|]; evaluated.
Defined.

Lemma registry_stays_in_bounds_witness :
  let s := initial_state 77 [] full_run [] [] in
  in_bounds s /\
  in_bounds (final (server_round ["prod"] s)) /\
  in_bounds (final (main first_server s)).
Proof.
  intros s.
  assert (Hb : in_bounds s) by (split; [split|]; evaluated).
  destruct (registry_stays_in_bounds first_server ["prod"] 0 s Hb)
    as (Hround & _ & Hmain).
  split; [exact Hb|]. by split.
Defined.

(** Two connections with a signal in between: both are taken in, in their
    order. *)
Lemma pending_connections_registered_in_order_witness :
  exists s',
    check_for_new_clients arrivals = Ret tt s' /\
    registry s' = [5; 6] /\ trace s' = [] /\ errno s' = EWOULDBLOCK.
Proof.
  destruct (pending_connections_registered_in_order arrivals
              [ROk 5; RErr 4%positive; ROk 6] [])
    as (s' & Hrun & Hreg & Htr & _ & He).
  - evaluated.
  - split; [split|]; evaluated.
  - intros d. evaluated.
  - apply Forall_cons.
    split; [right; eexists; split; [reflexivity|discriminate]|].
    apply Forall_cons. split; [by left|].
    apply Forall_cons.
    split; [right; eexists; split; [reflexivity|discriminate]|].
    apply Forall_nil. done.
  - evaluated.
  - apply Forall_forall. intros r Hr.
    apply list_elem_of_In, repeat_spec in Hr. by exists 0.
  - vm_compute. lia.
  - exists s'. split; [exact Hrun|].
    split; [rewrite Hreg; evaluated|]. split; [rewrite Htr; evaluated|].
    exact He.
Defined.


(** [delivery -n x -c]: the client becomes [cat], reading from the socket
    of [x]. *)
Lemma client_execs_command_witness :
  let s' := final (client [] connecting_client) in
  client [] connecting_client = Exec ["cat"] s' /\
  trace s' = [EConnect 3 "/tmp/delivery.x.sock"; EClose 0; EClose 3].
Proof.
  intros s'.
  assert (Hrun : client [] connecting_client = Exec ["cat"] s') by evaluated.
  destruct (client_execs_command [] ["cat"] connecting_client s' Hrun)
    as (_ & d & _ & Htr & _).
  split; [exact Hrun|]. evaluated.
Defined.

Lemma dry_run_touches_nothing_witness :
  let s := initial_state 81 [] no_results running_x [] in
  exists s',
    main dry_run_x s = Exit 0 s' /\ fs s' = running_x /\ trace s' = [] /\
    SOCKFILE s' = Some "/tmp/delivery.x.sock".
Proof.
  intros s.
  destruct (dry_run_touches_nothing dry_run_x s s "x")
    as (Hrun & _); try evaluated.
  eexists. split; [exact Hrun|]. split; [|split]; evaluated.
Defined.

Lemma bad_option_is_usage_error_witness :
  exists s',
    main unknown_option (initial_state 82 [] full_run running_x [])
    = Exit EINVAL s' /\
    fs s' = running_x /\ trace s' = [EUnlink None; EUnlink None] /\
    oracle s' = full_run.
Proof.
  eexists. split.
  - exact (bad_option_is_usage_error unknown_option 82 [] full_run
             running_x [] eq_refl).
  - split; [|split]; reflexivity.
Defined.

(** The server of [x] binds its socket to [/tmp/delivery.x.sock]. *)
Lemma endpoints_use_instance_address_witness :
  let s := initial_state 77 [] full_run [] [] in
  EBind 4 "/tmp/delivery.x.sock" ∈ trace (final (main first_server s)) /\
  "/tmp/delivery.x.sock" = String.substring 0 107 (sockfile_name "x").
Proof.
  intros s.
  assert (Hin : EBind 4 "/tmp/delivery.x.sock"
                ∈ drop (length (trace s))
                    (trace (final (main first_server s)))).
  { vm_compute.
    repeat first [apply list_elem_of_here | apply list_elem_of_further]. }
  assert (Hname : instance_name first_server s = Ret "x" s) by evaluated.
  pose proof (endpoints_use_instance_address first_server s s "x" 4
                "/tmp/delivery.x.sock" eq_refl Hname (or_introl Hin)) as Ha.
  split; [|exact Ha]. vm_compute.
  repeat first [apply list_elem_of_here | apply list_elem_of_further].
Defined.

(** The socket file an earlier server has left is replaced, and the new
    one is gone after [exit]. *)
Lemma socket_file_removed_at_exit_witness :
  let s1 := final (listen_setup before_setup) in
  fs s1 = ["/tmp/delivery.x.sock"] /\
  exists s2, @exit unit 0 s1 = Exit 0 s2 /\ fs s2 = [] /\
             EClose 4 ∈ trace s2.
Proof.
  intros s1.
  destruct (socket_file_removed_at_exit unit 0 before_setup s1
              "/tmp/delivery.x.sock")
    as (Hin & s2 & Hrun & Hout & _ & Hcl); try evaluated.
  - vm_compute. lia.
  - split; [evaluated|]. exists s2. split; [exact Hrun|].
    vm_compute in Hrun. injection Hrun as <-. split; [evaluated|].
    vm_compute.
    repeat first [apply list_elem_of_here | apply list_elem_of_further].
Defined.

